(** * planning_update: recurring-task rescheduling on a Trello board

  A shallow embedding of [planning_update.py] together with the parts of
  the Python libraries it calls ([datetime], [dateutil.relativedelta],
  [re.match], [int], [sorted]), and the properties of the due-date
  advancer, the task filter, the weekday router, the list orderer and the
  two-phase pipeline.

  Python integers are [Z]; [//] and [%] are [Z.div] and [Z.modulo] (both
  floor for a positive divisor).  A [str] is kept as the [string] of its
  UTF-8 encoding, so equality of texts is equality of strings, and the
  operations that see characters ([re.match], [strptime], [int]) cut the
  string into its characters first. *)

From Stdlib Require Import ZArith List String Ascii Bool Lia Permutation Sorted.
Import ListNotations.
Open Scope string_scope.
Open Scope list_scope.
Open Scope Z_scope.

Ltac Zify.zify_post_hook ::= Z.to_euclidean_division_equations.

(** ** Exceptions and results *)

Inductive exn : Type :=
| TypeError
| ValueError
| OverflowError
| IndexError
| AttributeError
| AssertionError
| NameError           (* includes UnboundLocalError, its subclass *)
| RequestError.       (* whatever the HTTP layer or json.loads raises *)

Inductive result (A : Type) : Type :=
| Ok (a : A)
| Raise (e : exn).
Arguments Ok {A} a.
Arguments Raise {A} e.

(** ** The interpreter and its platform

    Three things the program relies on are not fixed by its source.  The
    character database behind [\d], [\w] and [int] grows with the
    releases of the interpreter.  The limit on the number of digits that
    [int] converts exists from CPython 3.11 on (4300 unless it is set
    otherwise) and not before.  And the C library decides whether
    [strftime] pads [%Y] with zeros below the year 1000.  The model takes
    them as parameters, and every property of the program is proved for
    all their values.

    [todecimal] and [isalnum] are asked about characters outside ASCII
    only, by their code points: [todecimal] is the value of a decimal
    digit, and [-1] for any other character ([Py_UNICODE_TODECIMAL]);
    [isalnum] is [str.isalnum] of the character.  [int_max_str_digits] is
    [sys.get_int_max_str_digits()], [0] when there is no limit. *)

Class Runtime : Type := {
  todecimal : Z -> Z;
  isalnum : Z -> bool;
  int_max_str_digits : Z;
  pads_year : bool;
  todecimal_range : forall cp : Z, -1 <= todecimal cp <= 9 }.

(** A runtime for the worked examples: the limit of 4300 digits, years
    that are not padded, and a character database cut down to the
    Arabic-Indic digits and the letters of Latin-1 and of the Russian
    alphabet. *)
Definition sample_todecimal (cp : Z) : Z :=
  if (1632 <=? cp) && (cp <=? 1641) then cp - 1632
  else if (1776 <=? cp) && (cp <=? 1785) then cp - 1776
  else -1.

Definition sample_isalnum (cp : Z) : bool :=
  ((192 <=? cp) && (cp <=? 214)) || ((216 <=? cp) && (cp <=? 246))
  || ((248 <=? cp) && (cp <=? 255))
  || ((1040 <=? cp) && (cp <=? 1103)) || (cp =? 1025) || (cp =? 1105).

Definition sample_runtime : Runtime :=
  {| todecimal := sample_todecimal;
     isalnum := sample_isalnum;
     int_max_str_digits := 4300;
     pads_year := false;
     todecimal_range :=
       ltac:(intros cp; unfold sample_todecimal;
             destruct ((1632 <=? cp) && (cp <=? 1641)) eqn:E1;
             [apply andb_true_iff in E1; lia|];
             destruct ((1776 <=? cp) && (cp <=? 1785)) eqn:E2;
             [apply andb_true_iff in E2; lia|lia]) |}.

(** ** The proleptic Gregorian calendar of [datetime]

    After the reference implementation of the standard library's
    [datetime] module: [_is_leap], [_days_before_year], [_days_in_month],
    [_days_before_month], [_ymd2ord] and [_ord2ymd]. *)

Module Calendar.

Definition MINYEAR : Z := 1.
Definition MAXYEAR : Z := 9999.
Definition MAXORDINAL : Z := 3652059.

Definition DAYS_IN_MONTH : list Z :=
  [-1; 31; 28; 31; 30; 31; 30; 31; 31; 30; 31; 30; 31].
Definition DAYS_BEFORE_MONTH : list Z :=
  [-1; 0; 31; 59; 90; 120; 151; 181; 212; 243; 273; 304; 334].

(** [table[i]] for an index the callers keep inside the table. *)
Definition idx (table : list Z) (i : Z) : Z := nth (Z.to_nat i) table (-1).

Definition is_leap (year : Z) : bool :=
  (year mod 4 =? 0) && (negb (year mod 100 =? 0) || (year mod 400 =? 0)).

Definition days_before_year (year : Z) : Z :=
  let y := year - 1 in
  y * 365 + y / 4 - y / 100 + y / 400.

Definition days_in_month (year month : Z) : Z :=
  if (month =? 2) && is_leap year then 29 else idx DAYS_IN_MONTH month.

Definition days_before_month (year month : Z) : Z :=
  idx DAYS_BEFORE_MONTH month + (if (2 <? month) && is_leap year then 1 else 0).

Definition ymd2ord (year month day : Z) : Z :=
  days_before_year year + days_before_month year month + day.

Definition DI400Y : Z := 146097.
Definition DI100Y : Z := 36524.
Definition DI4Y : Z := 1461.

Definition ord2ymd (n : Z) : Z * Z * Z :=
  let n := n - 1 in
  let n400 := n / DI400Y in
  let n := n mod DI400Y in
  let year := n400 * 400 + 1 in
  let n100 := n / DI100Y in
  let n := n mod DI100Y in
  let n4 := n / DI4Y in
  let n := n mod DI4Y in
  let n1 := n / 365 in
  let n := n mod 365 in
  let year := year + (n100 * 100 + n4 * 4 + n1) in
  if (n1 =? 4) || (n100 =? 4) then (year - 1, 12, 31)
  else
    let leapyear := (n1 =? 3) && (negb (n4 =? 24) || (n100 =? 3)) in
    let month := Z.shiftr (n + 50) 5 in
    let preceding :=
      idx DAYS_BEFORE_MONTH month + (if (2 <? month) && leapyear then 1 else 0) in
    if n <? preceding then
      let month := month - 1 in
      let preceding :=
        preceding - (idx DAYS_IN_MONTH month
                     + (if (month =? 2) && leapyear then 1 else 0)) in
      (year, month, n - preceding + 1)
    else (year, month, n - preceding + 1).

Definition valid_date (year month day : Z) : Prop :=
  MINYEAR <= year <= MAXYEAR /\ 1 <= month <= 12 /\
  1 <= day <= days_in_month year month.

Definition valid_dateb (year month day : Z) : bool :=
  (MINYEAR <=? year) && (year <=? MAXYEAR) && (1 <=? month) && (month <=? 12)
  && (1 <=? day) && (day <=? days_in_month year month).

End Calendar.

(** ** [datetime.datetime] (naive, as [utcnow] and [strptime] build it) *)

Module Datetime.
Import Calendar.

Record datetime : Type := mk {
  year : Z; month : Z; day : Z;
  hour : Z; minute : Z; second : Z; microsecond : Z }.

Definition validb (d : datetime) : bool :=
  valid_dateb (year d) (month d) (day d)
  && (0 <=? hour d) && (hour d <=? 23)
  && (0 <=? minute d) && (minute d <=? 59)
  && (0 <=? second d) && (second d <=? 59)
  && (0 <=? microsecond d) && (microsecond d <=? 999999).

Definition valid (d : datetime) : Prop := validb d = true.

(** The arguments of the constructor and of [replace] are C [int]s. *)
Definition fits_int (x : Z) : bool :=
  (-2147483648 <=? x) && (x <=? 2147483647).

(** The constructor, and [replace] with every field given: an argument
    that does not fit a C [int] is an [OverflowError]; then every field is
    checked ([_check_date_fields], [_check_time_fields]). *)
Definition make (y mo d h mi s us : Z) : result datetime :=
  if forallb fits_int [y; mo; d; h; mi; s; us] then
    let r := mk y mo d h mi s us in
    if validb r then Ok r else Raise ValueError
  else Raise OverflowError.

Definition fields (d : datetime) : list Z :=
  [year d; month d; day d; hour d; minute d; second d; microsecond d].

(** Tuple comparison, as [datetime._cmp] does on the seven fields. *)
Fixpoint cmp_tuple (a b : list Z) : comparison :=
  match a, b with
  | [], [] => Eq
  | [], _ :: _ => Lt
  | _ :: _, [] => Gt
  | x :: a', y :: b' =>
      match x ?= y with
      | Eq => cmp_tuple a' b'
      | c => c
      end
  end.

Definition cmp (a b : datetime) : comparison := cmp_tuple (fields a) (fields b).

Definition ltb (a b : datetime) : bool :=
  match cmp a b with Lt => true | _ => false end.
Definition geb (a b : datetime) : bool := negb (ltb a b).
Definition leb (a b : datetime) : bool := negb (ltb b a).

Definition toordinal (d : datetime) : Z := ymd2ord (year d) (month d) (day d).

Definition weekday (d : datetime) : Z := (toordinal d + 6) mod 7.

Definition US_PER_DAY : Z := 86400000000.

(** Microseconds since the start of ordinal day 0: the value that
    [datetime.__add__] builds as a [timedelta] before it adds. *)
Definition to_us (d : datetime) : Z :=
  (((toordinal d * 24 + hour d) * 60 + minute d) * 60 + second d) * 1000000
  + microsecond d.

Definition of_us (t : Z) : datetime :=
  let days := t / US_PER_DAY in
  let rem := t mod US_PER_DAY in
  let secs := rem / 1000000 in
  let us := rem mod 1000000 in
  let h := secs / 3600 in
  let rem := secs mod 3600 in
  let '(y, mo, d) := ord2ymd days in
  mk y mo d h (rem / 60) (rem mod 60) us.

(** [dt + timedelta(microseconds = delta)]: the sum is normalised into
    days, seconds and microseconds; a day count outside
    [1 .. MAXORDINAL] raises [OverflowError].  ([timedelta]'s own limit
    of 999999999 days raises the same exception and always implies a day
    count outside that range.) *)
Definition add_us (d : datetime) (delta : Z) : result datetime :=
  let t := to_us d + delta in
  let days := t / US_PER_DAY in
  if (0 <? days) && (days <=? MAXORDINAL) then Ok (of_us t)
  else Raise OverflowError.

End Datetime.


(** ** [dateutil.relativedelta], built from one keyword argument

    [process_card] calls the constructor with a dictionary of keyword
    arguments that holds the single entry [card.period_type: card.period_len]:
    one keyword, and one integer or, when [int] refused the digits of the
    notes, one [str].  [dateutil] is a dependency of the program;
    the model follows its [relativedelta.__init__], [_fix], [__radd__],
    [__neg__] and [__rsub__].  The record keeps the relative fields, the
    absolute fields ([None] when not given) and the weekday. *)

Module Relativedelta.
Import Calendar Datetime.

Record relativedelta : Type := mkrd {
  years : Z; months : Z; days : Z; leapdays : Z;
  hours : Z; minutes : Z; seconds : Z; microseconds : Z;
  abs_year : option Z; abs_month : option Z; abs_day : option Z;
  abs_weekday : option Z;
  abs_hour : option Z; abs_minute : option Z; abs_second : option Z;
  abs_microsecond : option Z }.

Definition zero : relativedelta :=
  mkrd 0 0 0 0 0 0 0 0 None None None None None None None None.

(** [div, mod = divmod(x * s, base); x = mod * s; carry = div * s] with
    [s] the sign of [x], done only when [abs(x) > base - 1]. *)
Definition carry (x base : Z) : Z * Z :=
  if Z.abs x >? base - 1 then
    let s := Z.sgn x in
    (((x * s) mod base) * s, ((x * s) / base) * s)
  else (x, 0).

Definition fix_ (r : relativedelta) : relativedelta :=
  let '(us, c) := carry (microseconds r) 1000000 in
  let '(s, c) := carry (seconds r + c) 60 in
  let '(mi, c) := carry (minutes r + c) 60 in
  let '(h, c) := carry (hours r + c) 24 in
  let d := days r + c in
  let '(mo, c) := carry (months r) 12 in
  let y := years r + c in
  mkrd y mo d (leapdays r) h mi s us
       (abs_year r) (abs_month r) (abs_day r) (abs_weekday r)
       (abs_hour r) (abs_minute r) (abs_second r) (abs_microsecond r).

Definition ydayidx : list Z :=
  [31; 59; 90; 120; 151; 181; 212; 243; 273; 304; 334; 366].

(** The [for idx, ydays in enumerate(ydayidx)] search of the constructor:
    the month and day of a day-of-year number, [None] when the loop ends
    without a [break]. *)
Fixpoint yday_lookup (yday : Z) (i : Z) (prev : Z) (table : list Z)
  : option (Z * Z) :=
  match table with
  | [] => None
  | ydays :: rest =>
      if yday <=? ydays
      then Some (i + 1, if i =? 0 then yday else yday - prev)
      else yday_lookup yday (i + 1) ydays rest
  end.

Definition with_yday (r : relativedelta) (yday : Z) : result relativedelta :=
  if yday =? 0 then Ok (fix_ r)
  else match yday_lookup yday 0 0 ydayidx with
       | Some (m, d) =>
           Ok (fix_ (mkrd (years r) (months r) (days r) (leapdays r)
                          (hours r) (minutes r) (seconds r) (microseconds r)
                          (abs_year r) (Some m) (Some d) (abs_weekday r)
                          (abs_hour r) (abs_minute r) (abs_second r)
                          (abs_microsecond r)))
       | None => Raise ValueError
       end.

(** The constructor called with the single keyword [kw] bound to [v].  A
    name that is not a parameter of the constructor is a [TypeError]. *)
Definition relativedelta_kw (kw : string) (v : Z) : result relativedelta :=
  let rel y mo d ld h mi s us :=
    Ok (fix_ (mkrd y mo d ld h mi s us
                   None None None None None None None None)) in
  let absolute y mo d h mi s us :=
    Ok (fix_ (mkrd 0 0 0 0 0 0 0 0 y mo d None h mi s us)) in
  if String.eqb kw "years" then rel v 0 0 0 0 0 0 0
  else if String.eqb kw "months" then rel 0 v 0 0 0 0 0 0
  else if String.eqb kw "days" then rel 0 0 v 0 0 0 0 0
  else if String.eqb kw "leapdays" then rel 0 0 0 v 0 0 0 0
  else if String.eqb kw "weeks" then rel 0 0 (0 + v * 7) 0 0 0 0 0
  else if String.eqb kw "hours" then rel 0 0 0 0 v 0 0 0
  else if String.eqb kw "minutes" then rel 0 0 0 0 0 v 0 0
  else if String.eqb kw "seconds" then rel 0 0 0 0 0 0 v 0
  else if String.eqb kw "microseconds" then rel 0 0 0 0 0 0 0 v
  else if String.eqb kw "year" then
    absolute (Some v) None None None None None None
  else if String.eqb kw "month" then
    absolute None (Some v) None None None None None
  else if String.eqb kw "day" then
    absolute None None (Some v) None None None None
  else if String.eqb kw "hour" then
    absolute None None None (Some v) None None None
  else if String.eqb kw "minute" then
    absolute None None None None (Some v) None None
  else if String.eqb kw "second" then
    absolute None None None None None (Some v) None
  else if String.eqb kw "microsecond" then
    absolute None None None None None None (Some v)
  else if String.eqb kw "weekday" then
    (* weekdays[v]: a 7-tuple, negative indices count from the end *)
    if (-7 <=? v) && (v <=? 6)
    then Ok (fix_ (mkrd 0 0 0 0 0 0 0 0 None None None (Some (v mod 7))
                        None None None None))
    else Raise IndexError
  else if String.eqb kw "nlyearday" then with_yday zero v
  else if String.eqb kw "yearday" then
    with_yday (mkrd 0 0 0 (if 59 <? v then -1 else 0) 0 0 0 0
                    None None None None None None None None) v
  else if String.eqb kw "dt1" || String.eqb kw "dt2" then
    (* [if dt1 and dt2] is false with one of them missing *)
    Ok (fix_ zero)
  else Raise TypeError.

(** [a or b] on an optional integer: [None] and [0] are falsy. *)
Definition or_else (a : option Z) (b : Z) : Z :=
  match a with
  | Some x => if x =? 0 then b else x
  | None => b
  end.

(** [value if value is not None else current] *)
Definition given (a : option Z) (b : Z) : Z :=
  match a with Some x => x | None => b end.

Definition timedelta_us (d h mi s us : Z) : Z :=
  (((d * 24 + h) * 60 + mi) * 60 + s) * 1000000 + us.

(** [relativedelta.__radd__]: [other + rd] for a datetime [other]. *)
Definition radd (other : datetime) (rd : relativedelta) : result datetime :=
  let year := or_else (abs_year rd) (Datetime.year other) + years rd in
  let month := or_else (abs_month rd) (Datetime.month other) in
  if negb (months rd =? 0)
     && negb ((1 <=? Z.abs (months rd)) && (Z.abs (months rd) <=? 12))
  then Raise AssertionError
  else
    let '(year, month) :=
      if months rd =? 0 then (year, month)
      else
        let month := month + months rd in
        if 12 <? month then (year + 1, month - 12)
        else if month <? 1 then (year - 1, month + 12)
        else (year, month) in
    if negb ((1 <=? month) && (month <=? 12))
    then Raise ValueError            (* calendar.IllegalMonthError *)
    else
      let day := Z.min (days_in_month year month)
                       (or_else (abs_day rd) (Datetime.day other)) in
      let days :=
        if negb (leapdays rd =? 0) && (2 <? month) && is_leap year
        then days rd + leapdays rd else days rd in
      match Datetime.make year month day
                          (given (abs_hour rd) (hour other))
                          (given (abs_minute rd) (minute other))
                          (given (abs_second rd) (second other))
                          (given (abs_microsecond rd) (microsecond other)) with
      | Raise e => Raise e
      | Ok replaced =>
          match add_us replaced
                       (timedelta_us days (hours rd) (minutes rd)
                                     (seconds rd) (microseconds rd)) with
          | Raise e => Raise e
          | Ok ret =>
              match abs_weekday rd with
              | None => Ok ret
              | Some wd =>
                  add_us ret (((7 - weekday ret + wd) mod 7) * US_PER_DAY)
              end
          end
      end.

(** [other + delta], where [delta] is built from the single keyword [kw]
    bound to a [str] of digits that [int] refuses for its length, the
    only [str] the filter leaves in [period_len].  The constructor
    rejects it where it converts the value ([ValueError] from [int]) or
    computes with it ([TypeError]); [leapdays], [weekday], [dt1] and
    [dt2] are stored as they are, and the sum then fails where it uses
    them, or is [other] again. *)
Definition radd_str (kw : string) (other : datetime) : result datetime :=
  let among (names : list string) := existsb (String.eqb kw) names in
  if among ["years"; "months"] then Raise ValueError
  else if among ["days"; "weeks"; "hours"; "minutes"; "seconds";
                 "microseconds"; "yearday"; "nlyearday"]
  then Raise TypeError
  else if among ["year"; "month"; "day"; "hour"; "minute"; "second";
                 "microsecond"]
  then Raise ValueError
  else if among ["leapdays"] then
    if (2 <? Datetime.month other) && is_leap (Datetime.year other)
    then Raise TypeError
    else radd other (fix_ zero)
  else if among ["weekday"] then
    match radd other (fix_ zero) with
    | Ok _ => Raise AttributeError
    | Raise e => Raise e
    end
  else if among ["dt1"; "dt2"] then radd other (fix_ zero)
  else Raise TypeError.

(** [relativedelta.__neg__], and [dt - rd] as [__rsub__] computes it. *)
Definition neg (r : relativedelta) : relativedelta :=
  fix_ (mkrd (- years r) (- months r) (- days r) (leapdays r)
             (- hours r) (- minutes r) (- seconds r) (- microseconds r)
             (abs_year r) (abs_month r) (abs_day r) (abs_weekday r)
             (abs_hour r) (abs_minute r) (abs_second r) (abs_microsecond r)).

Definition rsub (other : datetime) (rd : relativedelta) : result datetime :=
  radd other (neg rd).

End Relativedelta.

(** ** Text: [re.match] on the notes, [int], [strptime] and [strftime]

    The pattern of the notes, [(\d+) (\w+)], and the pattern [strptime]
    builds from [dateformat] are compiled without [re.ASCII]: [\d] is any
    decimal digit and [\w] any alphanumeric character or the underscore,
    of any script, and [int] reads the digits of any script.  Classes
    written out in a pattern, such as [[0-5]], hold the ASCII digits
    only. *)

Module Text.
Import Datetime.

(** *** Characters

    A character is a leading byte and the continuation bytes after it.
    [chars] cuts a text into its characters; [code_point] decodes one,
    and is [-1] on bytes that encode no character. *)

Definition byte (c : ascii) : Z := Z.of_N (N_of_ascii c).

Definition continuation (c : ascii) : bool :=
  (128 <=? byte c) && (byte c <? 192).

Definition begins_with_continuation (s : string) : bool :=
  match s with
  | String c _ => continuation c
  | EmptyString => false
  end.

Fixpoint chars (s : string) : list string :=
  match s with
  | EmptyString => []
  | String c rest =>
      match chars rest with
      | ch :: others =>
          if begins_with_continuation ch then String c ch :: others
          else String c EmptyString :: ch :: others
      | [] => [String c EmptyString]
      end
  end.

(** The text of a sequence of characters. *)
Definition join (l : list string) : string :=
  fold_right append EmptyString l.

Definition low_bits (c : ascii) : Z := byte c - 128.

Definition code_point (ch : string) : Z :=
  match ch with
  | String a EmptyString => if byte a <? 128 then byte a else -1
  | String a (String b EmptyString) =>
      let cp := (byte a - 192) * 64 + low_bits b in
      if (192 <=? byte a) && (byte a <? 224) && continuation b
         && (128 <=? cp)
      then cp else -1
  | String a (String b (String c EmptyString)) =>
      let cp := ((byte a - 224) * 64 + low_bits b) * 64 + low_bits c in
      if (224 <=? byte a) && (byte a <? 240) && continuation b
         && continuation c && (2048 <=? cp)
      then cp else -1
  | String a (String b (String c (String d EmptyString))) =>
      let cp := (((byte a - 240) * 64 + low_bits b) * 64 + low_bits c) * 64
                + low_bits d in
      if (240 <=? byte a) && (byte a <? 248) && continuation b
         && continuation c && continuation d
         && (65536 <=? cp) && (cp <? 1114112)
      then cp else -1
  | _ => -1
  end.

(** The longest prefix of characters of a class, and what follows it. *)
Fixpoint span (p : string -> bool) (l : list string)
  : list string * list string :=
  match l with
  | [] => ([], [])
  | ch :: rest =>
      if p ch then let '(a, b) := span p rest in (ch :: a, b)
      else ([], l)
  end.

(** An ASCII digit between two bounds: the classes [[1-9]], [[0-5]], ...
    of the patterns. *)
Definition between (lo hi : Z) (ch : string) : bool :=
  let cp := code_point ch in (48 + lo <=? cp) && (cp <=? 48 + hi).

Definition is_space (ch : string) : bool := String.eqb ch " ".

(** A literal character of the format; the pattern is compiled with
    [IGNORECASE], and no character outside ASCII has a letter of the
    format as its lower case. *)
Definition lit (c : ascii) (l : list string) : option (list string) :=
  match l with
  | String x EmptyString :: rest =>
      let lower (a : ascii) :=
        let n := N_of_ascii a in
        if ((65 <=? n) && (n <=? 90))%N then ascii_of_N (n + 32) else a in
      if Ascii.eqb (lower x) (lower c) then Some rest else None
  | _ => None
  end.

Definition bind_opt {A B} (o : option A) (f : A -> option B) : option B :=
  match o with Some a => f a | None => None end.

Notation "'let?' x ':=' e 'in' k" := (bind_opt e (fun x => k))
  (at level 10, x pattern, e at level 200, k at level 200).

Definition dateformat : string := "%Y-%m-%dT%H:%M:%S.000Z".

(** The character of a decimal digit. *)
Definition digit_char (n : Z) : ascii := ascii_of_N (Z.to_N (48 + n)).

(** A number below 100 on two digits, one below 10000 on four, and one
    below 1000 on as many digits as it has. *)
Definition pad2 (n : Z) : string :=
  String (digit_char (n / 10)) (String (digit_char (n mod 10)) EmptyString).

Definition pad4 (n : Z) : string :=
  String (digit_char (n / 1000))
    (String (digit_char (n / 100 mod 10))
       (String (digit_char (n / 10 mod 10))
          (String (digit_char (n mod 10)) EmptyString))).

Definition unpadded (n : Z) : string :=
  if n <? 10 then String (digit_char n) EmptyString
  else if n <? 100 then pad2 n
  else String (digit_char (n / 100)) (pad2 (n mod 100)).

Section Classes.
Context {rt : Runtime}.

(** [\d] *)
Definition is_digit (ch : string) : bool :=
  let cp := code_point ch in
  if cp <? 128 then (48 <=? cp) && (cp <=? 57) else 0 <=? todecimal cp.

(** [\w] *)
Definition is_word (ch : string) : bool :=
  let cp := code_point ch in
  if cp <? 128 then
    ((48 <=? cp) && (cp <=? 57)) || ((65 <=? cp) && (cp <=? 90))
    || ((97 <=? cp) && (cp <=? 122)) || (cp =? 95)
  else isalnum cp || (0 <=? todecimal cp).

(** The value [int] gives a digit; a character that is no digit (the
    space that [%d] admits before a single digit) adds nothing. *)
Definition digit_val (ch : string) : Z :=
  let cp := code_point ch in
  if is_digit ch then (if cp <? 128 then cp - 48 else todecimal cp) else 0.

Definition int_digits (digits : list string) : Z :=
  fold_left (fun acc ch => acc * 10 + digit_val ch) digits 0.

(** [int(s)] for a [str] of decimal digits.  A string of more digits than
    the limit allows, when there is a limit, is a [ValueError]; the limit
    is not looked at for 640 digits or fewer. *)
Definition to_int (s : string) : result Z :=
  let digits := chars s in
  let n := Z.of_nat (List.length digits) in
  if (640 <? n) && (0 <? int_max_str_digits) && (int_max_str_digits <? n)
  then Raise ValueError
  else Ok (int_digits digits).

(** [re.match(r"(\d+) (\w+)", desc).group(1, 2)]: [None] when there is no
    match at the start of [desc].  Both groups are greedy, and giving back
    a digit never helps since a space must follow the digits. *)
Definition match_period (desc : string) : option (string * string) :=
  let '(digits, rest) := span is_digit (chars desc) in
  match digits, rest with
  | _ :: _, sp :: rest' =>
      if is_space sp then
        let '(word, _) := span is_word rest' in
        match word with
        | _ :: _ => Some (join digits, join word)
        | [] => None
        end
      else None
  | _, _ => None
  end.

(** A numeric directive that takes two characters when a two-character
    alternative of its pattern matches and one character otherwise.  The
    directive is always followed by a literal that is not a digit, so the
    order of the alternatives cannot change the outcome. *)
Definition directive (two : string -> string -> bool) (one : string -> bool)
  (l : list string) : option (Z * list string) :=
  match l with
  | a :: b :: rest =>
      if two a b then Some (digit_val a * 10 + digit_val b, rest)
      else if one a then Some (digit_val a, b :: rest) else None
  | [a] => if one a then Some (digit_val a, []) else None
  | [] => None
  end.

(** [%Y]: \d\d\d\d *)
Definition dir_Y (l : list string) : option (Z * list string) :=
  match l with
  | a :: b :: c :: d :: rest =>
      if is_digit a && is_digit b && is_digit c && is_digit d
      then Some (int_digits [a; b; c; d], rest)
      else None
  | _ => None
  end.

(** [%m]: 1[0-2] | 0[1-9] | [1-9] *)
Definition dir_m : list string -> option (Z * list string) :=
  directive (fun a b => (between 1 1 a && between 0 2 b)
                        || (between 0 0 a && between 1 9 b))
            (between 1 9).

(** [%d]: 3[0-1] | [1-2]\d | 0[1-9] | [1-9] | space [1-9] *)
Definition dir_d : list string -> option (Z * list string) :=
  directive (fun a b => (between 3 3 a && between 0 1 b)
                        || (between 1 2 a && is_digit b)
                        || (between 0 0 a && between 1 9 b)
                        || (is_space a && between 1 9 b))
            (between 1 9).

(** [%H]: 2[0-3] | [0-1]\d | \d *)
Definition dir_H : list string -> option (Z * list string) :=
  directive (fun a b => (between 2 2 a && between 0 3 b)
                        || (between 0 1 a && is_digit b))
            is_digit.

(** [%M]: [0-5]\d | \d *)
Definition dir_M : list string -> option (Z * list string) :=
  directive (fun a b => between 0 5 a && is_digit b) is_digit.

(** [%S]: 6[0-1] | [0-5]\d | \d *)
Definition dir_S : list string -> option (Z * list string) :=
  directive (fun a b => (between 6 6 a && between 0 1 b)
                        || (between 0 5 a && is_digit b))
            is_digit.

(** The seven fields read by the pattern of [dateformat]; the whole string
    must be consumed. *)
Definition scan_dateformat (s : string) : option (Z * Z * Z * Z * Z * Z) :=
  let? (y, l) := dir_Y (chars s) in
  let? l := lit "-" l in
  let? (mo, l) := dir_m l in
  let? l := lit "-" l in
  let? (d, l) := dir_d l in
  let? l := lit "T" l in
  let? (h, l) := dir_H l in
  let? l := lit ":" l in
  let? (mi, l) := dir_M l in
  let? l := lit ":" l in
  let? (sec, l) := dir_S l in
  let? l := lit "." l in
  let? l := lit "0" l in
  let? l := lit "0" l in
  let? l := lit "0" l in
  let? l := lit "Z" l in
  match l with
  | [] => Some (y, mo, d, h, mi, sec)
  | _ => None
  end.

(** [datetime.datetime.strptime(due, dateformat)], where [due] is the JSON
    value of the card's field: a string, or [None] for [null]. *)
Definition strptime (due : option string) : result datetime :=
  match due with
  | None => Raise TypeError
  | Some s =>
      match scan_dateformat s with
      | None => Raise ValueError
      | Some (y, mo, d, h, mi, sec) => Datetime.make y mo d h mi sec 0
      end
  end.

(** [%Y] as [strftime] writes it. *)
Definition format_year (y : Z) : string :=
  if (1000 <=? y) || pads_year then pad4 y else unpadded y.

(** [due.strftime(dateformat)], as [process_card] writes the new due date
    into its request: the microseconds are not written. *)
Definition strftime (d : datetime) : string :=
  (format_year (year d) ++ "-" ++ pad2 (month d) ++ "-" ++ pad2 (day d) ++ "T"
   ++ pad2 (hour d) ++ ":" ++ pad2 (minute d) ++ ":" ++ pad2 (second d)
   ++ ".000Z")%string.

End Classes.

End Text.

(** ** The board service boundary and the run's effects *)

Import Datetime.

(** One label of a card: [label.get("name", "")] is compared with a
    string, so a missing or [null] name is kept as [None]. *)
Record label : Type := { label_name : option string }.

(** A raw task record of [get_cards]: [card["name"]], [card["id"]],
    [card["due"]] ([None] for [null]), [card["desc"]] and
    [card.get("labels", [])]. *)
Record raw_card : Type := {
  rc_name : string; rc_id : string; rc_due : option string;
  rc_desc : string; rc_labels : list label }.

(** A raw list record of [get_lists]: [l["name"]] and [l["id"]].

    The model starts from answers of this shape: a list of objects that
    hold these keys with strings.  An answer of another shape is not
    modelled; on one the comprehensions of [get_lists] and of the two
    phases, which stand outside every [try], raise [TypeError] or
    [KeyError]. *)
Record raw_list : Type := { rl_name : string; rl_id : string }.

(** The two [PUT] requests of the program, by their query parameters:
    [cards/{id}?dueComplete=false&due={due}&idList={list}], where [due]
    is the text that [strftime] wrote, and [cards/{id}?pos=bottom]. *)
Inductive put : Type :=
| PutDue (card_id : string) (due : string) (idList : string)
| PutBottom (card_id : string).

Inductive level : Type := INFO | ERROR | CRITICAL.

(** What a run leaves behind: the requests sent and the log lines (a
    level and the fixed text the message begins with), oldest first. *)
Record world : Type := { puts : list put; log : list (level * string) }.

Definition empty_world : world := {| puts := []; log := [] |}.

(** The board service as the program sees it.  An answer may depend on the
    requests sent so far; [None] stands for a call that raises. *)
Record Requester : Type := {
  lists_response : option (list raw_list);
  cards_response : list put -> string -> option (list raw_card);
  put_raises : list put -> put -> bool }.

(** A computation either returns, raises, or is still running when the
    fuel of a [while] loop is spent. *)
Inductive res (A : Type) : Type :=
| Val (a : A)
| Exc (e : exn)
| Hang.
Arguments Val {A} a.
Arguments Exc {A} e.
Arguments Hang {A}.

Definition M (A : Type) : Type := world -> res A * world.

Definition ret {A} (a : A) : M A := fun w => (Val a, w).

Definition bind {A B} (m : M A) (f : A -> M B) : M B :=
  fun w =>
    match m w with
    | (Val a, w') => f a w'
    | (Exc e, w') => (Exc e, w')
    | (Hang, w') => (Hang, w')
    end.

Definition raise {A} (e : exn) : M A := fun w => (Exc e, w).

Notation "x <- m ;; k" := (bind m (fun x => k))
  (at level 61, m at next level, right associativity).
Notation "m ;; k" := (bind m (fun _ => k))
  (at level 61, right associativity).

Definition logger (lv : level) (msg : string) : M unit :=
  fun w => (Val tt, {| puts := puts w; log := log w ++ [(lv, msg)] |}).

(** [try: m  except Exception as e: handler] *)
Definition try_except {A} (m : M A) (handler : exn -> M A) : M A :=
  fun w =>
    match m w with
    | (Exc e, w') => handler e w'
    | r => r
    end.

(** [for x in l: body], with the locals the body updates passed along. *)
Fixpoint for_state {A S} (l : list A) (body : A -> S -> M S) (s : S) : M S :=
  match l with
  | [] => ret s
  | x :: rest => s' <- body x s ;; for_state rest body s'
  end.

(** [for x in l: body] *)
Definition for_each {A} (l : list A) (body : A -> M unit) : M unit :=
  for_state l (fun x _ => body x) tt.

Definition of_result {A} (r : result A) : M A :=
  match r with Ok a => ret a | Raise e => raise e end.

(** [Requester.trello_put]: the request is sent, and may raise. *)
Definition trello_put (req : Requester) (p : put) : M unit :=
  fun w =>
    let w' := {| puts := puts w ++ [p]; log := log w |} in
    if put_raises req (puts w) p then (Exc RequestError, w') else (Val tt, w').

(** ** The program *)

Section Program.
Context {rt : Runtime}.

Definition list_names : list string :=
  [ "Понедельник";
    "Вторник";
    "Среда";
    "Четверг";
    "Пятница";
    "Суббота";
    "Воскресенье" ].

Record List : Type := { list_name : string; list_identifier : string }.

(** The value of [period_len]: the [int] of the digits of the notes, or
    the digits themselves, a [str], when [int] refused them. *)
Inductive period_value : Type :=
| PInt (n : Z)
| PStr (s : string).

Record Card : Type := {
  name : string;
  identifier : string;
  due : datetime;
  period_len : period_value;
  period_type : string }.

Record CardToSort : Type := {
  sort_name : string;
  sort_identifier : string;
  sort_due : datetime }.

Definition in_names (s : string) (names : list string) : bool :=
  existsb (String.eqb s) names.

Definition get_lists (req : Requester) : M (list List) :=
  match lists_response req with
  | None => logger CRITICAL "Can't get lists" ;; ret []
  | Some lists_response =>
      let lists :=
        map (fun l => {| list_name := rl_name l; list_identifier := rl_id l |})
            (filter (fun l => in_names (rl_name l) list_names) lists_response) in
      logger INFO "Received lists" ;;
      (if negb (List.length list_names =? List.length lists)%nat
       then logger ERROR "Not all necessary lists were received"
       else ret tt) ;;
      ret lists
  end.

Definition get_cards (req : Requester) (l : List) : M (list raw_card) :=
  fun w =>
    match cards_response req (puts w) (list_identifier l) with
    | None => (logger CRITICAL "Failed to receive cards for list" ;; ret []) w
    | Some cards => (logger INFO "cards found" ;; ret cards) w
    end.

Definition is_regular (card : raw_card) : bool :=
  existsb (fun lb => match label_name lb with
                     | Some n => String.eqb n "Regular"
                     | None => false
                     end)
          (rc_labels card).

(** The locals of [filter_out_cards] that live across iterations:
    [period_len] and [period_type], assigned together by the tuple
    assignment ([None] until the first assignment), and the list
    [cards_to_process]. *)
Definition filter_state : Type :=
  (option (period_value * string) * list Card)%type.

(** The two statements of the second [try] block once the pattern has
    matched: the tuple assignment binds both names to the groups, then
    [period_len] is rebound to its [int]; when [int] raises, [period_len]
    keeps the digits. *)
Definition assign_period (len type : string) : M (period_value * string) :=
  match Text.to_int len with
  | Ok n => ret (PInt n, type)
  | Raise _ =>
      logger ERROR "Can't parse period from description" ;;
      ret (PStr len, type)
  end.

(** The body of the [for] loop of [filter_out_cards]; [continue] returns
    the state unchanged. *)
Definition filter_body (current_time : datetime) (card : raw_card)
  (st : filter_state) : M filter_state :=
  let '(period, cards_to_process) := st in
  logger INFO "Check card" ;;
  if negb (is_regular card) then
    logger INFO "Filtered out, because is not regular" ;; ret st
  else
    match Text.strptime (rc_due card) with
    | Raise _ => logger ERROR "Can't parse due date" ;; ret st
    | Ok due =>
        if geb due current_time then
          logger INFO "Filtered out, because of due date" ;; ret st
        else
          period <-
            match Text.match_period (rc_desc card) with
            | Some (len, type) =>
                p <- assign_period len type ;; ret (Some p)
            | None =>
                logger ERROR "Can't parse period from description" ;;
                ret period
            end ;;
          match period with
          | None => raise NameError
          | Some (period_len, period_type) =>
              ret (period,
                   (cards_to_process
                    ++ [ {| name := rc_name card; identifier := rc_id card;
                            due := due; period_len := period_len;
                            period_type := period_type |} ])%list)
          end
    end.

Definition filter_out_cards (current_time : datetime) (cards : list raw_card)
  : M (list Card) :=
  st <- for_state cards (filter_body current_time) (None, []) ;;
  ret (snd st).

(** The body of the loop of [process_card]: the delta is built from the
    card's rule, then added to [due]. *)
Definition add_period (card : Card) (due : datetime) : result datetime :=
  match period_len card with
  | PInt n =>
      match Relativedelta.relativedelta_kw (period_type card) n with
      | Raise e => Raise e
      | Ok delta => Relativedelta.radd due delta
      end
  | PStr _ => Relativedelta.radd_str (period_type card) due
  end.

(** The [while due < current_time] loop of [process_card].  One unit of
    fuel pays for one run of the body; [Hang] means the condition still
    holds when the fuel is spent. *)
Fixpoint advance (fuel : nat) (current_time : datetime) (card : Card)
  (due : datetime) : res datetime :=
  if ltb due current_time then
    match fuel with
    | O => Hang
    | S fuel' =>
        match add_period card due with
        | Raise e => Exc e
        | Ok due' => advance fuel' current_time card due'
        end
    end
  else Val due.

Definition pure {A} (r : res A) : M A := fun w => (r, w).

(** [list_names[due.weekday()]], then the [for l in lists ... else] search
    for the list of that name. *)
Definition target_list (due : datetime) (lists : list List)
  : result (option string) :=
  match nth_error list_names (Z.to_nat (weekday due)) with
  | None => Raise IndexError
  | Some wanted =>
      Ok (option_map list_identifier
            (find (fun l => String.eqb (list_name l) wanted) lists))
  end.

(** [process_card]; each of the three [try] blocks ends the function with
    a logged error when it fails ([None] below is that early [return]). *)
Definition process_card (fuel : nat) (req : Requester)
  (current_time : datetime) (card : Card) (lists : list List) : M unit :=
  new_due <-
    try_except
      (d <- pure (advance fuel current_time card (due card)) ;; ret (Some d))
      (fun _ =>
         logger ERROR "Failed to calculate a new due date for card" ;;
         ret None) ;;
  match new_due with
  | None => ret tt
  | Some due =>
      list_id <-
        try_except
          (found <- of_result (target_list due lists) ;;
           match found with
           | Some id => ret (Some id)
           | None =>
               logger ERROR "Can't find a target list for card" ;; ret None
           end)
          (fun _ =>
             logger ERROR "Failed to find a target list id for a card" ;;
             ret None) ;;
      match list_id with
      | None => ret tt
      | Some list_id =>
          sent <-
            try_except
              (trello_put req
                 (PutDue (identifier card) (Text.strftime due) list_id) ;;
               ret true)
              (fun _ =>
                 logger ERROR "Failed to update due date for card" ;;
                 ret false) ;;
          if sent then logger INFO "Due date for card updated" else ret tt
      end
  end.

(** The list comprehension of [construct_cards_to_order]: the first
    [strptime] that raises ends it. *)
Fixpoint construct_cards_to_order (cards : list raw_card)
  : result (list CardToSort) :=
  match cards with
  | [] => Ok []
  | card :: rest =>
      match Text.strptime (rc_due card) with
      | Raise e => Raise e
      | Ok due =>
          match construct_cards_to_order rest with
          | Raise e => Raise e
          | Ok tail =>
              Ok ({| sort_name := rc_name card; sort_identifier := rc_id card;
                     sort_due := due |} :: tail)
          end
      end
  end.

(** [sorted(cards, key=...)]: Python's sort is stable and compares keys
    with [<] only.  It is modelled by the stable insertion sort: an
    element moves past exactly the elements whose key is strictly greater. *)
Fixpoint insert_by {A} (key : A -> datetime) (x : A) (l : list A) : list A :=
  match l with
  | [] => [x]
  | y :: rest =>
      if ltb (key y) (key x) then y :: insert_by key x rest
      else x :: y :: rest
  end.

Fixpoint sorted {A} (key : A -> datetime) (l : list A) : list A :=
  match l with
  | [] => []
  | x :: rest => insert_by key x (sorted key rest)
  end.

Definition sort_cards (cards : list CardToSort) : list CardToSort :=
  sorted sort_due cards.

Definition set_card_order (req : Requester) (card : CardToSort) : M unit :=
  try_except
    (trello_put req (PutBottom (sort_identifier card)))
    (fun _ => logger ERROR "Failed to push back card").

(** The body of the first loop of [main], for one list. *)
Definition update_due_dates (fuel : nat) (req : Requester)
  (current_time : datetime) (lists : list List) (l : List) : M unit :=
  logger INFO "Start to process list" ;;
  raw <- get_cards req l ;;
  cards <- filter_out_cards current_time raw ;;
  for_each cards (fun card =>
    logger INFO "Start to process card" ;;
    process_card fuel req current_time card lists).

(** The body of the second loop of [main], for one list. *)
Definition order_cards (req : Requester) (l : List) : M unit :=
  logger INFO "Start to process list" ;;
  raw <- get_cards req l ;;
  cards <- of_result (construct_cards_to_order raw) ;;
  logger INFO "Cards received and constructed" ;;
  let cards := sort_cards cards in
  logger INFO "Cards sorted" ;;
  for_each cards (set_card_order req) ;;
  logger INFO "Card order set".

(** [main], from the requester it has built.  [current_time] is the
    module-level constant read once at start-up. *)
Definition main (fuel : nat) (req : Requester) (current_time : datetime)
  : M unit :=
  lists <- get_lists req ;;
  logger INFO "Started to update due dates" ;;
  for_each lists (update_due_dates fuel req current_time lists) ;;
  logger INFO "Start to sort cards" ;;
  for_each lists (order_cards req).

(** ** Vocabulary of the properties *)

(** *** The filter *)

(** The due date of a raw card that gets as far as the recurrence parse in
    [filter_out_cards]: it carries the label, its due date parses and lies
    before [current_time]. *)
Definition reaches_parse (current_time : datetime) (card : raw_card)
  : option datetime :=
  if is_regular card then
    match Text.strptime (rc_due card) with
    | Ok due => if ltb due current_time then Some due else None
    | Raise _ => None
    end
  else None.

(** What the two groups of a match leave in [period_len] and
    [period_type]. *)
Definition period_of (len type : string) : period_value * string :=
  (match Text.to_int len with Ok n => PInt n | Raise _ => PStr len end, type).

(** What such a card leaves in [period_len] and [period_type] when its
    notes match the pattern. *)
Definition parsed_period (current_time : datetime) (card : raw_card)
  : option (period_value * string) :=
  match reaches_parse current_time card, Text.match_period (rc_desc card) with
  | Some _, Some (len, type) => Some (period_of len type)
  | _, _ => None
  end.

(** What the last card of a batch whose notes matched the pattern left
    there. *)
Definition last_parsed (current_time : datetime) (cards : list raw_card)
  : option (period_value * string) :=
  fold_left (fun acc card =>
               match parsed_period current_time card with
               | Some p => Some p
               | None => acc
               end)
            cards None.

(** The card that [filter_out_cards] appends for a raw card, given its
    parsed due date and the values of [period_len] and [period_type]. *)
Definition make_card (card : raw_card) (d : datetime)
  (p : period_value * string) : Card :=
  {| name := rc_name card; identifier := rc_id card; due := d;
     period_len := fst p; period_type := snd p |}.

(** What the filter keeps of a card, apart from its recurrence rule. *)
Definition view (c : Card) : string * string * datetime :=
  (name c, identifier c, due c).

(** The cards of a batch that reach the recurrence parse, in input order. *)
Fixpoint eligible_view (current_time : datetime) (cards : list raw_card)
  : list (string * string * datetime) :=
  match cards with
  | [] => []
  | card :: rest =>
      match reaches_parse current_time card with
      | Some d => (rc_name card, rc_id card, d) :: eligible_view current_time rest
      | None => eligible_view current_time rest
      end
  end.

(** *** The router *)

(** The canonical name of the weekday of a timestamp. *)
Definition weekday_name (due : datetime) : string :=
  nth (Z.to_nat (weekday due)) list_names "".

(** *** Timestamps and deltas *)

(** Equality of timestamps, as the comparison decides it. *)
Definition dt_eqb (a b : datetime) : bool :=
  match cmp a b with Eq => true | _ => false end.

(** The microsecond counts of the timestamps [datetime] can hold. *)
Definition in_range (t : Z) : Prop :=
  US_PER_DAY <= t < (Calendar.MAXORDINAL + 1) * US_PER_DAY.

(** The position of a timestamp's month on the line of all months. *)
Definition month_index (d : datetime) : Z := 12 * year d + (month d - 1).

(** The length in microseconds of the units of fixed length. *)
Definition unit_us (unit : string) : option Z :=
  if String.eqb unit "weeks" then Some 604800000000
  else if String.eqb unit "days" then Some 86400000000
  else if String.eqb unit "hours" then Some 3600000000
  else if String.eqb unit "minutes" then Some 60000000
  else if String.eqb unit "seconds" then Some 1000000
  else if String.eqb unit "microseconds" then Some 1
  else None.

(** The length in months of the calendar units. *)
Definition unit_months (unit : string) : option Z :=
  if String.eqb unit "years" then Some 12
  else if String.eqb unit "months" then Some 1
  else None.

(** A timestamp moved by a number of months, the day clipped to the length
    of the month it lands in: what one addition of months or years
    amounts to. *)
Definition add_months (d : datetime) (n : Z) : result datetime :=
  let t := 12 * year d + (month d - 1) + n in
  let y := t / 12 in
  let m := t mod 12 + 1 in
  Datetime.make y m (Z.min (Calendar.days_in_month y m) (day d))
                (hour d) (minute d) (second d) (microsecond d).

(** A delta with relative fields only. *)
Definition relative_only (r : Relativedelta.relativedelta) : Prop :=
  Relativedelta.leapdays r = 0 /\
  Relativedelta.abs_year r = None /\ Relativedelta.abs_month r = None /\
  Relativedelta.abs_day r = None /\ Relativedelta.abs_weekday r = None /\
  Relativedelta.abs_hour r = None /\ Relativedelta.abs_minute r = None /\
  Relativedelta.abs_second r = None /\ Relativedelta.abs_microsecond r = None.

(** The time part of a delta, in microseconds. *)
Definition delta_us (r : Relativedelta.relativedelta) : Z :=
  Relativedelta.timedelta_us
    (Relativedelta.days r) (Relativedelta.hours r) (Relativedelta.minutes r)
    (Relativedelta.seconds r) (Relativedelta.microseconds r).

(** The calendar part of a delta, in months. *)
Definition delta_months (r : Relativedelta.relativedelta) : Z :=
  12 * Relativedelta.years r + Relativedelta.months r.

(** *** The advancer *)

(** [r] is the smallest timestamp of the form [due + k * period],
    [k = 1, 2, 3, ...], that is not before [now]; [k * period] is the
    delta of [k * n] units, for a card whose count is [n]. *)
Definition smallest_multiple_not_before (now : datetime) (card : Card)
  (n : Z) (r : datetime) : Prop :=
  exists (k : Z) (dk : Relativedelta.relativedelta),
    1 <= k /\
    Relativedelta.relativedelta_kw (period_type card) (k * n) = Ok dk /\
    Relativedelta.radd (due card) dk = Ok r /\
    geb r now = true /\
    forall j dj rj,
      1 <= j ->
      Relativedelta.relativedelta_kw (period_type card) (j * n) = Ok dj ->
      Relativedelta.radd (due card) dj = Ok rj ->
      geb rj now = true -> leb r rj = true.

(** [k] periods added to a timestamp one after the other, each sum the
    start of the next addition, as the loop adds them. *)
Fixpoint add_periods (delta : Relativedelta.relativedelta) (k : nat)
  (d : datetime) : result datetime :=
  match k with
  | O => Ok d
  | S k' =>
      match Relativedelta.radd d delta with
      | Ok d' => add_periods delta k' d'
      | Raise e => Raise e
      end
  end.

(** Fewer than [k] additions of the period to [due] all give a timestamp
    before [now]. *)
Definition sums_before (now : datetime)
  (delta : Relativedelta.relativedelta) (due : datetime) (k : nat) : Prop :=
  forall i, (i < k)%nat ->
    exists d, add_periods delta i due = Ok d /\ ltb d now = true.

(** The hour, minute, second and microsecond of two timestamps agree. *)
Definition same_time (a b : datetime) : Prop :=
  hour a = hour b /\ minute a = minute b /\ second a = second b /\
  microsecond a = microsecond b.

(** [r] is not before [now], and one period earlier is before [now]. *)
Definition within_one_period (now : datetime)
  (delta : Relativedelta.relativedelta) (r : datetime) : Prop :=
  geb r now = true /\
  exists r0, Relativedelta.rsub r delta = Ok r0 /\ ltb r0 now = true.

(** The loop of [process_card] ends with [outcome] after [k] runs of its
    body: any fuel from [k] on gives that outcome. *)
Definition advance_ends (k : nat) (now : datetime) (card : Card)
  (outcome : res datetime) : Prop :=
  forall fuel, (k <= fuel)%nat -> advance fuel now card (due card) = outcome.

(** *** Sample boards and tasks *)

(** The scenario of the specification: a weekly task due on 1 January
    2023, seen on 20 January 2023. *)
Definition scenario_due : datetime := mk 2023 1 1 0 0 0 0.
Definition scenario_now : datetime := mk 2023 1 20 0 0 0 0.
Definition scenario_new_due : datetime := mk 2023 1 22 0 0 0 0.

Definition scenario_raw : raw_card :=
  {| rc_name := "water the plants"; rc_id := "c9";
     rc_due := Some "2023-01-01T00:00:00.000Z"; rc_desc := "1 weeks";
     rc_labels := [ {| label_name := Some "Regular" |} ] |}.

Definition scenario_card : Card :=
  {| name := "water the plants"; identifier := "c9"; due := scenario_due;
     period_len := PInt 1; period_type := "weeks" |}.

(** Seven lists, one per weekday name, in the canonical order. *)
Definition week_lists : list List :=
  map (fun n => {| list_name := n; list_identifier := ("id-" ++ n)%string |})
      list_names.

(** A board service whose first call already fails. *)
Definition unreachable_board : Requester :=
  {| lists_response := None;
     cards_response := fun _ _ => None;
     put_raises := fun _ _ => false |}.

(** A board with the single list "Понедельник" that always holds the
    given cards. *)
Definition monday_board (cards : list raw_card) : Requester :=
  {| lists_response := Some [ {| rl_name := "Понедельник"; rl_id := "L1" |} ];
     cards_response := fun _ _ => Some cards;
     put_raises := fun _ _ => false |}.

(** A regular, past-due task whose notes hold no recurrence rule. *)
Definition no_rule_raw : raw_card :=
  {| rc_name := "call the bank"; rc_id := "c6";
     rc_due := Some "2023-01-02T09:30:00.000Z"; rc_desc := "every week";
     rc_labels := [ {| label_name := Some "Regular" |} ] |}.

(** A count of 4301 digits, one more than [int] converts by default, and
    a regular, past-due task whose notes begin with it. *)
Definition long_count : string := N.iter 4301 (String "1"%char) EmptyString.

Definition long_count_raw : raw_card :=
  {| rc_name := "back up the disk"; rc_id := "c7";
     rc_due := Some "2023-01-03T08:00:00.000Z";
     rc_desc := (long_count ++ " weeks")%string;
     rc_labels := [ {| label_name := Some "Regular" |} ] |}.

(** A regular, past-due task whose rule is written in Russian. *)
Definition russian_rule_raw : raw_card :=
  {| rc_name := "полить цветы"; rc_id := "c8";
     rc_due := Some "2023-01-04T07:00:00.000Z"; rc_desc := "2 раза в неделю";
     rc_labels := [ {| label_name := Some "Regular" |} ] |}.

(** A task without a due date and without the label. *)
Definition no_due_raw : raw_card :=
  {| rc_name := "someday"; rc_id := "c5"; rc_due := None; rc_desc := "";
     rc_labels := [] |}.

(** Two untagged tasks of one list, the later due date first. *)
Definition two_dated_raw : list raw_card :=
  [ {| rc_name := "tenth"; rc_id := "t10";
       rc_due := Some "2023-02-10T00:00:00.000Z"; rc_desc := "";
       rc_labels := [] |};
    {| rc_name := "fifth"; rc_id := "t05";
       rc_due := Some "2023-02-05T00:00:00.000Z"; rc_desc := "";
       rc_labels := [] |} ].

(** A monthly task due on 31 January 2023, seen on 29 March 2023. *)
Definition month_end_card : Card :=
  {| name := "pay the rent"; identifier := "c1"; due := mk 2023 1 31 0 0 0 0;
     period_len := PInt 1; period_type := "months" |}.
Definition month_end_now : datetime := mk 2023 3 29 0 0 0 0.

(** A task whose rule has a zero count, as the notes "0 days" give it. *)
Definition zero_count_raw : raw_card :=
  {| rc_name := "stretch"; rc_id := "c4";
     rc_due := Some "2023-01-01T00:00:00.000Z"; rc_desc := "0 days";
     rc_labels := [ {| label_name := Some "Regular" |} ] |}.
Definition zero_count_card : Card :=
  {| name := "stretch"; identifier := "c4"; due := scenario_due;
     period_len := PInt 0; period_type := "days" |}.

(** A task whose rule names a unit in the singular, which the delta's
    constructor reads as an absolute day of the month. *)
Definition singular_unit_card : Card :=
  {| name := "stretch"; identifier := "c4b"; due := scenario_due;
     period_len := PInt 1; period_type := "day" |}.

(** *** Requests *)

(** A relocation of [card]: its due date set to the text of the timestamp
    at which the loop of [process_card] ends, which is not before [now],
    written without its microseconds, and its list set to a list of
    [lists] that bears the name of that timestamp's weekday. *)
Definition relocation (now : datetime) (card : Card) (lists : list List)
  (p : put) : Prop :=
  exists (due' : datetime) (l : List),
    p = PutDue (identifier card) (Text.strftime due') (list_identifier l) /\
    In l lists /\ list_name l = weekday_name due' /\ geb due' now = true /\
    exists fuel, advance fuel now card (due card) = Val due'.

(** The requests that move the cards to the bottom of their list, in the
    order of the cards. *)
Definition bottom_requests (cards : list CardToSort) : list put :=
  map (fun c => PutBottom (sort_identifier c)) cards.

(** The cards the second phase works on for a list, given the requests
    sent so far: the answer of the service turned into ordering tasks,
    and no card when the fetch fails. *)
Definition cards_to_order (req : Requester) (sent : list put) (l : List)
  : result (list CardToSort) :=
  match cards_response req sent (list_identifier l) with
  | Some raw => construct_cards_to_order raw
  | None => Ok []
  end.

(** The requests of the second phase over some lists, from the requests
    sent before it: list after list, the cards of the list sorted by due
    date, one request per card.  [None] when the due date of some card
    does not parse. *)
Fixpoint reorder_requests (req : Requester) (sent : list put)
  (lists : list List) : option (list put) :=
  match lists with
  | [] => Some []
  | l :: rest =>
      match cards_to_order req sent l with
      | Ok cards =>
          let ps := bottom_requests (sort_cards cards) in
          option_map (app ps) (reorder_requests req (sent ++ ps) rest)
      | Raise _ => None
      end
  end.

(** The order the list orderer produces. *)
Definition ascending (cards : list CardToSort) : Prop :=
  StronglySorted (fun a b => leb (sort_due a) (sort_due b) = true) cards.

(** An ordering task as [construct_cards_to_order] builds it from a raw
    card. *)
Definition constructed (card : raw_card) (c : CardToSort) : Prop :=
  sort_name c = rc_name card /\ sort_identifier c = rc_id card /\
  Text.strptime (rc_due card) = Ok (sort_due c).

(** *** Text *)

(** Every byte of a string is in a class. *)
Fixpoint all_chars (p : ascii -> bool) (s : string) : bool :=
  match s with
  | EmptyString => true
  | String c rest => p c && all_chars p rest
  end.

(** The bytes of one character: a byte that is no continuation byte, then
    continuation bytes only. *)
Definition well_cut (ch : string) : bool :=
  match ch with
  | String a t => negb (Text.continuation a) && all_chars Text.continuation t
  | EmptyString => false
  end.

(** Every character of a text is in a class. *)
Definition every_char (p : string -> bool) (s : string) : bool :=
  forallb p (Text.chars s).

(** A text is empty, or begins with a character that is not in a class. *)
Definition stops (p : string -> bool) (s : string) : bool :=
  match Text.chars s with
  | [] => true
  | ch :: _ => negb (Text.begins_with_continuation ch) && negb (p ch)
  end.

(** A count as the filter leaves it: the [int] of the digits, which is not
    negative, or the digits themselves when [int] raised on them. *)
Definition well_formed_count (v : period_value) : Prop :=
  match v with
  | PInt n => 0 <= n
  | PStr s =>
      s <> "" /\ every_char Text.is_digit s = true /\
      Text.to_int s = Raise ValueError
  end.

(** What the filter guarantees of every card it returns. *)
Definition well_formed_card (now : datetime) (c : Card) : Prop :=
  valid (due c) /\ microsecond (due c) = 0 /\ ltb (due c) now = true /\
  well_formed_count (period_len c) /\
  period_type c <> "" /\ every_char Text.is_word (period_type c) = true.

(** *** The due date as a request carries it *)

(** A timestamp without its microseconds. *)
Definition whole_second (d : datetime) : datetime :=
  mk (year d) (month d) (day d) (hour d) (minute d) (second d) 0.

(** A relocation of some card, and a move to the bottom of a list. *)
Definition due_request (now : datetime) (lists : list List) (p : put) : Prop :=
  exists card, relocation now card lists p.

Definition bottom_request (p : put) : Prop := exists id, p = PutBottom id.

(** The ways [main] can end other than by returning. *)
Definition stops_in_phase_one (r : res unit) : Prop :=
  r = Hang \/ r = Exc NameError.

Definition stops_in_phase_two (r : res unit) : Prop :=
  r = Exc TypeError \/ r = Exc ValueError.

(** *** The configuration file

    [Requester.__init__] reads the file named on the command line.  The
    model starts from the text of the file as text mode hands it over,
    with every line ending already a single newline character. *)

Definition newline : ascii := "010"%char.

(** [fin.readlines()]: the lines of the text, each with its newline, the
    last one without when the text does not end in one. *)
Fixpoint readlines (s : string) : list string :=
  match s with
  | EmptyString => []
  | String c rest =>
      if Ascii.eqb c newline then String c EmptyString :: readlines rest
      else match readlines rest with
           | [] => [String c EmptyString]
           | first :: lines => String c first :: lines
           end
  end.

Fixpoint lstrip (s : string) : string :=
  match s with
  | EmptyString => EmptyString
  | String c rest => if Ascii.eqb c newline then lstrip rest else s
  end.

Fixpoint rstrip (s : string) : string :=
  match s with
  | EmptyString => EmptyString
  | String c rest =>
      match rstrip rest with
      | EmptyString => if Ascii.eqb c newline then EmptyString
                       else String c EmptyString
      | kept => String c kept
      end
  end.

(** [x.strip("\n")] *)
Definition strip (s : string) : string := rstrip (lstrip s).

(** What the constructor keeps: the board identifier, and the two values
    that go into the query of every request. *)
Record config : Type := {
  board_id : string; trello_api_key : string; trello_api_token : string }.

(** The unpacking of [[x.strip("\n") for x in fin.readlines() if x]] into
    three names: any other number of lines is a [ValueError]. *)
Definition read_config (text : string) : result config :=
  match map strip
            (filter (fun x => negb (String.eqb x EmptyString)) (readlines text))
  with
  | [a; b; c] =>
      Ok {| board_id := a; trello_api_key := b; trello_api_token := c |}
  | _ => Raise ValueError
  end.

(** A character that is not a newline. *)
Definition not_newline (c : ascii) : bool := negb (Ascii.eqb c newline).

(** A line of text: its content and its newline. *)
Definition line (content : string) : string :=
  (content ++ String newline EmptyString)%string.

(** * Properties *)

(** ** Equations of the advancing loop *)

Lemma advance_done (fuel : nat) (now : datetime) (card : Card) (d : datetime) :
  ltb d now = false -> advance fuel now card d = Val d.
Proof. intros H. destruct fuel; simpl; rewrite H; reflexivity. Qed.

Lemma add_period_int (card : Card) (n : Z)
  (delta : Relativedelta.relativedelta) (d : datetime) :
  period_len card = PInt n ->
  Relativedelta.relativedelta_kw (period_type card) n = Ok delta ->
  add_period card d = Relativedelta.radd d delta.
Proof. intros H1 H2. unfold add_period. now rewrite H1, H2. Qed.

Lemma advance_step (fuel : nat) (now : datetime) (card : Card)
  (d d' : datetime) :
  ltb d now = true -> add_period card d = Ok d' ->
  advance (S fuel) now card d = advance fuel now card d'.
Proof. intros H1 H2. simpl. rewrite H1, H2. reflexivity. Qed.

Lemma advance_raise (fuel : nat) (now : datetime) (card : Card)
  (d : datetime) (e : exn) :
  ltb d now = true -> add_period card d = Raise e ->
  advance (S fuel) now card d = Exc e.
Proof. intros H1 H2. simpl. rewrite H1, H2. reflexivity. Qed.

Lemma advance_out_of_fuel (now : datetime) (card : Card) (d : datetime) :
  ltb d now = true -> advance 0 now card d = Hang.
Proof. intros H. simpl. rewrite H. reflexivity. Qed.

(** ** The scenario *)

(** C9: the task due 2023-01-01T00:00:00.000Z with notes "1 weeks", seen at
    2023-01-20T00:00:00.000Z, is advanced by exactly three weekly additions
    (1 -> 8 -> 15 -> 22 January) to 2023-01-22T00:00:00.000Z, whose weekday
    index is 6, the last of the Monday-first names, and the router picks
    the first fetched list of that name. *)
Theorem scenario_weekly_task_moves_to_sunday :
  Text.strptime (rc_due scenario_raw) = Ok scenario_due /\
  Text.strptime (Some "2023-01-20T00:00:00.000Z") = Ok scenario_now /\
  Text.strptime (Some "2023-01-22T00:00:00.000Z") = Ok scenario_new_due /\
  Text.match_period (rc_desc scenario_raw) = Some ("1", "weeks") /\
  fst (filter_out_cards scenario_now [scenario_raw] empty_world)
    = Val [scenario_card] /\
  (exists week,
      Relativedelta.relativedelta_kw "weeks" 1 = Ok week /\
      Relativedelta.radd scenario_due week = Ok (mk 2023 1 8 0 0 0 0) /\
      Relativedelta.radd (mk 2023 1 8 0 0 0 0) week = Ok (mk 2023 1 15 0 0 0 0) /\
      Relativedelta.radd (mk 2023 1 15 0 0 0 0) week = Ok scenario_new_due) /\
  advance 2 scenario_now scenario_card scenario_due = Hang /\
  (forall fuel,
      advance (3 + fuel) scenario_now scenario_card scenario_due
      = Val scenario_new_due) /\
  weekday scenario_new_due = 6 /\
  nth_error list_names 6 = Some "Воскресенье" /\
  (forall lists,
      target_list scenario_new_due lists
      = Ok (option_map list_identifier
              (find (fun l => String.eqb (list_name l) "Воскресенье") lists))).
Proof.
  split; [vm_compute; reflexivity|].
  split; [vm_compute; reflexivity|].
  split; [vm_compute; reflexivity|].
  split; [vm_compute; reflexivity|].
  split; [vm_compute; reflexivity|].
  split.
  { eexists. split; [vm_compute; reflexivity|].
    split; [vm_compute; reflexivity|].
    split; vm_compute; reflexivity. }
  split; [vm_compute; reflexivity|].
  split.
  { intros fuel. change (3 + fuel)%nat with (S (S (S fuel))).
    rewrite (advance_step _ _ _ scenario_due (mk 2023 1 8 0 0 0 0))
      by (vm_compute; reflexivity).
    rewrite (advance_step _ _ _ _ (mk 2023 1 15 0 0 0 0))
      by (vm_compute; reflexivity).
    rewrite (advance_step _ _ _ _ scenario_new_due)
      by (vm_compute; reflexivity).
    apply advance_done. vm_compute. reflexivity. }
  split; [vm_compute; reflexivity|].
  split; [vm_compute; reflexivity|].
  intros lists. unfold target_list.
  replace (nth_error list_names (Z.to_nat (weekday scenario_new_due)))
    with (Some "Воскресенье") by (vm_compute; reflexivity).
  reflexivity.
Qed.

(** ** Running the effectful code *)

Ltac run :=
  unfold try_except, bind, ret, pure, of_result, raise, logger, trello_put;
  simpl.

Lemma for_state_app {A S} (body : A -> S -> M S) (l1 l2 : list A) (s : S)
  (w : world) :
  for_state (l1 ++ l2) body s w
  = (s' <- for_state l1 body s ;; for_state l2 body s') w.
Proof.
  revert s w. induction l1 as [|x l1 IH]; intros s w; simpl.
  - reflexivity.
  - unfold bind. destruct (body x s w) as [[s'|e|] w']; auto.
Qed.

(** ** Degrade to empty *)

(** C7: when the initial fetch of the lists raises, [get_lists] returns no
    list, both loops of [main] run over zero lists, no request is sent and
    [main] returns normally. *)
Theorem lists_fetch_failure_degrades_to_empty :
  forall (fuel : nat) (req : Requester) (current_time : datetime) (w : world),
    lists_response req = None ->
    fst (get_lists req w) = Val [] /\
    main fuel req current_time w
    = (Val tt,
       {| puts := puts w;
          log := ((log w ++ [(CRITICAL, "Can't get lists")])
                    ++ [(INFO, "Started to update due dates")])
                   ++ [(INFO, "Start to sort cards")] |}).
Proof.
  intros fuel req now w H. unfold main, get_lists. rewrite H. run. auto.
Qed.

(** ** The weekday router *)

Lemma weekday_range (d : datetime) : 0 <= weekday d < 7.
Proof. unfold weekday. apply Z.mod_pos_bound. lia. Qed.

Lemma weekday_name_nth (d : datetime) :
  nth_error list_names (Z.to_nat (weekday d)) = Some (weekday_name d).
Proof.
  unfold weekday_name. pose proof (weekday_range d) as H.
  assert (Hn : (Z.to_nat (weekday d) < 7)%nat) by lia.
  revert Hn. generalize (Z.to_nat (weekday d)) as n. clear H. intros n Hn.
  do 7 (destruct n as [|n]; [reflexivity|]). lia.
Qed.

Lemma target_list_find (d : datetime) (lists : list List) :
  target_list d lists
  = Ok (option_map list_identifier
          (find (fun l => String.eqb (list_name l) (weekday_name d)) lists)).
Proof. unfold target_list. rewrite weekday_name_nth. reflexivity. Qed.

Lemma find_absent_name (wanted : string) (lists : list List) :
  in_names wanted (map list_name lists) = false ->
  find (fun l => String.eqb (list_name l) wanted) lists = None.
Proof.
  unfold in_names. induction lists as [|l lists IH]; simpl; intros H.
  - reflexivity.
  - apply orb_false_iff in H. destruct H as [H1 H2].
    rewrite String.eqb_sym, H1. auto.
Qed.

Lemma NoDup_map_injective {A B} (f : A -> B) (l : list A) (x y : A) :
  NoDup (map f l) -> In x l -> In y l -> f x = f y -> x = y.
Proof.
  induction l as [|a l IH]; simpl; intros Hnd Hx Hy Hf; [contradiction|].
  inversion Hnd as [|? ? Hnotin Hnd']; subst.
  destruct Hx as [->|Hx], Hy as [->|Hy]; auto.
  - exfalso. apply Hnotin. rewrite Hf. now apply in_map.
  - exfalso. apply Hnotin. rewrite <- Hf. now apply in_map.
Qed.

Lemma list_names_NoDup : NoDup list_names.
Proof.
  unfold list_names.
  repeat (constructor; [simpl; intuition discriminate|]). constructor.
Qed.

(** C3: with seven fetched lists, one per canonical weekday name, the
    router returns the identifier of the one list whose name is the name
    of the timestamp's weekday; when no fetched list has that name,
    [process_card] logs an error and sends no request. *)
Theorem router_selects_weekday_list :
  (forall (due' : datetime) (lists : list List),
      Permutation (map list_name lists) list_names ->
      exists l,
        In l lists /\ list_name l = weekday_name due' /\
        nth_error list_names (Z.to_nat (weekday due')) = Some (list_name l) /\
        (forall l', In l' lists -> list_name l' = weekday_name due' -> l' = l) /\
        target_list due' lists = Ok (Some (list_identifier l)))
  /\
  (forall (due' : datetime) (lists : list List) fuel req current_time card w,
      in_names (weekday_name due') (map list_name lists) = false ->
      advance fuel current_time card (due card) = Val due' ->
      target_list due' lists = Ok None /\
      process_card fuel req current_time card lists w
      = (Val tt,
         {| puts := puts w;
            log := log w ++ [(ERROR, "Can't find a target list for card")] |})).
Proof.
  split.
  - intros d lists Hperm.
    assert (Hin : In (weekday_name d) (map list_name lists)).
    { apply Permutation_in with (l := list_names).
      - now apply Permutation_sym.
      - eapply nth_error_In, weekday_name_nth. }
    apply in_map_iff in Hin. destruct Hin as [l0 [Hname0 Hin0]].
    destruct (find (fun l => String.eqb (list_name l) (weekday_name d)) lists)
      as [l|] eqn:Hfind.
    + apply find_some in Hfind. destruct Hfind as [Hin Heq].
      apply String.eqb_eq in Heq.
      exists l. repeat split; auto.
      * rewrite weekday_name_nth. now rewrite Heq.
      * intros l' Hin' Hname'.
        apply (NoDup_map_injective list_name lists); auto.
        -- apply Permutation_NoDup with (l := list_names).
           ++ now apply Permutation_sym.
           ++ apply list_names_NoDup.
        -- congruence.
      * rewrite target_list_find.
        destruct (find _ lists) as [l1|] eqn:E.
        -- simpl. f_equal. f_equal. f_equal. 
           apply find_some in E. destruct E as [Hin1 Heq1].
           apply String.eqb_eq in Heq1.
           apply (NoDup_map_injective list_name lists); auto.
           ++ apply Permutation_NoDup with (l := list_names).
              ** now apply Permutation_sym.
              ** apply list_names_NoDup.
           ++ congruence.
        -- apply find_none with (x := l0) in E; auto.
           rewrite Hname0, String.eqb_refl in E. discriminate.
    + apply find_none with (x := l0) in Hfind; auto.
      rewrite Hname0, String.eqb_refl in Hfind. discriminate.
  - intros d lists fuel req now card w Habsent Hadv.
    assert (Htarget : target_list d lists = Ok None).
    { rewrite target_list_find, find_absent_name; auto. }
    split; [exact Htarget|].
    unfold process_card. run. rewrite Hadv. simpl. rewrite Htarget. reflexivity.
Qed.

(** ** The order on timestamps *)

Lemma cmp_tuple_refl (a : list Z) : cmp_tuple a a = Eq.
Proof. induction a as [|x a IH]; simpl; [|rewrite Z.compare_refl]; auto. Qed.

Lemma cmp_tuple_eq (a b : list Z) : cmp_tuple a b = Eq -> a = b.
Proof.
  revert b. induction a as [|x a IH]; intros [|y b]; simpl; try discriminate; auto.
  destruct (x ?= y) eqn:E; try discriminate.
  apply Z.compare_eq in E. intros H. f_equal; auto.
Qed.

Lemma cmp_tuple_antisym (a b : list Z) :
  cmp_tuple b a = CompOpp (cmp_tuple a b).
Proof.
  revert b. induction a as [|x a IH]; intros [|y b]; simpl; auto.
  rewrite (Z.compare_antisym x y). destruct (x ?= y); simpl; auto.
Qed.

Lemma cmp_tuple_trans (a b c : list Z) :
  cmp_tuple a b = Lt -> cmp_tuple b c = Lt -> cmp_tuple a c = Lt.
Proof.
  revert b c. induction a as [|x a IH]; intros [|y b] [|z c]; simpl;
    try discriminate; auto.
  destruct (x ?= y) eqn:Exy; try discriminate;
    destruct (y ?= z) eqn:Eyz; try discriminate; intros H1 H2.
  - apply Z.compare_eq in Exy, Eyz. subst. rewrite Z.compare_refl. eauto.
  - apply Z.compare_eq in Exy. subst. rewrite Eyz. reflexivity.
  - apply Z.compare_eq in Eyz. subst. rewrite Exy. reflexivity.
  - rewrite Z.compare_lt_iff in *. assert (x < z) by lia.
    rewrite (proj2 (Z.compare_lt_iff x z)); auto.
Qed.

Lemma cmp_eq (a b : datetime) : cmp a b = Eq -> a = b.
Proof.
  unfold cmp. intros H. apply cmp_tuple_eq in H.
  destruct a, b. unfold fields in H. simpl in H. congruence.
Qed.

Lemma cmp_refl (a : datetime) : cmp a a = Eq.
Proof. apply cmp_tuple_refl. Qed.

Lemma ltb_irrefl (a : datetime) : ltb a a = false.
Proof. unfold ltb. rewrite cmp_refl. reflexivity. Qed.

Lemma ltb_trans (a b c : datetime) :
  ltb a b = true -> ltb b c = true -> ltb a c = true.
Proof.
  unfold ltb, cmp. intros H1 H2.
  destruct (cmp_tuple (fields a) (fields b)) eqn:E1; try discriminate.
  destruct (cmp_tuple (fields b) (fields c)) eqn:E2; try discriminate.
  rewrite (cmp_tuple_trans _ _ _ E1 E2). reflexivity.
Qed.

Lemma ltb_asym (a b : datetime) : ltb a b = true -> ltb b a = false.
Proof.
  unfold ltb, cmp. rewrite (cmp_tuple_antisym (fields a) (fields b)).
  destruct (cmp_tuple (fields a) (fields b)); simpl; auto; discriminate.
Qed.

(** Trichotomy: when neither is before the other, the two are equal. *)
Lemma ltb_total (a b : datetime) :
  ltb a b = false -> ltb b a = false -> a = b.
Proof.
  unfold ltb, cmp. rewrite (cmp_tuple_antisym (fields a) (fields b)).
  destruct (cmp_tuple (fields a) (fields b)) eqn:E; simpl; try discriminate.
  intros _ _. now apply cmp_eq.
Qed.

Lemma leb_refl (a : datetime) : leb a a = true.
Proof. unfold leb. now rewrite ltb_irrefl. Qed.

Lemma ltb_leb (a b : datetime) : ltb a b = true -> leb a b = true.
Proof. unfold leb. intros H. now rewrite (ltb_asym _ _ H). Qed.

Lemma leb_trans (a b c : datetime) :
  leb a b = true -> leb b c = true -> leb a c = true.
Proof.
  unfold leb. intros H1 H2.
  apply negb_true_iff in H1, H2. apply negb_true_iff.
  destruct (ltb c a) eqn:Hca; auto.
  destruct (ltb a b) eqn:Hab.
  - rewrite (ltb_trans _ _ _ Hca Hab) in H2. discriminate.
  - assert (a = b) by now apply ltb_total. subst. congruence.
Qed.

Lemma leb_ltb_trans (a b c : datetime) :
  leb a b = true -> ltb b c = true -> ltb a c = true.
Proof.
  unfold leb. intros H1 H2. apply negb_true_iff in H1.
  destruct (ltb a b) eqn:Hab.
  - eapply ltb_trans; eauto.
  - assert (a = b) by now apply ltb_total. now subst.
Qed.

Lemma dt_eqb_eq (a b : datetime) : dt_eqb a b = true <-> a = b.
Proof.
  unfold dt_eqb. split.
  - destruct (cmp a b) eqn:E; try discriminate. intros _. now apply cmp_eq.
  - intros ->. now rewrite cmp_refl.
Qed.

(** ** The list orderer *)

Section Sorting.
Context {A : Type} (key : A -> datetime).

Let le (a b : A) : Prop := leb (key a) (key b) = true.

Lemma insert_by_perm (x : A) (l : list A) :
  Permutation (x :: l) (insert_by key x l).
Proof.
  induction l as [|y l IH]; simpl; auto.
  destruct (ltb (key y) (key x)); auto.
  rewrite perm_swap. now apply perm_skip.
Qed.

Lemma sorted_perm (l : list A) : Permutation l (sorted key l).
Proof.
  induction l as [|x l IH]; simpl; auto.
  rewrite <- insert_by_perm. now apply perm_skip.
Qed.

Lemma insert_by_sorted (x : A) (l : list A) :
  StronglySorted le l -> StronglySorted le (insert_by key x l).
Proof.
  induction 1 as [|y l Hs IH Hall]; simpl.
  - repeat constructor.
  - destruct (ltb (key y) (key x)) eqn:E.
    + constructor; auto.
      apply (Permutation_Forall (insert_by_perm x l)).
      constructor; auto. now apply ltb_leb.
    + assert (Hxy : le x y) by (unfold le, leb; now rewrite E).
      constructor.
      * constructor; auto.
      * constructor; auto.
        eapply Forall_impl; [|exact Hall].
        intros z Hz. eapply leb_trans; eauto.
Qed.

Lemma sorted_sorted (l : list A) : StronglySorted le (sorted key l).
Proof.
  induction l as [|x l IH]; simpl; [constructor|].
  now apply insert_by_sorted.
Qed.

Lemma insert_by_stable (d : datetime) (x : A) (l : list A) :
  filter (fun c => dt_eqb (key c) d) (insert_by key x l)
  = filter (fun c => dt_eqb (key c) d) (x :: l).
Proof.
  induction l as [|y l IH]; [reflexivity|].
  simpl insert_by. destruct (ltb (key y) (key x)) eqn:E; [|reflexivity].
  simpl in *. rewrite IH.
  destruct (dt_eqb (key x) d) eqn:Ex; [|reflexivity].
  destruct (dt_eqb (key y) d) eqn:Ey; [|reflexivity].
  apply dt_eqb_eq in Ex, Ey. rewrite Ex, Ey, ltb_irrefl in E. discriminate.
Qed.

Lemma sorted_stable (d : datetime) (l : list A) :
  filter (fun c => dt_eqb (key c) d) (sorted key l)
  = filter (fun c => dt_eqb (key c) d) l.
Proof.
  induction l as [|x l IH]; [reflexivity|].
  simpl sorted. rewrite insert_by_stable. simpl. now rewrite IH.
Qed.

End Sorting.

Lemma set_card_order_all (req : Requester) (cards : list CardToSort) (w : world) :
  exists w',
    for_each cards (set_card_order req) w = (Val tt, w') /\
    puts w' = puts w ++ bottom_requests cards.
Proof.
  unfold for_each, bottom_requests. revert w.
  induction cards as [|c cards IH]; intros w.
  - exists w. simpl. rewrite app_nil_r. auto.
  - simpl for_state. unfold bind, set_card_order, try_except, trello_put.
    destruct (put_raises req (puts w) (PutBottom (sort_identifier c))).
    + unfold logger. simpl.
      match goal with |- context [for_state cards ?b tt ?w1] =>
        destruct (IH w1) as [w' [H1 H2]] end.
      exists w'. split; [exact H1|]. rewrite H2. simpl. now rewrite <- app_assoc.
    + match goal with |- context [for_state cards ?b tt ?w1] =>
        destruct (IH w1) as [w' [H1 H2]] end.
      exists w'. split; [exact H1|]. rewrite H2. simpl. now rewrite <- app_assoc.
Qed.

(** The second phase for one list: the cards of the answer, sorted, are
    moved to the bottom one after the other. *)
Lemma order_cards_requests (req : Requester) (l : List) (w : world)
  (cards : list CardToSort) :
  cards_to_order req (puts w) l = Ok cards ->
  exists w',
    order_cards req l w = (Val tt, w') /\
    puts w' = puts w ++ bottom_requests (sort_cards cards).
Proof.
  unfold cards_to_order, order_cards, get_cards. intros H. run.
  destruct (cards_response req (puts w) (list_identifier l)) as [raw|]; run.
  - rewrite H. simpl.
    match goal with |- context [for_each _ _ ?w2] =>
      destruct (set_card_order_all req (sort_cards cards) w2)
        as [w3 [E3 P3]] end.
    rewrite E3. eexists. split; [reflexivity|]. simpl. exact P3.
  - inversion H. subst cards. simpl. eexists. split; [reflexivity|].
    simpl. now rewrite app_nil_r.
Qed.

(** The second phase over all its lists. *)
Lemma second_phase_requests (req : Requester) (lists : list List) :
  forall (w : world) (ps : list put),
    reorder_requests req (puts w) lists = Some ps ->
    exists w',
      for_each lists (order_cards req) w = (Val tt, w') /\
      puts w' = puts w ++ ps.
Proof.
  unfold for_each.
  induction lists as [|l lists IH]; intros w ps H; simpl in H.
  - inversion H. subst. exists w. simpl. rewrite app_nil_r. auto.
  - destruct (cards_to_order req (puts w) l) as [cards|e] eqn:Ec;
      [|discriminate].
    destruct (order_cards_requests req l w cards Ec) as [w1 [E1 P1]].
    rewrite <- P1 in H.
    destruct (reorder_requests req (puts w1) lists) as [qs|] eqn:Er;
      [|discriminate].
    inversion H. subst ps. clear H.
    destruct (IH w1 qs Er) as [w' [E2 P2]].
    exists w'. simpl for_state. unfold bind. rewrite E1. split; [exact E2|].
    rewrite P2, P1. now rewrite app_assoc.
Qed.

(** C8: the orderer's output is the input sorted by due date ascending,
    and tasks with the same due date keep their input order.  In the
    second phase of a run the cards of a list, sorted so, are sent one
    request each, in that order, each moving its card to the bottom of the
    list: for one list by [order_cards], the body of the second loop of
    [main], and for all the lists of a run whose first phase returned by
    [main] itself. *)
Theorem orderer_sorts_stably_and_repositions_in_order :
  forall (req : Requester) (cards : list CardToSort),
    Permutation cards (sort_cards cards) /\
    StronglySorted (fun a b => leb (sort_due a) (sort_due b) = true)
                   (sort_cards cards) /\
    (forall d,
        filter (fun c => dt_eqb (sort_due c) d) (sort_cards cards)
        = filter (fun c => dt_eqb (sort_due c) d) cards) /\
    (forall (l : List) (w : world),
        cards_to_order req (puts w) l = Ok cards ->
        exists w',
          order_cards req l w = (Val tt, w') /\
          puts w' = puts w ++ map (fun c => PutBottom (sort_identifier c))
                                  (sort_cards cards)) /\
    (forall (fuel : nat) (current_time : datetime) (lists : list List)
            (w w0 w1 : world) (ps : list put),
        get_lists req w = (Val lists, w0) ->
        (logger INFO "Started to update due dates" ;;
         for_each lists (update_due_dates fuel req current_time lists)) w0
        = (Val tt, w1) ->
        reorder_requests req (puts w1) lists = Some ps ->
        exists w',
          main fuel req current_time w = (Val tt, w') /\
          puts w' = puts w1 ++ ps).
Proof.
  intros req cards. unfold sort_cards.
  split; [apply sorted_perm|].
  split; [apply sorted_sorted|].
  split; [intros d; apply sorted_stable|].
  split.
  - intros l w H. apply (order_cards_requests req l w cards H).
  - intros fuel now lists w w0 w1 ps Hlists Hone Htwo.
    unfold main. unfold bind at 1. rewrite Hlists.
    unfold bind at 1 in Hone. unfold bind at 1.
    destruct (logger INFO "Started to update due dates" w0) as [r0 w2] eqn:El.
    unfold logger in El. inversion El. subst r0. clear El.
    unfold bind at 1. rewrite H1 in *. rewrite Hone.
    unfold bind at 1. unfold logger at 1.
    match goal with |- context [for_each lists _ ?w3] =>
      destruct (second_phase_requests req lists w3 ps Htwo) as [w' [E P]] end.
    exists w'. split; [exact E|exact P].
Qed.

(** ** The task filter *)

Lemma reaches_parse_inv (now : datetime) (card : raw_card) (d : datetime) :
  reaches_parse now card = Some d ->
  is_regular card = true /\ Text.strptime (rc_due card) = Ok d /\
  ltb d now = true.
Proof.
  unfold reaches_parse. destruct (is_regular card); [|discriminate].
  destruct (Text.strptime (rc_due card)) as [d'|]; [|discriminate].
  destruct (ltb d' now) eqn:E; [|discriminate].
  intros H. inversion H. subst. auto.
Qed.

Lemma filter_body_skip (now : datetime) (card : raw_card) (st : filter_state)
  (w : world) :
  reaches_parse now card = None ->
  exists w', filter_body now card st w = (Val st, w') /\ puts w' = puts w.
Proof.
  unfold reaches_parse, filter_body. destruct st as [period acc].
  destruct (is_regular card); simpl.
  - destruct (Text.strptime (rc_due card)) as [d|e].
    + unfold geb. destruct (ltb d now); [discriminate|]. intros _.
      run. eauto.
    + intros _. run. eauto.
  - intros _. run. eauto.
Qed.

Lemma assign_period_spec (len type : string) (w : world) :
  exists w',
    assign_period len type w = (Val (period_of len type), w') /\
    puts w' = puts w.
Proof.
  unfold assign_period, period_of. destruct (Text.to_int len); run; eauto.
Qed.

Lemma filter_body_parsed (now : datetime) (card : raw_card) (d : datetime)
  (p : period_value * string) (period : option (period_value * string)) (acc : list Card) (w : world) :
  reaches_parse now card = Some d ->
  parsed_period now card = Some p ->
  exists w',
    filter_body now card (period, acc) w
    = (Val (Some p, acc ++ [make_card card d p]), w') /\ puts w' = puts w.
Proof.
  intros Hr Hp. unfold parsed_period in Hp. rewrite Hr in Hp.
  apply reaches_parse_inv in Hr. destruct Hr as [H1 [H2 H3]].
  unfold filter_body, geb. rewrite H1, H2, H3. simpl.
  destruct (Text.match_period (rc_desc card)) as [[len type]|]; [|discriminate].
  inversion Hp. subst. unfold bind at 1. unfold logger at 1.
  unfold bind at 1. unfold bind at 1.
  match goal with |- context [assign_period len type ?w0] =>
    destruct (assign_period_spec len type w0) as [w1 [E P]] end.
  rewrite E. run. eexists. split; [reflexivity|]. simpl. exact P.
Qed.

Lemma filter_body_stale (now : datetime) (card : raw_card) (d : datetime)
  (p : period_value * string) (acc : list Card) (w : world) :
  reaches_parse now card = Some d ->
  Text.match_period (rc_desc card) = None ->
  exists w',
    filter_body now card (Some p, acc) w
    = (Val (Some p, acc ++ [make_card card d p]), w') /\ puts w' = puts w.
Proof.
  intros Hr Hm.
  apply reaches_parse_inv in Hr. destruct Hr as [H1 [H2 H3]].
  unfold filter_body, geb. rewrite H1, H2, H3, Hm. destruct p. run. eauto.
Qed.

Lemma filter_body_unbound (now : datetime) (card : raw_card) (d : datetime)
  (acc : list Card) (w : world) :
  reaches_parse now card = Some d ->
  Text.match_period (rc_desc card) = None ->
  exists w',
    filter_body now card (None, acc) w = (Exc NameError, w') /\
    puts w' = puts w.
Proof.
  intros Hr Hm.
  apply reaches_parse_inv in Hr. destruct Hr as [H1 [H2 H3]].
  unfold filter_body, geb. rewrite H1, H2, H3, Hm. run. eauto.
Qed.

Lemma parsed_period_cases (now : datetime) (card : raw_card) (d : datetime) :
  reaches_parse now card = Some d ->
  (exists p, parsed_period now card = Some p) \/
  (parsed_period now card = None /\ Text.match_period (rc_desc card) = None).
Proof.
  intros Hr. unfold parsed_period. rewrite Hr.
  destruct (Text.match_period (rc_desc card)) as [[len type]|]; eauto.
Qed.

Lemma parsed_period_skip (now : datetime) (card : raw_card) :
  reaches_parse now card = None -> parsed_period now card = None.
Proof. intros Hr. unfold parsed_period. now rewrite Hr. Qed.

Lemma for_state_cons {A S} (body : A -> S -> M S) (x : A) (l : list A)
  (s : S) (w : world) :
  for_state (x :: l) body s w
  = match body x s w with
    | (Val s', w') => for_state l body s' w'
    | (Exc e, w') => (Exc e, w')
    | (Hang, w') => (Hang, w')
    end.
Proof. reflexivity. Qed.

(** The loop of the filter from any state: it returns or raises
    [NameError], it sends nothing, and when it returns the new cards are
    the eligible ones in input order and the rule is the last one parsed. *)
Lemma filter_loop_spec (now : datetime) (cards : list raw_card) :
  forall (period : option (period_value * string)) (acc : list Card) (w : world),
  exists r w',
    for_state cards (filter_body now) (period, acc) w = (r, w') /\
    puts w' = puts w /\
    match r with
    | Val (period', out) =>
        exists tail,
          out = acc ++ tail /\
          map view tail = eligible_view now cards /\
          period' = fold_left (fun acc card =>
                                 match parsed_period now card with
                                 | Some p => Some p
                                 | None => acc
                                 end) cards period
    | Exc e => e = NameError /\ period = None
    | Hang => False
    end.
Proof.
  induction cards as [|card cards IH]; intros period acc w.
  - exists (Val (period, acc)), w. simpl. unfold ret.
    repeat split; auto. exists []. now rewrite app_nil_r.
  - rewrite for_state_cons.
    destruct (reaches_parse now card) as [d|] eqn:Hr.
    + destruct (parsed_period_cases now card d Hr) as [[p Hp]|[Hp Hm]].
      * destruct (filter_body_parsed now card d p period acc w Hr Hp)
          as [w1 [E1 P1]].
        rewrite E1.
        destruct (IH (Some p) (acc ++ [make_card card d p]) w1)
          as [r [w' [E2 [P2 S2]]]].
        exists r, w'. split; [exact E2|]. split; [congruence|].
        destruct r as [[period' out]|e|]; auto.
        -- destruct S2 as [tail [Ho [Hv Hl]]].
           exists (make_card card d p :: tail). simpl. rewrite Hr, Hp.
           repeat split; auto.
           ++ now rewrite Ho, <- app_assoc.
           ++ now rewrite Hv.
        -- destruct S2; discriminate.
      * destruct period as [p|].
        -- destruct (filter_body_stale now card d p acc w Hr Hm)
             as [w1 [E1 P1]].
           rewrite E1.
           destruct (IH (Some p) (acc ++ [make_card card d p]) w1)
             as [r [w' [E2 [P2 S2]]]].
           exists r, w'. split; [exact E2|]. split; [congruence|].
           destruct r as [[period' out]|e|]; auto.
           destruct S2 as [tail [Ho [Hv Hl]]].
           exists (make_card card d p :: tail). simpl. rewrite Hr, Hp.
           repeat split; auto.
           ++ now rewrite Ho, <- app_assoc.
           ++ now rewrite Hv.
        -- destruct (filter_body_unbound now card d acc w Hr Hm)
             as [w1 [E1 P1]].
           rewrite E1. exists (Exc NameError), w1. auto.
    + destruct (filter_body_skip now card (period, acc) w Hr) as [w1 [E1 P1]].
      rewrite E1.
      destruct (IH period acc w1) as [r [w' [E2 [P2 S2]]]].
      exists r, w'. split; [exact E2|]. split; [congruence|].
      destruct r as [[period' out]|e|]; auto.
      destruct S2 as [tail [Ho [Hv Hl]]].
      exists tail. simpl. rewrite Hr, (parsed_period_skip _ _ Hr). auto.
Qed.

Lemma eligible_view_spec (now : datetime) (cards : list raw_card)
  (n i : string) (d : datetime) :
  In (n, i, d) (eligible_view now cards) ->
  exists card,
    In card cards /\ rc_name card = n /\ rc_id card = i /\
    is_regular card = true /\ Text.strptime (rc_due card) = Ok d /\
    ltb d now = true.
Proof.
  induction cards as [|card cards IH]; simpl; [contradiction|].
  destruct (reaches_parse now card) as [d'|] eqn:Hr.
  - intros [H|H].
    + inversion H. subst. apply reaches_parse_inv in Hr.
      exists card. intuition.
    + destruct (IH H) as [c Hc]. exists c. intuition.
  - intros H. destruct (IH H) as [c Hc]. exists c. intuition.
Qed.

(** C2: the filter either returns or raises [NameError]; when it returns,
    its output lists, in input order, exactly the tasks that carry a label
    named "Regular" and whose due date parses and lies before
    [current_time].  So no task without the label and no task due at or
    after [current_time] is in the output, and nothing is reordered. *)
Theorem filter_keeps_regular_past_due_in_order :
  forall (current_time : datetime) (cards : list raw_card) (w : world),
    match filter_out_cards current_time cards w with
    | (Val out, w') =>
        map view out = eligible_view current_time cards /\
        (forall c, In c out ->
           ltb (due c) current_time = true /\
           geb (due c) current_time = false /\
           exists card,
             In card cards /\ rc_name card = name c /\
             rc_id card = identifier c /\ is_regular card = true /\
             Text.strptime (rc_due card) = Ok (due c)) /\
        puts w' = puts w
    | (Exc e, w') => e = NameError /\ puts w' = puts w
    | (Hang, _) => False
    end.
Proof.
  intros now cards w. unfold filter_out_cards, bind.
  destruct (filter_loop_spec now cards None [] w) as [r [w' [E [P S]]]].
  rewrite E. destruct r as [[period out]|e|]; simpl; auto.
  - destruct S as [tail [Ho [Hv _]]]. simpl in Ho. subst out.
    split; [exact Hv|]. split; [|exact P].
    intros c Hc.
    assert (Hin : In (name c, identifier c, due c) (eligible_view now cards)).
    { rewrite <- Hv. apply (in_map view) in Hc. exact Hc. }
    apply eligible_view_spec in Hin. destruct Hin as [card Hcard].
    unfold geb. split; [intuition|]. split; [|exists card; intuition].
    destruct Hcard as [_ [_ [_ [_ [_ Hlt]]]]]. now rewrite Hlt.
  - destruct S. auto.
Qed.

(** ** Notes that hold no recurrence rule *)

(** Once a rule has been parsed the filter cannot fail any more. *)
Lemma filter_loop_returns (now : datetime) (cards : list raw_card)
  (p : period_value * string) (acc : list Card) (w : world) :
  exists period tail w',
    for_state cards (filter_body now) (Some p, acc) w
    = (Val (period, acc ++ tail), w').
Proof.
  destruct (filter_loop_spec now cards (Some p) acc w) as [r [w' [E [_ S]]]].
  destruct r as [[period out]|e|].
  - destruct S as [tail [Ho _]]. subst out. eauto.
  - destruct S; discriminate.
  - contradiction.
Qed.

(** The state of the filter after a batch it got through. *)
Lemma filter_state_after (now : datetime) (cards : list raw_card)
  (out : list Card) (w w' : world) :
  filter_out_cards now cards w = (Val out, w') ->
  for_state cards (filter_body now) (None, []) w
  = (Val (last_parsed now cards, out), w').
Proof.
  unfold filter_out_cards, bind, ret.
  destruct (filter_loop_spec now cards None [] w) as [r [w1 [E [_ S]]]].
  rewrite E. destruct r as [[period out1]|e|]; try discriminate.
  destruct S as [tail [_ [_ Hl]]]. simpl. intros H. inversion H. subst.
  reflexivity.
Qed.

(** C6, as the code has it: when the filter gets through the tasks before
    it and the notes of at least one of them matched the pattern, a task
    that passes the tag and due-date checks but whose notes do not match
    it is still appended, in its input position, with the period fields
    that the most recent earlier match left. *)
Theorem unparsable_notes_reuse_previous_rule :
  forall (current_time : datetime) (pre post : list raw_card) (card : raw_card)
         (w w1 : world) (out_pre : list Card) (d : datetime) (p : period_value * string),
    filter_out_cards current_time pre w = (Val out_pre, w1) ->
    last_parsed current_time pre = Some p ->
    reaches_parse current_time card = Some d ->
    Text.match_period (rc_desc card) = None ->
    exists tail w',
      filter_out_cards current_time (pre ++ card :: post) w
      = (Val (out_pre ++ make_card card d p :: tail), w') /\
      period_len (make_card card d p) = fst p /\
      period_type (make_card card d p) = snd p.
Proof.
  intros now pre post card w w1 out_pre d p Hpre Hlast Hr Hm.
  apply filter_state_after in Hpre. rewrite Hlast in Hpre.
  unfold filter_out_cards, bind.
  rewrite for_state_app. unfold bind. rewrite Hpre.
  rewrite for_state_cons.
  destruct (filter_body_stale now card d p out_pre w1 Hr Hm) as [w2 [E2 _]].
  rewrite E2.
  destruct (filter_loop_returns now post p (out_pre ++ [make_card card d p]) w2)
    as [period [tail [w' E3]]].
  rewrite E3. exists tail, w'. unfold ret. simpl.
  rewrite <- app_assoc. simpl. auto.
Qed.

Lemma filter_loop_skips (now : datetime) (pre : list raw_card)
  (st : filter_state) (w : world) :
  Forall (fun x => reaches_parse now x = None) pre ->
  exists w',
    for_state pre (filter_body now) st w = (Val st, w') /\ puts w' = puts w.
Proof.
  intros H. revert w. induction H as [|x pre Hx _ IH]; intros w.
  - exists w. auto.
  - rewrite for_state_cons.
    destruct (filter_body_skip now x st w Hx) as [w1 [E1 P1]]. rewrite E1.
    destruct (IH w1) as [w' [E2 P2]]. exists w'. split; [exact E2|congruence].
Qed.

Lemma last_parsed_some (now : datetime) (cards : list raw_card) :
  forall init,
    fold_left (fun acc card =>
                 match parsed_period now card with
                 | Some p => Some p
                 | None => acc
                 end) cards init <> None ->
    init <> None \/ exists x, In x cards /\ parsed_period now x <> None.
Proof.
  induction cards as [|card cards IH]; intros init; simpl; auto.
  intros H. apply IH in H. destruct H as [H|[x [Hin Hx]]].
  - destruct (parsed_period now card) eqn:E; auto.
    right. exists card. split; auto. congruence.
  - right. exists x. auto.
Qed.

(** A count that [int] refuses does not leave the names unbound: the
    tuple assignment of line 153 has bound them before [int] raises, so
    the task is appended with the digits themselves as its count. *)
Lemma refused_count_is_kept_as_text (now : datetime)
  (pre post : list raw_card) (card : raw_card) (d : datetime)
  (len type : string) (e : exn) (w : world) :
  Forall (fun x => reaches_parse now x = None) pre ->
  reaches_parse now card = Some d ->
  Text.match_period (rc_desc card) = Some (len, type) ->
  Text.to_int len = Raise e ->
  exists tail w',
    filter_out_cards now (pre ++ card :: post) w
    = (Val (make_card card d (PStr len, type) :: tail), w') /\
    puts w' = puts w.
Proof.
  intros Hpre Hr Hm Hi.
  assert (Hp : parsed_period now card = Some (PStr len, type)).
  { unfold parsed_period, period_of. now rewrite Hr, Hm, Hi. }
  unfold filter_out_cards. unfold bind at 1. rewrite for_state_app.
  unfold bind at 1.
  destruct (filter_loop_skips now pre (None, []) w Hpre) as [w1 [E1 P1]].
  rewrite E1. rewrite for_state_cons.
  destruct (filter_body_parsed now card d _ None [] w1 Hr Hp) as [w2 [E2 P2]].
  rewrite E2.
  destruct (filter_loop_spec now post (Some (PStr len, type))
              ([] ++ [make_card card d (PStr len, type)]) w2)
    as [r [w3 [E3 [P3 S3]]]].
  rewrite E3. destruct r as [[period out]|e'|].
  - destruct S3 as [tail [-> _]]. exists tail, w3. unfold ret.
    split; [reflexivity|]. congruence.
  - destruct S3; discriminate.
  - contradiction.
Qed.

(** C10, as the code has it: when the notes of the first task of a batch
    that reaches the recurrence parse do not match the pattern,
    [filter_out_cards] raises [NameError] and sends nothing; the exception
    leaves [main], which sends nothing more and never reaches the second
    phase; and a task whose notes do not match is in the filter's output
    only if the notes of an earlier task of the same batch matched.  A
    first task whose notes match but whose count [int] refuses is another
    matter: both names are bound by then, and the task is appended with
    the digits as its count. *)
Theorem first_unparsable_task_aborts_run :
  (forall (current_time : datetime) (pre post : list raw_card)
          (card : raw_card) (d : datetime) (w : world),
      Forall (fun x => reaches_parse current_time x = None) pre ->
      reaches_parse current_time card = Some d ->
      Text.match_period (rc_desc card) = None ->
      exists w',
        filter_out_cards current_time (pre ++ card :: post) w
        = (Exc NameError, w') /\ puts w' = puts w)
  /\
  (forall (fuel : nat) (req : Requester) (current_time : datetime)
          (done rest : list List) (l : List) (pre post : list raw_card)
          (card : raw_card) (d : datetime) (w w1 w2 : world),
      get_lists req w = (Val (done ++ l :: rest), w1) ->
      (logger INFO "Started to update due dates" ;;
       for_each done
         (update_due_dates fuel req current_time (done ++ l :: rest))) w1
      = (Val tt, w2) ->
      cards_response req (puts w2) (list_identifier l)
      = Some (pre ++ card :: post) ->
      Forall (fun x => reaches_parse current_time x = None) pre ->
      reaches_parse current_time card = Some d ->
      Text.match_period (rc_desc card) = None ->
      exists w',
        main fuel req current_time w = (Exc NameError, w') /\
        puts w' = puts w2)
  /\
  (forall (current_time : datetime) (pre post : list raw_card)
          (card : raw_card) (d : datetime) (w w' : world) (out : list Card),
      reaches_parse current_time card = Some d ->
      Text.match_period (rc_desc card) = None ->
      filter_out_cards current_time (pre ++ card :: post) w = (Val out, w') ->
      exists earlier,
        In earlier pre /\ parsed_period current_time earlier <> None)
  /\
  (forall (current_time : datetime) (pre post : list raw_card)
          (card : raw_card) (d : datetime) (len type : string) (e : exn)
          (w : world),
      Forall (fun x => reaches_parse current_time x = None) pre ->
      reaches_parse current_time card = Some d ->
      Text.match_period (rc_desc card) = Some (len, type) ->
      Text.to_int len = Raise e ->
      exists tail w',
        filter_out_cards current_time (pre ++ card :: post) w
        = (Val (make_card card d (PStr len, type) :: tail), w') /\
        puts w' = puts w).
Proof.
  assert (Hfilter :
    forall now pre post card d w,
      Forall (fun x => reaches_parse now x = None) pre ->
      reaches_parse now card = Some d ->
      Text.match_period (rc_desc card) = None ->
      exists w',
        filter_out_cards now (pre ++ card :: post) w = (Exc NameError, w') /\
        puts w' = puts w).
  { intros now pre post card d w Hpre Hr Hm.
    unfold filter_out_cards. unfold bind at 1. rewrite for_state_app.
    unfold bind at 1.
    destruct (filter_loop_skips now pre (None, []) w Hpre) as [w1 [E1 P1]].
    rewrite E1. rewrite for_state_cons.
    destruct (filter_body_unbound now card d [] w1 Hr Hm) as [w2 [E2 P2]].
    rewrite E2. exists w2. split; [reflexivity|congruence]. }
  split; [exact Hfilter|]. split; [|split; [|exact refused_count_is_kept_as_text]].
  - intros fuel req now done rest l pre post card d w w1 w2
           Hlists Hdone Hcards Hpre Hr Hm.
    unfold main. unfold bind at 1. rewrite Hlists.
    unfold bind at 1. unfold bind at 1 in Hdone.
    destruct (logger INFO "Started to update due dates" w1) as [r0 w0] eqn:Elog.
    unfold logger in Elog. inversion Elog. subst r0. clear Elog.
    unfold bind at 1. unfold for_each at 1. rewrite for_state_app.
    unfold bind at 1. unfold for_each in Hdone. rewrite H1 in *. rewrite Hdone.
    rewrite for_state_cons.
    unfold update_due_dates at 1. unfold bind at 1.
    unfold logger at 1. unfold bind at 1. unfold get_cards at 1.
    simpl puts. rewrite Hcards. unfold bind at 1. unfold logger at 1.
    unfold ret at 1. unfold bind at 1.
    match goal with |- context [filter_out_cards now _ ?w3] =>
      destruct (Hfilter now pre post card d w3 Hpre Hr Hm) as [w' [E P]] end.
    rewrite E. exists w'. split; [reflexivity|]. rewrite P. reflexivity.
  - intros now pre post card d w w' out Hr Hm Hout.
    apply filter_state_after in Hout.
    rewrite for_state_app in Hout. unfold bind in Hout.
    destruct (filter_loop_spec now pre None [] w) as [r [w1 [E1 [_ S1]]]].
    rewrite E1 in Hout. destruct r as [[period acc]|e|]; try discriminate.
    destruct S1 as [tail [_ [_ Hl]]].
    rewrite for_state_cons in Hout.
    destruct period as [p|].
    + symmetry in Hl.
      assert (Hne : fold_left
                      (fun acc card =>
                         match parsed_period now card with
                         | Some p => Some p
                         | None => acc
                         end) pre None <> None) by congruence.
      apply last_parsed_some in Hne. destruct Hne as [Hne|Hne]; [congruence|].
      exact Hne.
    + destruct (filter_body_unbound now card d acc w1 Hr Hm) as [w2 [E2 _]].
      rewrite E2 in Hout. discriminate.
Qed.

(** ** A due date that does not parse, in the second phase *)

Lemma construct_cards_to_order_raises (cards : list raw_card) (card : raw_card)
  (e : exn) :
  In card cards -> Text.strptime (rc_due card) = Raise e ->
  exists e', construct_cards_to_order cards = Raise e'.
Proof.
  induction cards as [|c cards IH]; simpl; [contradiction|].
  intros [->|Hin] He.
  - rewrite He. eauto.
  - destruct (Text.strptime (rc_due c)); eauto.
    destruct (IH Hin He) as [e' ->]. eauto.
Qed.

(** A list whose answer holds a task with an unparsable due date is not
    reordered at all: [order_cards] raises before it sends anything. *)
Lemma order_cards_raises (req : Requester) (l : List) (cards : list raw_card)
  (card : raw_card) (e : exn) (w : world) :
  cards_response req (puts w) (list_identifier l) = Some cards ->
  In card cards -> Text.strptime (rc_due card) = Raise e ->
  exists e' w', order_cards req l w = (Exc e', w') /\ puts w' = puts w.
Proof.
  intros Hc Hin He.
  destruct (construct_cards_to_order_raises cards card e Hin He) as [e' E].
  unfold order_cards, get_cards. run. rewrite Hc. run. rewrite E. simpl.
  eauto.
Qed.

(** C5 fails in the second phase.  On a board whose list holds a task
    without a due date next to a dated one, the first phase skips both
    (neither is tagged), and the second phase raises [TypeError] out of
    [main]: the dated task is never repositioned. *)
Theorem undated_task_aborts_reordering :
  forall fuel : nat,
    main fuel
         (monday_board
            [ no_due_raw;
              {| rc_name := "dated"; rc_id := "c5b";
                 rc_due := Some "2023-02-05T00:00:00.000Z"; rc_desc := "";
                 rc_labels := [] |} ])
         scenario_now empty_world
    = (Exc TypeError,
       {| puts := [];
          log := [ (INFO, "Received lists");
                   (ERROR, "Not all necessary lists were received");
                   (INFO, "Started to update due dates");
                   (INFO, "Start to process list");
                   (INFO, "cards found");
                   (INFO, "Check card");
                   (INFO, "Filtered out, because is not regular");
                   (INFO, "Check card");
                   (INFO, "Filtered out, because is not regular");
                   (INFO, "Start to sort cards");
                   (INFO, "Start to process list");
                   (INFO, "cards found") ] |}).
Proof. intros fuel. vm_compute. reflexivity. Qed.

(** ** The calendar *)

Import Calendar.

Lemma is_leap_true (y : Z) :
  is_leap y = true <-> y mod 4 = 0 /\ (y mod 100 <> 0 \/ y mod 400 = 0).
Proof.
  unfold is_leap. rewrite andb_true_iff, orb_true_iff, negb_true_iff.
  rewrite !Z.eqb_eq, Z.eqb_neq. tauto.
Qed.

Lemma month_cases (m : Z) :
  1 <= m <= 12 ->
  m = 1 \/ m = 2 \/ m = 3 \/ m = 4 \/ m = 5 \/ m = 6 \/
  m = 7 \/ m = 8 \/ m = 9 \/ m = 10 \/ m = 11 \/ m = 12.
Proof. lia. Qed.

Ltac each_month m H :=
  destruct (month_cases m H)
    as [?|[?|[?|[?|[?|[?|[?|[?|[?|[?|[?|?]]]]]]]]]]]; subst m.

Ltac ground_bool e :=
  let v := eval vm_compute in e in
  match v with
  | true => change e with true
  | false => change e with false
  end.

Ltac ground_step :=
  match goal with
  | |- context [idx ?t ?k] =>
      let v := eval vm_compute in (idx t k) in
      match v with
      | Zpos _ => change (idx t k) with v
      | Z0 => change (idx t k) with v
      | Zneg _ => change (idx t k) with v
      end
  | |- context [Z.eqb ?a ?b] => ground_bool (Z.eqb a b)
  | |- context [Z.ltb ?a ?b] => ground_bool (Z.ltb a b)
  end.

Ltac tables :=
  unfold days_in_month, days_before_month in *;
  repeat ground_step; cbn [andb orb negb].

Lemma days_in_month_bounds (y m : Z) :
  1 <= m <= 12 -> 28 <= days_in_month y m <= 31.
Proof.
  intros H. each_month m H; tables; destruct (is_leap y); tables; lia.
Qed.

Lemma days_before_year_succ (y : Z) :
  days_before_year (y + 1)
  = days_before_year y + 365 + (if is_leap y then 1 else 0).
Proof.
  unfold days_before_year.
  destruct (is_leap y) eqn:E.
  - apply is_leap_true in E. replace (y + 1 - 1) with y by lia. lia.
  - assert (H : ~ (y mod 4 = 0 /\ (y mod 100 <> 0 \/ y mod 400 = 0))).
    { rewrite <- is_leap_true. congruence. }
    replace (y + 1 - 1) with y by lia. lia.
Qed.

Lemma days_before_year_mono (a b : Z) :
  a <= b -> days_before_year a <= days_before_year b.
Proof. unfold days_before_year. intros H. lia. Qed.

(** The day of the year of a valid date lies in the year. *)
Lemma day_of_year_bounds (y m d : Z) :
  1 <= m <= 12 -> 1 <= d <= days_in_month y m ->
  1 <= days_before_month y m + d <= 365 + (if is_leap y then 1 else 0).
Proof.
  intros Hm. each_month m Hm; tables; destruct (is_leap y); tables; lia.
Qed.

Lemma days_before_month_next (y m1 m2 : Z) :
  1 <= m1 -> m1 < m2 -> m2 <= 12 ->
  days_before_month y m1 + days_in_month y m1 <= days_before_month y m2.
Proof.
  intros H1 H2 H3.
  assert (Hm1 : 1 <= m1 <= 12) by lia. assert (Hm2 : 1 <= m2 <= 12) by lia.
  each_month m1 Hm1; each_month m2 Hm2; try lia;
    tables; destruct (is_leap y); tables; lia.
Qed.

(** A year written by its place in the 400-, 100- and 4-year cycles. *)
Lemma days_before_year_cycle (a b c e : Z) :
  0 <= b <= 3 -> 0 <= c <= 24 -> 0 <= e <= 3 ->
  days_before_year (400 * a + 100 * b + 4 * c + e + 1)
  = 146097 * a + 36524 * b + 1461 * c + 365 * e.
Proof.
  intros Hb Hc He. unfold days_before_year.
  replace (400 * a + 100 * b + 4 * c + e + 1 - 1)
    with (400 * a + 100 * b + 4 * c + e) by lia.
  lia.
Qed.

Lemma is_leap_cycle (a b c e : Z) :
  0 <= b <= 3 -> 0 <= c <= 24 -> 0 <= e <= 3 ->
  is_leap (400 * a + 100 * b + 4 * c + e + 1)
  = (e =? 3) && (negb (c =? 24) || (b =? 3)).
Proof.
  intros Hb Hc He.
  destruct ((e =? 3) && (negb (c =? 24) || (b =? 3))) eqn:E.
  - apply is_leap_true.
    apply andb_true_iff in E. destruct E as [E1 E2].
    apply Z.eqb_eq in E1. apply orb_true_iff in E2.
    rewrite negb_true_iff, Z.eqb_neq, Z.eqb_eq in E2. lia.
  - destruct (is_leap (400 * a + 100 * b + 4 * c + e + 1)) eqn:L; auto.
    apply is_leap_true in L.
    apply andb_false_iff in E. rewrite Z.eqb_neq, orb_false_iff in E.
    rewrite negb_false_iff, Z.eqb_eq, Z.eqb_neq in E. lia.
Qed.

(** [ord2ymd] inverts [ymd2ord] on the ordinals of the calendar. *)
Lemma ord2ymd_spec (n : Z) :
  1 <= n <= MAXORDINAL ->
  exists y m d,
    ord2ymd n = (y, m, d) /\
    MINYEAR <= y <= MAXYEAR /\ 1 <= m <= 12 /\
    1 <= d <= days_in_month y m /\ ymd2ord y m d = n.
Proof.
  unfold MAXORDINAL, MINYEAR, MAXYEAR. intros Hn. unfold ord2ymd.
  unfold DI400Y, DI100Y, DI4Y.
  pose proof (Z.div_mod (n - 1) 146097 ltac:(lia)) as E400.
  pose proof (Z.mod_pos_bound (n - 1) 146097 ltac:(lia)) as B400.
  set (n400 := (n - 1) / 146097) in *.
  set (r400 := (n - 1) mod 146097) in *.
  pose proof (Z.div_mod r400 36524 ltac:(lia)) as E100.
  pose proof (Z.mod_pos_bound r400 36524 ltac:(lia)) as B100.
  set (n100 := r400 / 36524) in *.
  set (r100 := r400 mod 36524) in *.
  pose proof (Z.div_mod r100 1461 ltac:(lia)) as E4.
  pose proof (Z.mod_pos_bound r100 1461 ltac:(lia)) as B4.
  set (n4 := r100 / 1461) in *.
  set (r4 := r100 mod 1461) in *.
  pose proof (Z.div_mod r4 365 ltac:(lia)) as E1.
  pose proof (Z.mod_pos_bound r4 365 ltac:(lia)) as B1.
  set (n1 := r4 / 365) in *.
  set (r1 := r4 mod 365) in *.
  clearbody n400 r400 n100 r100 n4 r4 n1 r1.
  assert (H100 : 0 <= n100 <= 4) by lia.
  assert (H4 : 0 <= n4 <= 24) by lia.
  assert (H1 : 0 <= n1 <= 4) by lia.
  assert (H400 : 0 <= n400 <= 24) by lia.
  destruct ((n1 =? 4) || (n100 =? 4)) eqn:Hlast.
  - (* the last day of a leap year *)
    apply orb_true_iff in Hlast. rewrite !Z.eqb_eq in Hlast.
    eexists _, _, _. split; [reflexivity|].
    set (Y := n400 * 400 + 1 + (n100 * 100 + n4 * 4 + n1) - 1).
    assert (HY : Y = 400 * n400 + 100 * n100 + 4 * n4 + n1) by (unfold Y; lia).
    clearbody Y.
    assert (Hleap : is_leap Y = true) by (apply is_leap_true; lia).
    unfold ymd2ord. tables. rewrite Hleap. tables.
    unfold days_before_year.
    repeat split; try lia.
  - (* any other day: the year, then the month from the estimate *)
    apply orb_false_iff in Hlast. rewrite !Z.eqb_neq in Hlast.
    cbv zeta.
    set (Y := n400 * 400 + 1 + (n100 * 100 + n4 * 4 + n1)).
    assert (HY : Y = 400 * n400 + 100 * n100 + 4 * n4 + n1 + 1)
      by (unfold Y; lia).
    clearbody Y.
    pose proof (is_leap_cycle n400 n100 n4 n1
                  ltac:(lia) ltac:(lia) ltac:(lia)) as HL.
    pose proof (days_before_year_cycle n400 n100 n4 n1
                  ltac:(lia) ltac:(lia) ltac:(lia)) as HD.
    rewrite <- HY in HL, HD. rewrite <- HL.
    rewrite Z.shiftr_div_pow2 by lia. change (2 ^ 5) with 32.
    pose proof (Z.div_mod (r1 + 50) 32 ltac:(lia)) as Em.
    pose proof (Z.mod_pos_bound (r1 + 50) 32 ltac:(lia)) as Bm.
    set (mo := (r1 + 50) / 32) in *. clearbody mo.
    assert (Hmo : 1 <= mo <= 12) by lia.
    each_month mo Hmo; tables; destruct (is_leap Y) eqn:L; tables;
      match goal with
      | |- context [?a <? ?b] => destruct (Z.ltb_spec a b)
      end;
      (eexists _, _, _; split; [reflexivity|];
       unfold ymd2ord; tables; rewrite ?L; tables; rewrite HD;
       repeat split; lia).
Qed.

Lemma ymd2ord_year_bounds (y m d : Z) :
  1 <= m <= 12 -> 1 <= d <= days_in_month y m ->
  days_before_year y < ymd2ord y m d <= days_before_year (y + 1).
Proof.
  intros Hm Hd. pose proof (day_of_year_bounds y m d Hm Hd).
  rewrite days_before_year_succ. unfold ymd2ord. lia.
Qed.

(** [ymd2ord] is strictly increasing in the order of dates. *)
Lemma ymd2ord_lt_year (y1 m1 d1 y2 m2 d2 : Z) :
  1 <= m1 <= 12 -> 1 <= d1 <= days_in_month y1 m1 ->
  1 <= m2 <= 12 -> 1 <= d2 <= days_in_month y2 m2 ->
  y1 < y2 -> ymd2ord y1 m1 d1 < ymd2ord y2 m2 d2.
Proof.
  intros Hm1 Hd1 Hm2 Hd2 Hy.
  pose proof (ymd2ord_year_bounds y1 m1 d1 Hm1 Hd1).
  pose proof (ymd2ord_year_bounds y2 m2 d2 Hm2 Hd2).
  pose proof (days_before_year_mono (y1 + 1) y2 ltac:(lia)). lia.
Qed.

Lemma ymd2ord_lt_month (y m1 d1 m2 d2 : Z) :
  1 <= m1 <= 12 -> 1 <= d1 <= days_in_month y m1 ->
  1 <= m2 <= 12 -> 1 <= d2 <= days_in_month y m2 ->
  m1 < m2 -> ymd2ord y m1 d1 < ymd2ord y m2 d2.
Proof.
  intros Hm1 Hd1 Hm2 Hd2 Hm.
  pose proof (days_before_month_next y m1 m2 ltac:(lia) Hm ltac:(lia)).
  unfold ymd2ord. lia.
Qed.

Lemma ymd2ord_range (y m d : Z) :
  valid_date y m d -> 1 <= ymd2ord y m d <= MAXORDINAL.
Proof.
  unfold valid_date, MINYEAR, MAXYEAR, MAXORDINAL. intros [Hy [Hm Hd]].
  pose proof (ymd2ord_year_bounds y m d Hm Hd).
  pose proof (days_before_year_mono 1 y ltac:(lia)).
  pose proof (days_before_year_mono (y + 1) 10000 ltac:(lia)).
  change (days_before_year 1) with 0 in *.
  change (days_before_year 10000) with 3652059 in *. lia.
Qed.

Lemma ymd2ord_injective (y1 m1 d1 y2 m2 d2 : Z) :
  1 <= m1 <= 12 -> 1 <= d1 <= days_in_month y1 m1 ->
  1 <= m2 <= 12 -> 1 <= d2 <= days_in_month y2 m2 ->
  ymd2ord y1 m1 d1 = ymd2ord y2 m2 d2 -> (y1, m1, d1) = (y2, m2, d2).
Proof.
  intros Hm1 Hd1 Hm2 Hd2 E.
  assert (y1 = y2).
  { destruct (Z.lt_trichotomy y1 y2) as [H|[H|H]]; auto.
    - pose proof (ymd2ord_lt_year y1 m1 d1 y2 m2 d2 Hm1 Hd1 Hm2 Hd2 H). lia.
    - pose proof (ymd2ord_lt_year y2 m2 d2 y1 m1 d1 Hm2 Hd2 Hm1 Hd1 H). lia. }
  subst y2.
  assert (m1 = m2).
  { destruct (Z.lt_trichotomy m1 m2) as [H|[H|H]]; auto.
    - pose proof (ymd2ord_lt_month y1 m1 d1 m2 d2 Hm1 Hd1 Hm2 Hd2 H). lia.
    - pose proof (ymd2ord_lt_month y1 m2 d2 m1 d1 Hm2 Hd2 Hm1 Hd1 H). lia. }
  subst m2. unfold ymd2ord in E. f_equal. lia.
Qed.

Lemma ord2ymd_ymd2ord (y m d : Z) :
  valid_date y m d -> ord2ymd (ymd2ord y m d) = (y, m, d).
Proof.
  intros Hv. pose proof (ymd2ord_range y m d Hv) as Hr.
  destruct (ord2ymd_spec _ Hr) as [y' [m' [d' [E [Hy [Hm [Hd Ho]]]]]]].
  rewrite E. destruct Hv as [_ [Hm0 Hd0]].
  apply ymd2ord_injective; auto.
Qed.

Lemma valid_dateb_spec (y m d : Z) :
  valid_dateb y m d = true <-> valid_date y m d.
Proof.
  unfold valid_dateb, valid_date.
  rewrite !andb_true_iff, !Z.leb_le. tauto.
Qed.

(** ** Timestamps as microsecond counts *)

Import Calendar.

Lemma valid_inv (d : datetime) :
  valid d ->
  valid_date (year d) (month d) (day d) /\
  0 <= hour d <= 23 /\ 0 <= minute d <= 59 /\ 0 <= second d <= 59 /\
  0 <= microsecond d <= 999999.
Proof.
  unfold valid, validb. rewrite !andb_true_iff, !Z.leb_le, valid_dateb_spec.
  tauto.
Qed.

Lemma valid_intro (d : datetime) :
  valid_date (year d) (month d) (day d) ->
  0 <= hour d <= 23 -> 0 <= minute d <= 59 -> 0 <= second d <= 59 ->
  0 <= microsecond d <= 999999 -> valid d.
Proof.
  unfold valid, validb. rewrite !andb_true_iff, !Z.leb_le, valid_dateb_spec.
  tauto.
Qed.

Lemma to_us_range (d : datetime) :
  valid d -> US_PER_DAY <= to_us d < (MAXORDINAL + 1) * US_PER_DAY.
Proof.
  intros Hv. apply valid_inv in Hv. destruct Hv as [Hd [Hh [Hm [Hs Hu]]]].
  pose proof (ymd2ord_range _ _ _ Hd) as Ho.
  unfold to_us, toordinal, US_PER_DAY, MAXORDINAL in *. lia.
Qed.

Lemma of_us_to_us (d : datetime) : valid d -> of_us (to_us d) = d.
Proof.
  intros Hv. apply valid_inv in Hv. destruct Hv as [Hd [Hh [Hm [Hs Hu]]]].
  unfold of_us, to_us, toordinal, US_PER_DAY.
  set (o := ymd2ord (year d) (month d) (day d)).
  set (t := (((o * 24 + hour d) * 60 + minute d) * 60 + second d) * 1000000
            + microsecond d).
  assert (E1 : t / 86400000000 = o) by (unfold t; lia).
  assert (E2 : t mod 86400000000
               = ((hour d * 60 + minute d) * 60 + second d) * 1000000
                 + microsecond d) by (unfold t; lia).
  rewrite E1, E2. unfold o. rewrite ord2ymd_ymd2ord by exact Hd.
  set (r := ((hour d * 60 + minute d) * 60 + second d) * 1000000
            + microsecond d).
  assert (E3 : r / 1000000 = (hour d * 60 + minute d) * 60 + second d)
    by (unfold r; lia).
  assert (E4 : r mod 1000000 = microsecond d) by (unfold r; lia).
  rewrite E3, E4.
  set (s := (hour d * 60 + minute d) * 60 + second d).
  assert (E5 : s / 3600 = hour d) by (unfold s; lia).
  assert (E6 : s mod 3600 = minute d * 60 + second d) by (unfold s; lia).
  rewrite E5, E6.
  assert (E7 : (minute d * 60 + second d) / 60 = minute d) by lia.
  assert (E8 : (minute d * 60 + second d) mod 60 = second d) by lia.
  rewrite E7, E8. destruct d. reflexivity.
Qed.

Lemma to_us_of_us (t : Z) :
  US_PER_DAY <= t < (MAXORDINAL + 1) * US_PER_DAY ->
  valid (of_us t) /\ to_us (of_us t) = t.
Proof.
  unfold US_PER_DAY, MAXORDINAL. intros Ht.
  assert (Ho : 1 <= t / 86400000000 <= MAXORDINAL)
    by (unfold MAXORDINAL; lia).
  destruct (ord2ymd_spec _ Ho) as [y [m [d [E [Hy [Hm [Hd Hord]]]]]]].
  unfold of_us, US_PER_DAY. rewrite E.
  pose proof (Z.div_mod t 86400000000 ltac:(lia)) as D1.
  pose proof (Z.mod_pos_bound t 86400000000 ltac:(lia)) as B1.
  set (q := t / 86400000000) in *. set (r := t mod 86400000000) in *.
  clearbody q r.
  pose proof (Z.div_mod r 1000000 ltac:(lia)) as D2.
  pose proof (Z.mod_pos_bound r 1000000 ltac:(lia)) as B2.
  set (secs := r / 1000000) in *. set (us := r mod 1000000) in *.
  clearbody secs us.
  pose proof (Z.div_mod secs 3600 ltac:(lia)) as D3.
  pose proof (Z.mod_pos_bound secs 3600 ltac:(lia)) as B3.
  set (h := secs / 3600) in *. set (rem := secs mod 3600) in *.
  clearbody h rem.
  pose proof (Z.div_mod rem 60 ltac:(lia)) as D4.
  pose proof (Z.mod_pos_bound rem 60 ltac:(lia)) as B4.
  set (mi := rem / 60) in *. set (s := rem mod 60) in *.
  clearbody mi s.
  split.
  - apply valid_intro; simpl; try lia. unfold valid_date. auto.
  - unfold to_us, toordinal. simpl. rewrite Hord. lia.
Qed.

(** The order of valid timestamps is the order of their microsecond
    counts. *)
Lemma ltb_to_us (a b : datetime) :
  valid a -> valid b -> ltb a b = (to_us a <? to_us b).
Proof.
  intros Ha Hb. apply valid_inv in Ha, Hb.
  destruct Ha as [[_ [Hma Hda]] [Hha [Hmia [Hsa Hua]]]].
  destruct Hb as [[_ [Hmb Hdb]] [Hhb [Hmib [Hsb Hub]]]].
  unfold ltb, cmp, fields, to_us, toordinal. simpl.
  destruct (Z.compare_spec (year a) (year b)) as [Ey|Ey|Ey].
  - rewrite Ey in *.
    destruct (Z.compare_spec (month a) (month b)) as [Em|Em|Em].
    + rewrite Em in *.
      unfold ymd2ord.
      destruct (Z.compare_spec (day a) (day b));
        destruct (Z.compare_spec (hour a) (hour b));
        destruct (Z.compare_spec (minute a) (minute b));
        destruct (Z.compare_spec (second a) (second b));
        destruct (Z.compare_spec (microsecond a) (microsecond b));
        symmetry; try (apply Z.ltb_lt; lia); apply Z.ltb_ge; lia.
    + pose proof (ymd2ord_lt_month (year b) (month a) (day a)
                    (month b) (day b) Hma Hda Hmb Hdb Em).
      symmetry. apply Z.ltb_lt. lia.
    + pose proof (ymd2ord_lt_month (year b) (month b) (day b)
                    (month a) (day a) Hmb Hdb Hma Hda Em).
      symmetry. apply Z.ltb_ge. lia.
  - pose proof (ymd2ord_lt_year (year a) (month a) (day a)
                  (year b) (month b) (day b) Hma Hda Hmb Hdb Ey).
    symmetry. apply Z.ltb_lt. lia.
  - pose proof (ymd2ord_lt_year (year b) (month b) (day b)
                  (year a) (month a) (day a) Hmb Hdb Hma Hda Ey).
    symmetry. apply Z.ltb_ge. lia.
Qed.

(** ** Deltas *)

Import Relativedelta.

Lemma carry_spec (x base x' c : Z) :
  1 < base -> carry x base = (x', c) ->
  x' + c * base = x /\ Z.abs x' < base /\
  (0 <= x -> 0 <= x' /\ 0 <= c) /\ (x <= 0 -> x' <= 0 /\ c <= 0).
Proof.
  intros Hb. unfold carry.
  destruct (Z.abs x >? base - 1) eqn:E.
  - pose proof (proj1 (Z.gtb_lt _ _) E) as Habs. clear E.
    destruct x as [|p|p]; simpl Z.sgn; intros H; inversion H; subst; clear H.
    + simpl in Habs. lia.
    + rewrite !Z.mul_1_r.
      pose proof (Z.div_mod (Z.pos p) base ltac:(lia)).
      pose proof (Z.mod_pos_bound (Z.pos p) base ltac:(lia)).
      pose proof (Z.div_pos (Z.pos p) base ltac:(lia) ltac:(lia)).
      repeat split; try lia.
    + replace (Z.neg p * -1) with (Z.pos p) by lia.
      pose proof (Z.div_mod (Z.pos p) base ltac:(lia)).
      pose proof (Z.mod_pos_bound (Z.pos p) base ltac:(lia)).
      pose proof (Z.div_pos (Z.pos p) base ltac:(lia) ltac:(lia)).
      repeat split; try lia.
  - intros H. inversion H. subst. rewrite Z.gtb_ltb in E.
    apply Z.ltb_ge in E. repeat split; lia.
Qed.

(** Normalising a delta changes neither its time part nor its calendar
    part, and leaves fewer than twelve months. *)
Lemma fix_spec (r : relativedelta) :
  delta_us (fix_ r) = delta_us r /\
  delta_months (fix_ r) = delta_months r /\
  Z.abs (months (fix_ r)) <= 11 /\
  (0 <= months r -> 0 <= years r -> 0 <= months (fix_ r) /\ 0 <= years (fix_ r)) /\
  (months r <= 0 -> years r <= 0 -> months (fix_ r) <= 0 /\ years (fix_ r) <= 0) /\
  leapdays (fix_ r) = leapdays r /\
  abs_year (fix_ r) = abs_year r /\ abs_month (fix_ r) = abs_month r /\
  abs_day (fix_ r) = abs_day r /\ abs_weekday (fix_ r) = abs_weekday r /\
  abs_hour (fix_ r) = abs_hour r /\ abs_minute (fix_ r) = abs_minute r /\
  abs_second (fix_ r) = abs_second r /\
  abs_microsecond (fix_ r) = abs_microsecond r.
Proof.
  unfold fix_, delta_us, delta_months, timedelta_us.
  destruct (carry (microseconds r) 1000000) as [us c1] eqn:E1.
  destruct (carry (seconds r + c1) 60) as [s c2] eqn:E2.
  destruct (carry (minutes r + c2) 60) as [mi c3] eqn:E3.
  destruct (carry (hours r + c3) 24) as [h c4] eqn:E4.
  destruct (carry (months r) 12) as [mo c5] eqn:E5.
  apply carry_spec in E1, E2, E3, E4, E5; try lia.
  cbn [years months days leapdays hours minutes seconds microseconds
       abs_year abs_month abs_day abs_weekday abs_hour abs_minute abs_second
       abs_microsecond].
  repeat split; try reflexivity; lia.
Qed.

Lemma relative_only_fix (r : relativedelta) :
  relative_only r -> relative_only (fix_ r).
Proof.
  unfold relative_only. pose proof (fix_spec r) as H.
  intuition congruence.
Qed.

Lemma unit_us_cases (u : string) (q : Z) :
  unit_us u = Some q ->
  (u = "weeks" /\ q = 604800000000) \/ (u = "days" /\ q = 86400000000) \/
  (u = "hours" /\ q = 3600000000) \/ (u = "minutes" /\ q = 60000000) \/
  (u = "seconds" /\ q = 1000000) \/ (u = "microseconds" /\ q = 1).
Proof.
  unfold unit_us.
  repeat match goal with
         | |- context [String.eqb u ?s] =>
             destruct (String.eqb_spec u s);
             [intros H; inversion H; subst; tauto|]
         end.
  discriminate.
Qed.

Lemma unit_months_cases (u : string) (q : Z) :
  unit_months u = Some q ->
  (u = "years" /\ q = 12) \/ (u = "months" /\ q = 1).
Proof.
  unfold unit_months.
  repeat match goal with
         | |- context [String.eqb u ?s] =>
             destruct (String.eqb_spec u s);
             [intros H; inversion H; subst; tauto|]
         end.
  discriminate.
Qed.

Lemma zero_calendar_part (r : relativedelta) :
  delta_months r = 0 -> Z.abs (months r) <= 11 -> months r = 0 /\ years r = 0.
Proof. unfold delta_months. lia. Qed.

(** A rule in a unit of fixed length is a delta of that many microseconds. *)
Lemma kw_fixed (u : string) (q n : Z) :
  unit_us u = Some q ->
  exists rd,
    relativedelta_kw u n = Ok rd /\ relative_only rd /\
    months rd = 0 /\ years rd = 0 /\ delta_us rd = n * q.
Proof.
  intros Hu. apply unit_us_cases in Hu.
  assert (Hrel : forall y mo d ld h mi s us,
             ld = 0 ->
             relative_only (mkrd y mo d ld h mi s us
                                 None None None None None None None None)).
  { intros. unfold relative_only. simpl. tauto. }
  destruct Hu as [[-> ->]|[[-> ->]|[[-> ->]|[[-> ->]|[[-> ->]|[-> ->]]]]]];
    (eexists; split; [reflexivity|];
     match goal with
     | |- relative_only (fix_ ?r) /\ _ =>
         pose proof (fix_spec r) as (H1 & H2 & H3 & _);
         pose proof (zero_calendar_part (fix_ r)) as H4;
         split; [apply relative_only_fix, Hrel; reflexivity|];
         rewrite H1;
         unfold delta_months, delta_us, timedelta_us in *;
         cbn [years months days leapdays hours minutes seconds microseconds]
           in *; lia
     end).
Qed.

(** A rule in months or years is a delta of that many months. *)
Lemma kw_calendar (u : string) (q n : Z) :
  unit_months u = Some q ->
  exists rd,
    relativedelta_kw u n = Ok rd /\ relative_only rd /\
    delta_us rd = 0 /\ delta_months rd = n * q /\ Z.abs (months rd) <= 11.
Proof.
  intros Hu. apply unit_months_cases in Hu.
  assert (Hrel : forall y mo d ld h mi s us,
             ld = 0 ->
             relative_only (mkrd y mo d ld h mi s us
                                 None None None None None None None None)).
  { intros. unfold relative_only. simpl. tauto. }
  destruct Hu as [[-> ->]|[-> ->]];
    (eexists; split; [reflexivity|];
     match goal with
     | |- relative_only (fix_ ?r) /\ _ =>
         pose proof (fix_spec r) as (H1 & H2 & H3 & _);
         split; [apply relative_only_fix, Hrel; reflexivity|];
         rewrite H1, H2;
         unfold delta_months, delta_us, timedelta_us in *;
         cbn [years months days leapdays hours minutes seconds microseconds]
           in *; lia
     end).
Qed.

Lemma fits_int_spec (x : Z) :
  fits_int x = true <-> -2147483648 <= x <= 2147483647.
Proof. unfold fits_int. rewrite andb_true_iff, !Z.leb_le. tauto. Qed.

(** The fields of a valid timestamp fit C [int]s. *)
Lemma valid_fits (d : datetime) :
  valid d ->
  forallb fits_int [year d; month d; day d; hour d; minute d; second d;
                    microsecond d] = true.
Proof.
  intros Hv. pose proof (valid_inv d Hv) as [[Hy [Hm Hd]] [Hh [Hmi [Hs Hus]]]].
  pose proof (days_in_month_bounds (year d) (month d) Hm).
  unfold MINYEAR, MAXYEAR in Hy. cbn [forallb].
  rewrite !andb_true_iff, !fits_int_spec. repeat split; lia.
Qed.

Lemma make_valid (d : datetime) :
  valid d ->
  Datetime.make (year d) (month d) (day d) (hour d) (minute d) (second d)
                (microsecond d) = Ok d.
Proof.
  intros Hv. unfold Datetime.make. rewrite (valid_fits d Hv).
  replace (mk (year d) (month d) (day d) (hour d) (minute d) (second d)
              (microsecond d)) with d by (destruct d; reflexivity).
  unfold valid in Hv. now rewrite Hv.
Qed.

Lemma make_ok_valid (y mo d h mi s us : Z) (r : datetime) :
  Datetime.make y mo d h mi s us = Ok r -> valid r /\ r = mk y mo d h mi s us.
Proof.
  unfold Datetime.make.
  destruct (forallb fits_int [y; mo; d; h; mi; s; us]); [|discriminate].
  destruct (validb (mk y mo d h mi s us)) eqn:E; [|discriminate].
  intros H. inversion H. subst. auto.
Qed.

(** What the constructor raises: [OverflowError] exactly when a field
    does not fit a C [int]. *)
Lemma make_raises (y mo d h mi s us : Z) (e : exn) :
  Datetime.make y mo d h mi s us = Raise e ->
  e = (if forallb fits_int [y; mo; d; h; mi; s; us]
       then ValueError else OverflowError) /\
  (forallb fits_int [y; mo; d; h; mi; s; us] = true ->
   validb (mk y mo d h mi s us) = false).
Proof.
  unfold Datetime.make.
  destruct (forallb fits_int [y; mo; d; h; mi; s; us]).
  - destruct (validb (mk y mo d h mi s us)); [discriminate|].
    intros H. inversion H. auto.
  - intros H. inversion H. split; [reflexivity|discriminate].
Qed.

Lemma add_us_zero (d : datetime) : valid d -> add_us d 0 = Ok d.
Proof.
  intros Hv. unfold add_us. rewrite Z.add_0_r.
  pose proof (to_us_range d Hv) as Hr. unfold US_PER_DAY, MAXORDINAL in *.
  replace ((0 <? to_us d / 86400000000)
           && (to_us d / 86400000000 <=? 3652059)) with true.
  - now rewrite of_us_to_us.
  - symmetry. apply andb_true_iff. rewrite Z.ltb_lt, Z.leb_le. lia.
Qed.

Lemma add_months_zero (d : datetime) : valid d -> add_months d 0 = Ok d.
Proof.
  intros Hv. pose proof (valid_inv d Hv) as [[Hy [Hm Hd]] _].
  unfold add_months.
  replace ((12 * year d + (month d - 1) + 0) / 12) with (year d) by lia.
  replace ((12 * year d + (month d - 1) + 0) mod 12 + 1) with (month d) by lia.
  rewrite Z.min_r by lia. now apply make_valid.
Qed.

(** One addition of a relative delta: the months first, with the day
    clipped, then the time part. *)
Lemma radd_relative (d : datetime) (rd : relativedelta) :
  valid d -> relative_only rd -> Z.abs (months rd) <= 11 ->
  radd d rd
  = match add_months d (delta_months rd) with
    | Ok d1 => add_us d1 (delta_us rd)
    | Raise e => Raise e
    end.
Proof.
  intros Hv (Hld & Hy & Hmo & Hd & Hwd & Hh & Hmi & Hs & Hus) Habs.
  pose proof (valid_inv d Hv) as [[Hyear [Hmonth Hday]] _].
  unfold radd, add_months, delta_months, delta_us.
  rewrite Hld, Hy, Hmo, Hd, Hwd, Hh, Hmi, Hs, Hus.
  cbn [or_else given].
  replace (negb (months rd =? 0)
           && negb ((1 <=? Z.abs (months rd)) && (Z.abs (months rd) <=? 12)))
    with false.
  2:{ symmetry. destruct (Z.eqb_spec (months rd) 0); [reflexivity|].
      cbn [negb andb]. apply negb_false_iff, andb_true_iff.
      rewrite !Z.leb_le. lia. }
  assert (E : (if months rd =? 0 then (year d + years rd, month d)
               else if 12 <? month d + months rd
                    then (year d + years rd + 1, month d + months rd - 12)
                    else if month d + months rd <? 1
                         then (year d + years rd - 1, month d + months rd + 12)
                         else (year d + years rd, month d + months rd))
              = ((12 * year d + (month d - 1) + (12 * years rd + months rd)) / 12,
                 (12 * year d + (month d - 1) + (12 * years rd + months rd))
                   mod 12 + 1)).
  { destruct (Z.eqb_spec (months rd) 0) as [E0|E0].
    - f_equal; lia.
    - destruct (Z.ltb_spec 12 (month d + months rd)).
      + f_equal; lia.
      + destruct (Z.ltb_spec (month d + months rd) 1); f_equal; lia. }
  rewrite E. clear E.
  set (t := 12 * year d + (month d - 1) + (12 * years rd + months rd)).
  replace (negb ((1 <=? t mod 12 + 1) && (t mod 12 + 1 <=? 12))) with false.
  2:{ symmetry. apply negb_false_iff, andb_true_iff. rewrite !Z.leb_le. lia. }
  change (0 =? 0) with true. cbn [negb andb].
  destruct (Datetime.make (t / 12) (t mod 12 + 1)
              (Z.min (Calendar.days_in_month (t / 12) (t mod 12 + 1)) (day d))
              (hour d) (minute d) (second d) (microsecond d)) as [d1|e];
    [|reflexivity].
  destruct (add_us d1 _); reflexivity.
Qed.

Lemma radd_fixed (d : datetime) (rd : relativedelta) :
  valid d -> relative_only rd -> months rd = 0 -> years rd = 0 ->
  radd d rd = add_us d (delta_us rd).
Proof.
  intros Hv Hrel Hm Hy. rewrite radd_relative; auto; [|lia].
  unfold delta_months. rewrite Hm, Hy. simpl. now rewrite add_months_zero.
Qed.

Lemma radd_calendar (d : datetime) (rd : relativedelta) :
  valid d -> relative_only rd -> Z.abs (months rd) <= 11 -> delta_us rd = 0 ->
  radd d rd = add_months d (delta_months rd).
Proof.
  intros Hv Hrel Habs Hus. rewrite radd_relative; auto. rewrite Hus.
  destruct (add_months d (delta_months rd)) as [d1|e] eqn:E; [|reflexivity].
  apply make_ok_valid in E. destruct E as [Hv1 _]. now apply add_us_zero.
Qed.

(** ** The advancer on units of fixed length *)

Lemma add_us_in_range (d : datetime) (delta : Z) :
  valid d -> in_range (to_us d + delta) ->
  add_us d delta = Ok (of_us (to_us d + delta)) /\
  valid (of_us (to_us d + delta)) /\
  to_us (of_us (to_us d + delta)) = to_us d + delta.
Proof.
  intros Hv Hr. split; [|now apply to_us_of_us].
  unfold add_us. unfold in_range, US_PER_DAY, MAXORDINAL in *.
  replace ((0 <? (to_us d + delta) / 86400000000)
           && ((to_us d + delta) / 86400000000 <=? 3652059)) with true;
    [reflexivity|].
  symmetry. apply andb_true_iff. rewrite Z.ltb_lt, Z.leb_le. lia.
Qed.

Lemma add_us_out_of_range (d : datetime) (delta : Z) :
  ~ in_range (to_us d + delta) -> add_us d delta = Raise OverflowError.
Proof.
  intros Hr. unfold add_us. unfold in_range, US_PER_DAY, MAXORDINAL in *.
  replace ((0 <? (to_us d + delta) / 86400000000)
           && ((to_us d + delta) / 86400000000 <=? 3652059)) with false;
    [reflexivity|].
  symmetry. apply andb_false_iff. rewrite Z.ltb_ge, Z.leb_gt. lia.
Qed.

Lemma add_us_ok (d r : datetime) (delta : Z) :
  valid d -> add_us d delta = Ok r ->
  valid r /\ to_us r = to_us d + delta /\ in_range (to_us d + delta).
Proof.
  intros Hv H.
  assert (Hr : in_range (to_us d + delta)).
  { destruct (Z_le_dec US_PER_DAY (to_us d + delta));
      destruct (Z_lt_dec (to_us d + delta) ((MAXORDINAL + 1) * US_PER_DAY));
      try (split; assumption);
      rewrite add_us_out_of_range in H by (unfold in_range; lia);
      discriminate. }
  destruct (add_us_in_range d delta Hv Hr) as [E [Hv' Ht]].
  rewrite E in H. inversion H. subst. auto.
Qed.

Lemma advance_fixed_loop (now : datetime) (card : Card) (rd : relativedelta)
  (c p : Z) :
  valid now ->
  period_len card = PInt c ->
  relativedelta_kw (period_type card) c = Ok rd ->
  relative_only rd -> months rd = 0 -> years rd = 0 -> delta_us rd = p ->
  0 < p ->
  forall (k : nat) (d : datetime),
    valid d ->
    to_us now <= to_us d + Z.of_nat k * p ->
    to_us d + (Z.of_nat k - 1) * p < to_us now ->
    forall fuel, (k <= fuel)%nat ->
      advance fuel now card d
      = if to_us d + Z.of_nat k * p <? (MAXORDINAL + 1) * US_PER_DAY
        then Val (of_us (to_us d + Z.of_nat k * p))
        else Exc OverflowError.
Proof.
  intros Hnow Hlen Hkw Hrel Hm Hy Hus Hp.
  pose proof (to_us_range now Hnow) as Rnow.
  induction k as [|k IH]; intros d Hv Hge Hlt fuel Hfuel.
  - pose proof (to_us_range d Hv) as Rd.
    rewrite advance_done.
    + replace (to_us d + Z.of_nat 0 * p) with (to_us d) by lia.
      rewrite of_us_to_us by exact Hv.
      destruct (Z.ltb_spec (to_us d) ((MAXORDINAL + 1) * US_PER_DAY));
        [reflexivity|lia].
    + rewrite ltb_to_us by assumption. apply Z.ltb_ge. lia.
  - destruct fuel as [|fuel]; [lia|].
    assert (Hbefore : ltb d now = true).
    { rewrite ltb_to_us by assumption. apply Z.ltb_lt. nia. }
    pose proof (to_us_range d Hv) as Rd.
    pose proof (radd_fixed d rd Hv Hrel Hm Hy) as Hradd. rewrite Hus in Hradd.
    rewrite <- (add_period_int card c rd d Hlen Hkw) in Hradd.
    destruct (Z_lt_dec (to_us d + p) ((MAXORDINAL + 1) * US_PER_DAY)) as [Hin|Hout].
    + assert (Hr : in_range (to_us d + p)) by (unfold in_range in *; lia).
      destruct (add_us_in_range d p Hv Hr) as [E [Hv' Ht]].
      rewrite E in Hradd.
      rewrite (advance_step fuel now card d _ Hbefore Hradd).
      rewrite (IH (of_us (to_us d + p)) Hv') by (rewrite ?Ht; lia).
      rewrite Ht.
      replace (to_us d + p + Z.of_nat k * p)
        with (to_us d + Z.of_nat (S k) * p) by lia.
      reflexivity.
    + rewrite add_us_out_of_range in Hradd by (unfold in_range; lia).
      rewrite (advance_raise fuel now card d _ Hbefore Hradd).
      destruct (Z.ltb_spec (to_us d + Z.of_nat (S k) * p)
                           ((MAXORDINAL + 1) * US_PER_DAY));
        [nia|reflexivity].
Qed.

Lemma neg_spec (rd : relativedelta) :
  relative_only rd ->
  relative_only (neg rd) /\ delta_us (neg rd) = - delta_us rd /\
  delta_months (neg rd) = - delta_months rd /\ Z.abs (months (neg rd)) <= 11.
Proof.
  intros Hrel. unfold neg.
  match goal with |- relative_only (fix_ ?r) /\ _ =>
    pose proof (fix_spec r) as (H1 & H2 & H3 & _); split;
    [apply relative_only_fix; unfold relative_only in *; simpl; tauto|];
    rewrite H1, H2 end.
  unfold delta_us, delta_months, timedelta_us.
  cbn [years months days leapdays hours minutes seconds microseconds].
  repeat split; lia.
Qed.

(** The advancer on a unit of fixed length: [k] additions, with [k] the
    least number that reaches [now]. *)
Lemma advancer_fixed_units (now : datetime) (card : Card)
  (delta : relativedelta) (n q : Z) :
  valid (due card) -> valid now -> ltb (due card) now = true ->
  period_len card = PInt n -> 0 < n ->
  relativedelta_kw (period_type card) n = Ok delta ->
  unit_us (period_type card) = Some q ->
  (exists (k : nat) (r r0 : datetime) (dk : relativedelta),
      (1 <= k)%nat /\
      (forall fuel, (k <= fuel)%nat ->
                    advance fuel now card (due card) = Val r) /\
      relativedelta_kw (period_type card) (Z.of_nat k * n) = Ok dk /\
      radd (due card) dk = Ok r /\
      geb r now = true /\
      (forall j dj rj,
          1 <= j ->
          relativedelta_kw (period_type card) (j * n) = Ok dj ->
          radd (due card) dj = Ok rj ->
          geb rj now = true -> leb r rj = true) /\
      rsub r delta = Ok r0 /\ ltb r0 now = true)
  \/
  (exists k : nat,
      (forall fuel, (k <= fuel)%nat ->
                    advance fuel now card (due card) = Exc OverflowError) /\
      (forall j dj rj,
          1 <= j ->
          relativedelta_kw (period_type card) (j * n) = Ok dj ->
          radd (due card) dj = Ok rj -> ltb rj now = true)).
Proof.
  intros Hdue Hnow Hlt Hlen Hn Hkw Hu.
  assert (Hq : 0 < q) by (apply unit_us_cases in Hu; lia).
  destruct (kw_fixed _ q n Hu)
    as [rd [Hkw' [Hrel [Hm [Hy Hus]]]]].
  rewrite Hkw in Hkw'. inversion Hkw'. subst rd. clear Hkw'.
  set (p := n * q) in *.
  assert (Hp : 0 < p) by (unfold p; nia).
  pose proof (to_us_range _ Hdue) as Rdue.
  pose proof (to_us_range _ Hnow) as Rnow.
  rewrite ltb_to_us in Hlt by assumption. apply Z.ltb_lt in Hlt.
  set (t0 := to_us (due card)) in *. set (tn := to_us now) in *.
  set (kz := (tn - t0 + p - 1) / p).
  assert (Hk : 1 <= kz /\ tn <= t0 + kz * p /\ t0 + (kz - 1) * p < tn).
  { pose proof (Z.div_mod (tn - t0 + p - 1) p ltac:(lia)) as D.
    pose proof (Z.mod_pos_bound (tn - t0 + p - 1) p Hp) as B.
    fold kz in D. split; [|split]; nia. }
  destruct Hk as [Hk1 [Hk2 Hk3]].
  assert (Hkn : Z.of_nat (Z.to_nat kz) = kz) by lia.
  pose proof (advance_fixed_loop now card delta n p Hnow Hlen Hkw Hrel Hm Hy
                Hus Hp
                (Z.to_nat kz) (due card) Hdue) as Hloop.
  rewrite Hkn in Hloop. fold t0 tn in Hloop.
  specialize (Hloop Hk2 Hk3).
  (* every multiple of the period is an addition of microseconds *)
  assert (Hmult : forall j dj rj,
             relativedelta_kw (period_type card) (j * n) = Ok dj ->
             radd (due card) dj = Ok rj ->
             valid rj /\ to_us rj = t0 + j * p /\ in_range (t0 + j * p)).
  { intros j dj rj Hdj Hrj.
    destruct (kw_fixed _ q (j * n) Hu) as [rd [E [Hrel' [Hm' [Hy' Hus']]]]].
    rewrite Hdj in E. inversion E. subst rd. clear E.
    rewrite (radd_fixed _ _ Hdue Hrel' Hm' Hy'), Hus' in Hrj.
    apply add_us_ok in Hrj; [|exact Hdue].
    replace (j * n * q) with (j * p) in Hrj by (unfold p; lia). exact Hrj. }
  destruct (Z_lt_dec (t0 + kz * p) ((MAXORDINAL + 1) * US_PER_DAY)) as [Hin|Hout].
  - left.
    assert (Hr : in_range (t0 + kz * p)) by (unfold in_range; lia).
    destruct (add_us_in_range (due card) (kz * p) Hdue Hr) as [E [Hv Ht]].
    fold t0 in E, Hv, Ht.
    set (r := of_us (t0 + kz * p)) in *.
    destruct (kw_fixed _ q (kz * n) Hu) as [dk [Hdk [Hrelk [Hmk [Hyk Husk]]]]].
    destruct (neg_spec delta Hrel) as [Hreln [Husn [Hmn Habsn]]].
    assert (Hkp : p <= kz * p) by nia.
    assert (Hrn : in_range (to_us r + - p)) by (unfold in_range in *; lia).
    destruct (add_us_in_range r (- p) Hv Hrn) as [En [Hvn Htn]].
    exists (Z.to_nat kz), r, (of_us (to_us r + - p)), dk.
    split; [lia|]. split.
    { intros fuel Hfuel. rewrite (Hloop fuel Hfuel).
      destruct (Z.ltb_spec (t0 + kz * p) ((MAXORDINAL + 1) * US_PER_DAY));
        [reflexivity|lia]. }
    rewrite Hkn. split; [exact Hdk|]. split.
    { rewrite (radd_fixed _ _ Hdue Hrelk Hmk Hyk), Husk.
      replace (kz * n * q) with (kz * p) by (unfold p; lia). exact E. }
    split.
    { unfold geb. rewrite ltb_to_us by assumption.
      apply negb_true_iff, Z.ltb_ge. fold tn. lia. }
    split.
    { intros j dj rj Hj Hdj Hrj Hge.
      destruct (Hmult j dj rj Hdj Hrj) as [Hvj [Htj _]].
      unfold geb in Hge. rewrite ltb_to_us in Hge by assumption.
      apply negb_true_iff, Z.ltb_ge in Hge. fold tn in Hge.
      unfold leb. rewrite ltb_to_us by assumption.
      apply negb_true_iff, Z.ltb_ge.
      assert (kz <= j) by nia. nia. }
    split.
    { unfold rsub. rewrite radd_fixed; auto.
      - rewrite Husn, Hus. exact En.
      - apply (zero_calendar_part (neg delta)); auto.
        rewrite Hmn. unfold delta_months. lia.
      - apply (zero_calendar_part (neg delta)); auto.
        rewrite Hmn. unfold delta_months. lia. }
    rewrite ltb_to_us by assumption. apply Z.ltb_lt. fold tn. lia.
  - right. exists (Z.to_nat kz). split.
    { intros fuel Hfuel. rewrite (Hloop fuel Hfuel).
      destruct (Z.ltb_spec (t0 + kz * p) ((MAXORDINAL + 1) * US_PER_DAY));
        [lia|reflexivity]. }
    intros j dj rj Hj Hdj Hrj.
    destruct (Hmult j dj rj Hdj Hrj) as [Hvj [Htj Hinj]].
    rewrite ltb_to_us by assumption. apply Z.ltb_lt. fold tn.
    unfold in_range in Hinj.
    assert (j < kz) by nia. nia.
Qed.

(** ** The advancer on months and years *)

Lemma add_months_ok (d d' : datetime) (n : Z) :
  valid d -> 0 < n -> add_months d n = Ok d' ->
  valid d' /\ month_index d' = month_index d + n /\
  ltb d d' = true /\
  exists r0, add_months d' (- n) = Ok r0 /\ leb r0 d = true.
Proof.
  intros Hv Hn H. unfold add_months in H.
  pose proof (valid_inv d Hv) as [[Hy [Hm Hd]] [Hh [Hmi [Hs Hus]]]].
  set (t := 12 * year d + (month d - 1) + n) in *.
  apply make_ok_valid in H. destruct H as [Hv' ->].
  pose proof (valid_inv _ Hv') as [[Hy' [Hm' Hd']] _]. cbn [year month day] in Hy', Hm', Hd'.
  assert (Hidx : 12 * (t / 12) + (t mod 12 + 1 - 1) = t) by lia.
  split; [exact Hv'|]. split; [unfold month_index; cbn [year month]; lia|]. split.
  - rewrite ltb_to_us by assumption. apply Z.ltb_lt.
    unfold to_us, toordinal.
    cbn [year month day hour minute second microsecond].
    assert (ymd2ord (year d) (month d) (day d)
            < ymd2ord (t / 12) (t mod 12 + 1)
                (Z.min (days_in_month (t / 12) (t mod 12 + 1)) (day d))).
    { destruct (Z_lt_dec (year d) (t / 12)).
      - apply ymd2ord_lt_year; auto.
      - assert (E : t / 12 = year d) by lia. rewrite E in *.
        apply ymd2ord_lt_month; auto. lia. }
    lia.
  - unfold add_months.
    cbn [year month day hour minute second microsecond].
    replace ((12 * (t / 12) + (t mod 12 + 1 - 1) + - n) / 12)
      with (year d) by lia.
    replace ((12 * (t / 12) + (t mod 12 + 1 - 1) + - n) mod 12 + 1)
      with (month d) by lia.
    set (day' := Z.min (days_in_month (t / 12) (t mod 12 + 1)) (day d)) in *.
    assert (Hday : Z.min (days_in_month (year d) (month d)) day' = day')
      by lia.
    rewrite Hday.
    set (r0 := mk (year d) (month d) day' (hour d) (minute d) (second d)
                  (microsecond d)).
    assert (Hv0 : valid r0).
    { apply valid_intro; unfold r0;
        cbn [year month day hour minute second microsecond]; auto.
      unfold valid_date. lia. }
    exists r0. split.
    + apply (make_valid r0 Hv0).
    + unfold leb. rewrite ltb_to_us by assumption.
      apply negb_true_iff, Z.ltb_ge.
      unfold to_us, toordinal, ymd2ord, r0.
      cbn [year month day hour minute second microsecond]. lia.
Qed.

Lemma add_months_fields (d d' : datetime) (n : Z) :
  add_months d n = Ok d' -> day d' <= day d /\ same_time d' d.
Proof.
  unfold add_months. intros H. apply make_ok_valid in H.
  destruct H as [_ ->]. unfold same_time.
  cbn [day hour minute second microsecond]. repeat split; lia.
Qed.

(** An addition of months fails only past year 9999, and with
    [OverflowError] when the year does not fit a C [int]. *)
Lemma add_months_raise (d : datetime) (n : Z) (e : exn) :
  valid d -> 0 < n -> add_months d n = Raise e ->
  MAXYEAR < (month_index d + n) / 12 /\
  e = (if (month_index d + n) / 12 <=? 2147483647
       then ValueError else OverflowError).
Proof.
  intros Hv Hn H. unfold add_months in H.
  pose proof (valid_inv d Hv) as [[Hy [Hm Hd]] [Hh [Hmi [Hs Hus]]]].
  unfold month_index. unfold MINYEAR, MAXYEAR in *.
  set (t := 12 * year d + (month d - 1) + n) in *.
  pose proof (days_in_month_bounds (t / 12) (t mod 12 + 1) ltac:(lia)) as Hdim.
  set (dd := Z.min (days_in_month (t / 12) (t mod 12 + 1)) (day d)) in *.
  assert (Hdd : 1 <= dd <= days_in_month (t / 12) (t mod 12 + 1))
    by (unfold dd; lia).
  apply make_raises in H. destruct H as [He Hvalid].
  assert (Hfits : forallb fits_int
                    [t / 12; t mod 12 + 1; dd; hour d; minute d; second d;
                     microsecond d]
                  = (t / 12 <=? 2147483647)).
  { cbn [forallb].
    replace (fits_int (t mod 12 + 1)) with true
      by (symmetry; apply fits_int_spec; lia).
    replace (fits_int dd) with true by (symmetry; apply fits_int_spec; lia).
    replace (fits_int (hour d)) with true
      by (symmetry; apply fits_int_spec; lia).
    replace (fits_int (minute d)) with true
      by (symmetry; apply fits_int_spec; lia).
    replace (fits_int (second d)) with true
      by (symmetry; apply fits_int_spec; lia).
    replace (fits_int (microsecond d)) with true
      by (symmetry; apply fits_int_spec; lia).
    rewrite !andb_true_r. unfold fits_int.
    replace (-2147483648 <=? t / 12) with true
      by (symmetry; apply Z.leb_le; lia).
    reflexivity. }
  rewrite Hfits in He, Hvalid. split; [|exact He].
  destruct (Z.leb_spec (t / 12) 2147483647) as [Hle|Hgt]; [|lia].
  specialize (Hvalid eq_refl).
  destruct (Z_lt_dec 9999 (t / 12)); [assumption|exfalso].
  assert (Hok : valid (mk (t / 12) (t mod 12 + 1) dd
                          (hour d) (minute d) (second d) (microsecond d))).
  { apply valid_intro;
      cbn [year month day hour minute second microsecond]; auto.
    unfold valid_date, MINYEAR, MAXYEAR. lia. }
  unfold valid in Hok. congruence.
Qed.

Lemma month_index_bound (d : datetime) : valid d -> month_index d < 120000.
Proof.
  intros Hv. pose proof (valid_inv d Hv) as [[Hy [Hm Hd]] _].
  unfold month_index, MAXYEAR in *. lia.
Qed.

(** The loop on months and years, from any timestamp it has reached. *)
Lemma advance_calendar_loop (now : datetime) (card : Card)
  (rd : relativedelta) (c n : Z) :
  valid now ->
  period_len card = PInt c ->
  relativedelta_kw (period_type card) c = Ok rd ->
  relative_only rd -> Z.abs (months rd) <= 11 -> delta_us rd = 0 ->
  delta_months rd = n -> 0 < n ->
  forall (m : nat) (d : datetime),
    valid d -> 120000 - month_index d <= Z.of_nat m ->
    exists k : nat,
      sums_before now rd d k /\
      ((exists r,
           (forall fuel, (k <= fuel)%nat -> advance fuel now card d = Val r) /\
           add_periods rd k d = Ok r /\ valid r /\ geb r now = true /\
           month_index r = month_index d + Z.of_nat k * n /\
           day r <= day d /\ same_time r d /\
           (k = 0%nat \/
            exists prev, valid prev /\ ltb prev now = true /\
                         add_months prev n = Ok r))
       \/
       (exists e,
           (1 <= k)%nat /\
           (forall fuel, (k <= fuel)%nat -> advance fuel now card d = Exc e) /\
           add_periods rd k d = Raise e /\
           MAXYEAR < (month_index d + Z.of_nat k * n) / 12 /\
           e = (if (month_index d + Z.of_nat k * n) / 12 <=? 2147483647
                then ValueError else OverflowError))).
Proof.
  intros Hnow Hlen Hkw Hrel Habs Hus Hmo Hn.
  induction m as [|m IH]; intros d Hv Hmeasure.
  - pose proof (month_index_bound d Hv). lia.
  - destruct (ltb d now) eqn:Hlt.
    + pose proof (radd_calendar d rd Hv Hrel Habs Hus) as Hradd.
      rewrite Hmo in Hradd.
      pose proof (add_period_int card c rd d Hlen Hkw) as Hstep.
      destruct (add_months d n) as [d'|e] eqn:E.
      * destruct (add_months_ok d d' n Hv Hn E) as [Hv' [Hidx [Hlt' _]]].
        destruct (add_months_fields d d' n E) as [Hday Htime].
        rewrite Hradd in Hstep.
        destruct (IH d' Hv' ltac:(lia)) as [k [Hsums Hk]].
        exists (S k). split.
        { intros i Hi. destruct i as [|i].
          - exists d. auto.
          - destruct (Hsums i ltac:(lia)) as [x [Hx Hxlt]].
            exists x. split; [|exact Hxlt]. simpl. now rewrite Hradd. }
        destruct Hk as [(r & Hadv & Hsum & Hvr & Hge & Hmi & Hd & Ht & Hprev)
                       |(e & Hk1 & Hadv & Hsum & Hyear & He)].
        -- left. exists r. split.
           { intros [|fuel] Hfuel; [lia|].
             rewrite (advance_step fuel now card d d' Hlt Hstep).
             apply Hadv. lia. }
           split; [simpl; now rewrite Hradd|]. split; [exact Hvr|].
           split; [exact Hge|]. split; [lia|]. split; [lia|]. split.
           { unfold same_time in *. intuition congruence. }
           right. destruct Hprev as [-> | Hprev]; [|exact Hprev].
           simpl in Hsum. inversion Hsum. subst r. exists d. auto.
        -- right. exists e. split; [lia|]. split.
           { intros [|fuel] Hfuel; [lia|].
             rewrite (advance_step fuel now card d d' Hlt Hstep).
             apply Hadv. lia. }
           split; [simpl; now rewrite Hradd|].
           replace (month_index d + Z.of_nat (S k) * n)
             with (month_index d' + Z.of_nat k * n) by lia.
           auto.
      * destruct (add_months_raise d n e Hv Hn E) as [Hyear He].
        rewrite Hradd in Hstep.
        exists 1%nat. split.
        { intros i Hi. assert (i = 0%nat) by lia. subst i. exists d. auto. }
        right. exists e. split; [lia|]. split.
        { intros [|fuel] Hfuel; [lia|].
          apply (advance_raise fuel now card d e Hlt Hstep). }
        split; [simpl; now rewrite Hradd|].
        replace (month_index d + Z.of_nat 1 * n) with (month_index d + n)
          by lia.
        auto.
    + exists 0%nat. split; [intros i Hi; lia|]. left. exists d. split.
      { intros fuel _. now apply advance_done. }
      split; [reflexivity|]. split; [exact Hv|].
      split; [unfold geb; now rewrite Hlt|]. split; [lia|]. split; [lia|].
      split; [unfold same_time; auto|]. left. reflexivity.
Qed.

(** The advancer on months and years: the sums of one period after the
    other, up to the first that is not before [now]. *)
Lemma advancer_calendar_units (now : datetime) (card : Card)
  (delta : relativedelta) (n q : Z) :
  valid (due card) -> valid now -> ltb (due card) now = true ->
  period_len card = PInt n -> 0 < n ->
  relativedelta_kw (period_type card) n = Ok delta ->
  unit_months (period_type card) = Some q ->
  exists k : nat,
    (1 <= k)%nat /\ sums_before now delta (due card) k /\
    ((exists r,
         advance_ends k now card (Val r) /\
         add_periods delta k (due card) = Ok r /\ geb r now = true /\
         within_one_period now delta r /\
         month_index r = month_index (due card) + Z.of_nat k * (n * q) /\
         day r <= day (due card) /\ same_time r (due card))
     \/
     (exists e,
         advance_ends k now card (Exc e) /\
         add_periods delta k (due card) = Raise e /\
         MAXYEAR < (month_index (due card) + Z.of_nat k * (n * q)) / 12 /\
         e = (if (month_index (due card) + Z.of_nat k * (n * q)) / 12
                 <=? 2147483647
              then ValueError else OverflowError))).
Proof.
  intros Hdue Hnow Hlt Hlen Hn Hkw Hu.
  assert (Hq : 0 < q) by (apply unit_months_cases in Hu; lia).
  destruct (kw_calendar _ q n Hu) as [rd [Hkw' [Hrel [Hus [Hmo Habs]]]]].
  rewrite Hkw in Hkw'. inversion Hkw'. subst rd. clear Hkw'.
  assert (Hpos : 0 < n * q) by nia.
  destruct (advance_calendar_loop now card delta n _ Hnow Hlen Hkw Hrel Habs
              Hus Hmo Hpos (Z.to_nat (120000 - month_index (due card)))
              (due card) Hdue ltac:(lia))
    as [k [Hsums Hk]].
  exists k.
  destruct Hk as [(r & Hadv & Hsum & Hvr & Hge & Hmi & Hd & Ht & Hprev)
                 |(e & Hk1 & Hadv & Hsum & Hyear & He)].
  - destruct Hprev as [-> | (prev & Hvp & Hltp & Hadd)].
    + simpl in Hsum. inversion Hsum. subst r.
      unfold geb in Hge. rewrite Hlt in Hge. discriminate.
    + assert (Hk1 : (1 <= k)%nat).
      { destruct k as [|k]; [|lia]. simpl in Hsum. inversion Hsum. subst r.
        unfold geb in Hge. rewrite Hlt in Hge. discriminate. }
      split; [exact Hk1|]. split; [exact Hsums|]. left. exists r.
      split; [exact Hadv|]. split; [exact Hsum|]. split; [exact Hge|].
      split; [|auto].
      destruct (add_months_ok prev r _ Hvp Hpos Hadd)
        as [_ [_ [_ [r0 [Hback Hle]]]]].
      destruct (neg_spec delta Hrel) as [Hreln [Husn [Hmn Habsn]]].
      split; [exact Hge|]. exists r0. split.
      * unfold rsub. rewrite radd_calendar; auto.
        -- rewrite Hmn, Hmo. exact Hback.
        -- rewrite Husn, Hus. reflexivity.
      * eapply leb_ltb_trans; eauto.
  - split; [exact Hk1|]. split; [exact Hsums|]. right. exists e. auto.
Qed.

(** ** The due-date advancer *)

(** C1, as the code has it.  For a past due date and a positive count:
    in a unit of fixed length (weeks, days, hours, minutes, seconds,
    microseconds) the loop returns the smallest [due + k * period] that is
    not before [now], and that result less one period is before [now],
    unless no such timestamp is representable, in which case the addition
    raises [OverflowError].  In months or years the loop adds one period
    after the other, the day clipped to the month each sum lands in, and
    returns the first sum that is not before [now]: it lies in the month
    of [due] plus [k] periods, at the time of day of [due], on a day not
    after that of [due], and less one period it is before [now]; unless
    that month lies past the year 9999, in which case the addition raises
    [ValueError], or [OverflowError] when the year does not fit a C
    [int]. *)
Theorem advancer_stops_within_one_period :
  forall (now : datetime) (card : Card) (n : Z) (delta : relativedelta),
    valid (due card) -> valid now -> ltb (due card) now = true ->
    period_len card = PInt n -> 0 < n ->
    relativedelta_kw (period_type card) n = Ok delta ->
    (forall q, unit_us (period_type card) = Some q ->
       (exists (k : nat) (r : datetime),
           (1 <= k)%nat /\ advance_ends k now card (Val r) /\
           smallest_multiple_not_before now card n r /\
           within_one_period now delta r)
       \/
       (exists k : nat,
           advance_ends k now card (Exc OverflowError) /\
           forall r, ~ smallest_multiple_not_before now card n r))
    /\
    (forall q, unit_months (period_type card) = Some q ->
       exists k : nat,
         (1 <= k)%nat /\ sums_before now delta (due card) k /\
         ((exists r,
              advance_ends k now card (Val r) /\
              add_periods delta k (due card) = Ok r /\ geb r now = true /\
              within_one_period now delta r /\
              month_index r = month_index (due card) + Z.of_nat k * (n * q) /\
              day r <= day (due card) /\ same_time r (due card))
          \/
          (exists e,
              advance_ends k now card (Exc e) /\
              add_periods delta k (due card) = Raise e /\
              MAXYEAR < (month_index (due card) + Z.of_nat k * (n * q)) / 12 /\
              e = (if (month_index (due card) + Z.of_nat k * (n * q)) / 12
                      <=? 2147483647
                   then ValueError else OverflowError)))).
Proof.
  intros now card n delta Hdue Hnow Hlt Hlen Hn Hkw. split; intros q Hu.
  - destruct (advancer_fixed_units now card delta n q Hdue Hnow Hlt Hlen Hn
                Hkw Hu)
      as [(k & r & r0 & dk & Hk & Hadv & Hdk & Hr & Hge & Hmin & Hsub & Hlt0)
         |(k & Hadv & Hnone)].
    + left. exists k, r. split; [exact Hk|]. split; [exact Hadv|]. split.
      * exists (Z.of_nat k), dk. repeat split; auto. lia.
      * split; [exact Hge|]. exists r0. auto.
    + right. exists k. split; [exact Hadv|].
      intros r (j & dj & Hj & Hdj & Hrj & Hge & _).
      unfold geb in Hge. rewrite (Hnone j dj r Hj Hdj Hrj) in Hge.
      discriminate.
  - exact (advancer_calendar_units now card delta n q Hdue Hnow Hlt Hlen Hn
             Hkw Hu).
Qed.

Lemma advancer_stops_within_one_period_witness :
  valid (due month_end_card) /\ valid month_end_now /\
  ltb (due month_end_card) month_end_now = true /\
  period_len month_end_card = PInt 1 /\ 0 < 1 /\
  relativedelta_kw (period_type month_end_card) 1
  = Ok (mkrd 0 1 0 0 0 0 0 0 None None None None None None None None) /\
  unit_months (period_type month_end_card) = Some 1 /\
  exists k : nat,
    (1 <= k)%nat /\
    sums_before month_end_now
      (mkrd 0 1 0 0 0 0 0 0 None None None None None None None None)
      (due month_end_card) k /\
    ((exists r,
         advance_ends k month_end_now month_end_card (Val r) /\
         add_periods
           (mkrd 0 1 0 0 0 0 0 0 None None None None None None None None)
           k (due month_end_card) = Ok r /\
         geb r month_end_now = true /\
         within_one_period month_end_now
           (mkrd 0 1 0 0 0 0 0 0 None None None None None None None None) r /\
         month_index r
         = month_index (due month_end_card) + Z.of_nat k * (1 * 1) /\
         day r <= day (due month_end_card) /\
         same_time r (due month_end_card))
     \/
     (exists e,
         advance_ends k month_end_now month_end_card (Exc e) /\
         add_periods
           (mkrd 0 1 0 0 0 0 0 0 None None None None None None None None)
           k (due month_end_card) = Raise e /\
         MAXYEAR < (month_index (due month_end_card) + Z.of_nat k * (1 * 1)) / 12 /\
         e = (if (month_index (due month_end_card) + Z.of_nat k * (1 * 1)) / 12
                 <=? 2147483647
              then ValueError else OverflowError))).
Proof.
  split; [vm_compute; reflexivity|]. split; [vm_compute; reflexivity|].
  split; [vm_compute; reflexivity|]. split; [reflexivity|].
  split; [lia|]. split; [vm_compute; reflexivity|].
  split; [vm_compute; reflexivity|].
  apply (proj2 (advancer_stops_within_one_period month_end_now month_end_card
                  1 (mkrd 0 1 0 0 0 0 0 0
                          None None None None None None None None)
                  ltac:(vm_compute; reflexivity) ltac:(vm_compute; reflexivity)
                  ltac:(vm_compute; reflexivity) eq_refl ltac:(lia)
                  ltac:(vm_compute; reflexivity))).
  vm_compute. reflexivity.
Defined.

(** C1 as stated fails on months: from 31 January, adding one month at a
    time gives 28 February, 28 March, 28 April, so on 29 March the loop
    returns 28 April, while [due + 2 * period] is 31 March, which is not
    before [now] and is earlier. *)
Lemma month_end_result_is_not_the_smallest_multiple :
  valid (due month_end_card) /\ valid month_end_now /\
  ltb (due month_end_card) month_end_now = true /\
  period_len month_end_card = PInt 1 /\
  unit_months (period_type month_end_card) = Some 1 /\
  advance_ends 3 month_end_now month_end_card (Val (mk 2023 4 28 0 0 0 0)) /\
  ~ smallest_multiple_not_before month_end_now month_end_card 1
      (mk 2023 4 28 0 0 0 0).
Proof.
  split; [vm_compute; reflexivity|]. split; [vm_compute; reflexivity|].
  split; [vm_compute; reflexivity|]. split; [reflexivity|].
  split; [vm_compute; reflexivity|]. split.
  - intros fuel Hfuel.
    destruct fuel as [|[|[|fuel]]]; try lia.
    rewrite (advance_step _ _ _ _ (mk 2023 2 28 0 0 0 0))
      by (vm_compute; reflexivity).
    rewrite (advance_step _ _ _ _ (mk 2023 3 28 0 0 0 0))
      by (vm_compute; reflexivity).
    rewrite (advance_step _ _ _ _ (mk 2023 4 28 0 0 0 0))
      by (vm_compute; reflexivity).
    apply advance_done. vm_compute. reflexivity.
  - intros (k & dk & _ & _ & _ & _ & Hmin).
    specialize (Hmin 2
                  (mkrd 0 2 0 0 0 0 0 0 None None None None None None None None)
                  (mk 2023 3 31 0 0 0 0) ltac:(lia)).
    assert (H : leb (mk 2023 4 28 0 0 0 0) (mk 2023 3 31 0 0 0 0) = true)
      by (apply Hmin; vm_compute; reflexivity).
    vm_compute in H. discriminate.
Qed.

(** ** A zero count *)

(** C4 fails for a zero count.  The notes "0 days" parse, the filter keeps
    the task with [period_len = 0], and the loop of [process_card] adds an
    empty delta for ever: whatever the fuel, [process_card] is still in
    the loop, with nothing logged and nothing sent. *)
Theorem zero_count_never_leaves_the_loop :
  fst (filter_out_cards scenario_now [zero_count_raw] empty_world)
  = Val [zero_count_card] /\
  ltb (due zero_count_card) scenario_now = true /\
  forall (fuel : nat) (req : Requester) (lists : list List) (w : world),
    advance fuel scenario_now zero_count_card (due zero_count_card) = Hang /\
    process_card fuel req scenario_now zero_count_card lists w = (Hang, w).
Proof.
  split; [vm_compute; reflexivity|]. split; [vm_compute; reflexivity|].
  assert (Hloop : forall fuel,
             advance fuel scenario_now zero_count_card (due zero_count_card)
             = Hang).
  { induction fuel as [|fuel IH].
    - apply advance_out_of_fuel. vm_compute. reflexivity.
    - rewrite (advance_step _ _ _ _ (due zero_count_card))
        by (vm_compute; reflexivity).
      exact IH. }
  intros fuel req lists w. split; [apply Hloop|].
  unfold process_card. run. rewrite Hloop. reflexivity.
Qed.

(** Whatever the loop raises, [process_card] logs one error, sends nothing
    and returns: the task is skipped. *)
Lemma failed_advance_is_logged_and_skipped (fuel : nat) (req : Requester)
  (now : datetime) (card : Card) (lists : list List) (w : world) (e : exn) :
  advance fuel now card (due card) = Exc e ->
  process_card fuel req now card lists w
  = (Val tt,
     {| puts := puts w;
        log := log w
               ++ [(ERROR, "Failed to calculate a new due date for card")] |}).
Proof. intros H. unfold process_card. run. rewrite H. reflexivity. Qed.

(** The other half of C4 holds: a unit that is no parameter of the delta's
    constructor raises [TypeError] in the first run of the body, whether
    the count is an [int] or a [str], and the task is skipped with one
    logged error and nothing sent. *)
Lemma unknown_unit_is_logged_and_skipped (fuel : nat) (req : Requester)
  (now : datetime) (card : Card) (lists : list List) (w : world) :
  ltb (due card) now = true ->
  (forall n, period_len card = PInt n ->
             relativedelta_kw (period_type card) n = Raise TypeError) ->
  (forall s, period_len card = PStr s ->
             radd_str (period_type card) (due card) = Raise TypeError) ->
  process_card (S fuel) req now card lists w
  = (Val tt,
     {| puts := puts w;
        log := log w
               ++ [(ERROR, "Failed to calculate a new due date for card")] |}).
Proof.
  intros Hlt Hkw Hstr.
  apply failed_advance_is_logged_and_skipped with (e := TypeError).
  simpl. rewrite Hlt. unfold add_period.
  destruct (period_len card) as [n|s].
  - now rewrite (Hkw n eq_refl).
  - now rewrite (Hstr s eq_refl).
Qed.

(** ** Worked examples *)

(** The singular "day" is a parameter of the delta's constructor too, but
    an absolute one: the sum is the first of the same month again, and the
    loop never ends.  The plural units are the ones that advance. *)
Lemma singular_unit_never_leaves_the_loop :
  relativedelta_kw "day" 1
  = Ok (mkrd 0 0 0 0 0 0 0 0 None None (Some 1) None None None None None) /\
  forall fuel : nat,
    advance fuel scenario_now singular_unit_card (due singular_unit_card)
    = Hang.
Proof.
  split; [vm_compute; reflexivity|].
  induction fuel as [|fuel IH].
  - apply advance_out_of_fuel. vm_compute. reflexivity.
  - rewrite (advance_step _ _ _ _ (due singular_unit_card))
      by (vm_compute; reflexivity).
    exact IH.
Qed.

(** The filter on a mixed batch: an undated untagged task, the weekly task
    of the scenario, and a task without a rule that reuses the weekly one. *)
Example filter_on_a_mixed_batch :
  fst (filter_out_cards scenario_now [no_due_raw; scenario_raw; no_rule_raw]
                        empty_world)
  = Val [ scenario_card;
          make_card no_rule_raw (mk 2023 1 2 9 30 0 0) (PInt 1, "weeks") ].
Proof. vm_compute. reflexivity. Qed.

(** The scenario of the orderer: due dates 10 February and 5 February in
    one list are repositioned in the order 5 February, 10 February. *)
Example orderer_on_two_dated_tasks :
  order_cards (monday_board two_dated_raw)
              {| list_name := "Понедельник"; list_identifier := "L1" |}
              empty_world
  = (Val tt,
     {| puts := [PutBottom "t05"; PutBottom "t10"];
        log := [ (INFO, "Start to process list"); (INFO, "cards found");
                 (INFO, "Cards received and constructed");
                 (INFO, "Cards sorted"); (INFO, "Card order set") ] |}).
Proof. vm_compute. reflexivity. Qed.

(** The relocation of the scenario: one request, carrying the new due
    date and the identifier of the list named for Sunday. *)
Example scenario_relocation_request :
  process_card 3 (monday_board []) scenario_now scenario_card week_lists
               empty_world
  = (Val tt,
     {| puts := [PutDue "c9" "2023-01-22T00:00:00.000Z" "id-Воскресенье"];
        log := [(INFO, "Due date for card updated")] |}).
Proof. vm_compute. reflexivity. Qed.

(** * Further properties of the program *)

(** ** [process_card] *)

Lemma advance_result_not_before_now (fuel : nat) (now : datetime)
  (card : Card) (d r : datetime) :
  advance fuel now card d = Val r -> geb r now = true.
Proof.
  revert d. induction fuel as [|fuel IH]; intros d; simpl;
    destruct (ltb d now) eqn:E; try discriminate.
  - intros H. inversion H. subst. unfold geb. now rewrite E.
  - destruct (add_period card d); [|discriminate]. apply IH.
  - intros H. inversion H. subst. unfold geb. now rewrite E.
Qed.

Lemma process_card_outcome (fuel : nat) (req : Requester)
  (current_time : datetime) (card : Card) (lists : list List) (w : world) :
  exists (r : res unit) (w' : world),
    process_card fuel req current_time card lists w = (r, w') /\
    (r = Val tt \/ r = Hang /\ w' = w) /\
    (puts w' = puts w \/
     exists p, puts w' = puts w ++ [p] /\
               relocation current_time card lists p).
Proof.
  revert fuel req current_time card lists w.
  intros fuel req now card lists w. unfold process_card. run.
  destruct (advance fuel now card (due card)) as [d|e|] eqn:Hadv; simpl.
  - rewrite target_list_find.
    destruct (find (fun l => String.eqb (list_name l) (weekday_name d)) lists)
      as [l|] eqn:Hfind; simpl.
    + apply find_some in Hfind. destruct Hfind as [Hin Hname].
      apply String.eqb_eq in Hname.
      pose proof (advance_result_not_before_now _ _ _ _ _ Hadv) as Hge.
      destruct (put_raises req (puts w)
                  (PutDue (identifier card) (Text.strftime d)
                          (list_identifier l)));
        simpl; eexists _, _; (split; [reflexivity|]); simpl;
        (split; [left; reflexivity|]); right; eexists;
        (split; [reflexivity|]); exists d, l; repeat split; eauto.
    + eexists _, _. split; [reflexivity|]. simpl. auto.
  - eexists _, _. split; [reflexivity|]. simpl. auto.
  - eexists _, _. split; [reflexivity|]. simpl. auto.
Qed.

(** X1: [process_card] never raises: it returns, or is still in its loop.
    It sends at most one request, and that request is a relocation of the
    card: it carries the text of the timestamp at which the loop ended,
    which is not before [current_time], written without its microseconds,
    and the identifier of a fetched list named for that timestamp's
    weekday.
    While in the loop it sends nothing. *)
Theorem process_card_sends_at_most_one_relocation :
  forall (fuel : nat) (req : Requester) (current_time : datetime)
         (card : Card) (lists : list List) (w : world),
  exists (r : res unit) (w' : world),
    process_card fuel req current_time card lists w = (r, w') /\
    (r = Val tt \/ r = Hang /\ w' = w) /\
    (puts w' = puts w \/
     exists p, puts w' = puts w ++ [p] /\
               relocation current_time card lists p).
Proof. exact process_card_outcome. Qed.

(** X2: a card whose due date is not before [current_time] is relocated
    as it is: the loop body never runs, whatever the recurrence rule, and
    the request carries the text of the card's own due date. *)
Theorem process_card_keeps_a_due_date_not_in_the_past :
  forall (fuel : nat) (req : Requester) (current_time : datetime)
         (card : Card) (lists : list List) (l : List) (w : world),
    ltb (due card) current_time = false ->
    find (fun x => String.eqb (list_name x) (weekday_name (due card))) lists
    = Some l ->
    exists w',
      process_card fuel req current_time card lists w = (Val tt, w') /\
      puts w' = puts w ++ [PutDue (identifier card) (Text.strftime (due card))
                                  (list_identifier l)].
Proof.
  intros fuel req now card lists l w Hlt Hfind.
  unfold process_card. run. rewrite (advance_done _ _ _ _ Hlt). simpl.
  rewrite target_list_find, Hfind. simpl.
  destruct (put_raises _ _ _); simpl; eexists; split; reflexivity.
Qed.

(** ** [sort_cards] and [construct_cards_to_order] *)

Lemma sorted_of_sorted {A : Type} (key : A -> datetime) (l : list A) :
  StronglySorted (fun a b => leb (key a) (key b) = true) l ->
  sorted key l = l.
Proof.
  induction 1 as [|x l Hs IH Hall]; [reflexivity|].
  simpl. rewrite IH. destruct l as [|y l']; [reflexivity|].
  simpl. inversion Hall as [|? ? Hxy _]; subst.
  unfold leb in Hxy. apply negb_true_iff in Hxy. now rewrite Hxy.
Qed.

(** X3: the orderer leaves an ascending list as it is, so sorting twice is
    sorting once; and it neither drops nor adds a task. *)
Theorem sort_cards_is_idempotent :
  forall cards : list CardToSort,
    sort_cards (sort_cards cards) = sort_cards cards /\
    List.length (sort_cards cards) = List.length cards /\
    (ascending cards -> sort_cards cards = cards).
Proof.
  intros cards. unfold sort_cards, ascending. split; [|split].
  - apply sorted_of_sorted, sorted_sorted.
  - symmetry. apply Permutation_length, sorted_perm.
  - apply sorted_of_sorted.
Qed.

Lemma sort_cards_is_idempotent_witness :
  ascending [ {| sort_name := "fifth"; sort_identifier := "t05";
                 sort_due := mk 2023 2 5 0 0 0 0 |};
              {| sort_name := "tenth"; sort_identifier := "t10";
                 sort_due := mk 2023 2 10 0 0 0 0 |} ] /\
  sort_cards [ {| sort_name := "fifth"; sort_identifier := "t05";
                  sort_due := mk 2023 2 5 0 0 0 0 |};
               {| sort_name := "tenth"; sort_identifier := "t10";
                  sort_due := mk 2023 2 10 0 0 0 0 |} ]
  = [ {| sort_name := "fifth"; sort_identifier := "t05";
         sort_due := mk 2023 2 5 0 0 0 0 |};
      {| sort_name := "tenth"; sort_identifier := "t10";
         sort_due := mk 2023 2 10 0 0 0 0 |} ].
Proof.
  assert (H : ascending
                [ {| sort_name := "fifth"; sort_identifier := "t05";
                     sort_due := mk 2023 2 5 0 0 0 0 |};
                  {| sort_name := "tenth"; sort_identifier := "t10";
                     sort_due := mk 2023 2 10 0 0 0 0 |} ]).
  { unfold ascending. repeat constructor. }
  split; [exact H|].
  apply (proj2 (proj2 (sort_cards_is_idempotent _))). exact H.
Defined.

(** X4: [construct_cards_to_order] returns exactly when every due date
    parses, and then gives one task per raw card, in input order, with the
    card's name, identifier and parsed due date; otherwise it raises what
    [strptime] raises on the first card whose due date does not parse. *)
Theorem construct_cards_to_order_all_or_nothing :
  (forall (cards : list raw_card) (out : list CardToSort),
      construct_cards_to_order cards = Ok out -> Forall2 constructed cards out)
  /\
  (forall cards : list raw_card,
      Forall (fun card => exists d, Text.strptime (rc_due card) = Ok d) cards ->
      exists out, construct_cards_to_order cards = Ok out)
  /\
  (forall (pre post : list raw_card) (card : raw_card) (e : exn),
      Forall (fun card => exists d, Text.strptime (rc_due card) = Ok d) pre ->
      Text.strptime (rc_due card) = Raise e ->
      construct_cards_to_order (pre ++ card :: post) = Raise e).
Proof.
  split; [|split].
  - induction cards as [|card cards IH]; simpl; intros out H.
    + inversion H. constructor.
    + destruct (Text.strptime (rc_due card)) as [d|] eqn:E; [|discriminate].
      destruct (construct_cards_to_order cards) as [tail|]; [|discriminate].
      inversion H. subst. constructor; [|now apply IH].
      unfold constructed. simpl. auto.
  - induction 1 as [|card cards [d Hd] _ [out IH]]; simpl.
    + eauto.
    + rewrite Hd, IH. eauto.
  - intros pre post card e Hpre He.
    induction Hpre as [|c pre [d Hd] _ IH]; simpl.
    + now rewrite He.
    + now rewrite Hd, IH.
Qed.

(** ** [get_lists] and [get_cards] *)

Lemma in_names_In (s : string) (names : list string) :
  in_names s names = true <-> In s names.
Proof.
  unfold in_names. rewrite existsb_exists. split.
  - intros [x [Hin Heq]]. apply String.eqb_eq in Heq. now subst.
  - intros H. exists s. split; [exact H|apply String.eqb_refl].
Qed.

(** X5: when the fetch of the lists fails, or answers with a list of
    records that hold a name and an identifier, [get_lists] returns and
    sends nothing.  It returns, in the order of the answer, the lists
    whose name is a weekday name, so every list it returns bears one; and
    it logs the missing-lists error exactly when the fetch succeeded and
    it returns a number of lists other than seven. *)
Theorem get_lists_keeps_the_weekday_lists :
  forall (req : Requester) (w : world),
  exists (lists : list List) (w' : world),
    get_lists req w = (Val lists, w') /\ puts w' = puts w /\
    Forall (fun l => In (list_name l) list_names) lists /\
    (forall resp,
        lists_response req = Some resp ->
        map (fun l => (list_name l, list_identifier l)) lists
        = filter (fun p => in_names (fst p) list_names)
                 (map (fun r => (rl_name r, rl_id r)) resp)) /\
    (In (ERROR, "Not all necessary lists were received") (log w')
     <-> In (ERROR, "Not all necessary lists were received") (log w)
         \/ (lists_response req <> None /\ List.length lists <> 7%nat)).
Proof.
  intros req w. unfold get_lists.
  destruct (lists_response req) as [resp|] eqn:E.
  - set (lists := map (fun l => {| list_name := rl_name l;
                                   list_identifier := rl_id l |})
                      (filter (fun l => in_names (rl_name l) list_names) resp)).
    assert (Hnames : Forall (fun l => In (list_name l) list_names) lists).
    { unfold lists. apply Forall_forall. intros l Hl.
      apply in_map_iff in Hl. destruct Hl as [r [<- Hr]].
      apply filter_In in Hr. cbn [list_name]. apply in_names_In, Hr. }
    assert (Hmap : forall resp0,
               Some resp = Some resp0 ->
               map (fun l => (list_name l, list_identifier l)) lists
               = filter (fun p => in_names (fst p) list_names)
                        (map (fun r => (rl_name r, rl_id r)) resp0)).
    { intros resp0 H. inversion H. subst resp0. unfold lists. clear.
      induction resp as [|r resp IH]; cbn [map filter fst]; [reflexivity|].
      destruct (in_names (rl_name r) list_names);
        cbn [map list_name list_identifier]; congruence. }
    change (List.length list_names) with 7%nat.
    destruct (Nat.eqb_spec 7 (List.length lists)) as [Hlen|Hlen]; run;
      eexists _, _; (split; [reflexivity|]); simpl;
      (split; [reflexivity|]); (split; [exact Hnames|]);
      (split; [exact Hmap|]).
    + rewrite in_app_iff. simpl. split.
      * intros [H|[H|[]]]; [auto|discriminate].
      * intros [H|[_ H]]; [auto|]. exfalso. apply H. now rewrite <- Hlen.
    + rewrite !in_app_iff. simpl. split.
      * intros _. right. split; [discriminate|]. intros H. apply Hlen.
        now rewrite H.
      * intros _. right. auto.
  - run. eexists _, _. split; [reflexivity|]. simpl.
    split; [reflexivity|]. split; [constructor|].
    split; [intros resp H; discriminate|].
    rewrite in_app_iff. simpl. split.
    + intros [H|[H|[]]]; [auto|discriminate].
    + intros [H|[H _]]; [auto|]. exfalso. now apply H.
Qed.

(** X6: a list whose cards cannot be fetched counts as empty in both
    phases: [get_cards] logs the failure and returns no card, the first
    phase relocates nothing, the second repositions nothing, and both
    return normally. *)
Theorem failed_card_fetch_counts_as_empty :
  forall (fuel : nat) (req : Requester) (current_time : datetime)
         (lists : list List) (l : List) (w : world),
    cards_response req (puts w) (list_identifier l) = None ->
    get_cards req l w
    = (Val [],
       {| puts := puts w;
          log := log w ++ [(CRITICAL, "Failed to receive cards for list")] |})
    /\
    (exists w',
        update_due_dates fuel req current_time lists l w = (Val tt, w') /\
        puts w' = puts w) /\
    (exists w', order_cards req l w = (Val tt, w') /\ puts w' = puts w).
Proof.
  intros fuel req now lists l w H. split; [|split].
  - unfold get_cards. rewrite H. reflexivity.
  - unfold update_due_dates, get_cards. run. rewrite H. run.
    eexists. split; reflexivity.
  - unfold order_cards, get_cards. run. rewrite H. run.
    eexists. split; reflexivity.
Qed.

(** ** Characters *)

Lemma chars_nil (s : string) : Text.chars s = [] -> s = "".
Proof.
  destruct s as [|c r]; [reflexivity|]. simpl.
  destruct (Text.chars r) as [|g gs]; [discriminate|].
  destruct (Text.begins_with_continuation g); discriminate.
Qed.

Lemma chars_head (c : ascii) (r : string) :
  exists t gs, Text.chars (String c r) = String c t :: gs.
Proof.
  simpl. destruct (Text.chars r) as [|g gs]; [eexists _, _; reflexivity|].
  destruct (Text.begins_with_continuation g); eexists _, _; reflexivity.
Qed.

Lemma chars_begins (s g : string) (gs : list string) :
  Text.chars s = g :: gs ->
  Text.begins_with_continuation g = Text.begins_with_continuation s.
Proof.
  destruct s as [|c r]; [discriminate|].
  destruct (chars_head c r) as [t [gs' E]]. rewrite E.
  intros H. inversion H. reflexivity.
Qed.

(** A byte joins the character after it when that one begins with a
    continuation byte, and is a character of its own otherwise. *)
Lemma chars_step (c : ascii) (r : string) :
  Text.chars (String c r)
  = if Text.begins_with_continuation r
    then match Text.chars r with
         | g :: gs => String c g :: gs
         | [] => [String c EmptyString]
         end
    else String c EmptyString :: Text.chars r.
Proof.
  destruct (Text.chars r) as [|g gs] eqn:E.
  - apply chars_nil in E. subst r. reflexivity.
  - cbn [Text.chars]. rewrite E, (chars_begins _ _ _ E).
    destruct (Text.begins_with_continuation r); reflexivity.
Qed.

Lemma join_chars (s : string) : Text.join (Text.chars s) = s.
Proof.
  induction s as [|c r IH]; [reflexivity|]. cbn [Text.chars].
  destruct (Text.chars r) as [|g gs].
  - simpl in IH. subst r. reflexivity.
  - destruct (Text.begins_with_continuation g); simpl in *; now rewrite IH.
Qed.

Lemma chars_one (t : string) :
  all_chars Text.continuation t = true ->
  forall (a : ascii) (s : string),
    Text.begins_with_continuation s = false ->
    Text.chars (String a (t ++ s)) = String a t :: Text.chars s.
Proof.
  induction t as [|c t IH]; intros Ht a s Hs.
  - simpl append. rewrite chars_step, Hs. reflexivity.
  - simpl in Ht. apply andb_true_iff in Ht. destruct Ht as [Hc Ht].
    simpl append. rewrite chars_step.
    cbn [Text.begins_with_continuation]. rewrite Hc.
    rewrite (IH Ht c s Hs). reflexivity.
Qed.

Lemma chars_cons (ch s : string) :
  well_cut ch = true -> Text.begins_with_continuation s = false ->
  Text.chars (ch ++ s) = ch :: Text.chars s.
Proof.
  destruct ch as [|a t]; [discriminate|]. simpl well_cut.
  intros H Hs. apply andb_true_iff in H. destruct H as [_ Ht].
  simpl append. now apply chars_one.
Qed.

Lemma chars_app (a b : string) :
  Text.begins_with_continuation b = false ->
  Text.chars (a ++ b) = Text.chars a ++ Text.chars b.
Proof.
  intros Hb. induction a as [|c a IH]; [reflexivity|].
  simpl append. rewrite (chars_step c (a ++ b)), (chars_step c a), IH.
  destruct a as [|x a'].
  - simpl. rewrite Hb. reflexivity.
  - simpl append. cbn [Text.begins_with_continuation].
    destruct (Text.continuation x); [|reflexivity].
    destruct (chars_head x a') as [t [gs E]]. rewrite E. reflexivity.
Qed.

(** Every character that [chars] cuts is a byte and continuation bytes,
    and only the first can begin with a continuation byte. *)
Lemma chars_shape (s : string) :
  match Text.chars s with
  | [] => True
  | g :: gs =>
      (exists a t, g = String a t /\ all_chars Text.continuation t = true) /\
      Forall (fun ch => well_cut ch = true) gs
  end.
Proof.
  induction s as [|c r IH]; [exact I|]. cbn [Text.chars].
  destruct (Text.chars r) as [|g gs].
  - split; [exists c, EmptyString; auto|constructor].
  - destruct IH as [[a [t [-> Ht]]] Hgs].
    cbn [Text.begins_with_continuation].
    destruct (Text.continuation a) eqn:Ea.
    + split; [|exact Hgs]. exists c, (String a t). split; [reflexivity|].
      simpl. now rewrite Ea, Ht.
    + split; [exists c, EmptyString; auto|].
      constructor; [|exact Hgs]. simpl. now rewrite Ea, Ht.
Qed.

Lemma chars_well_cut (s : string) :
  Text.begins_with_continuation s = false ->
  Forall (fun ch => well_cut ch = true) (Text.chars s).
Proof.
  intros Hs. pose proof (chars_shape s) as H.
  destruct (Text.chars s) as [|g gs] eqn:E; [constructor|].
  destruct H as [[a [t [-> Ht]]] Hgs]. constructor; [|exact Hgs].
  apply chars_begins in E. rewrite Hs in E. simpl in E.
  simpl. now rewrite E, Ht.
Qed.

Lemma chars_tail_well_cut (s g : string) (gs : list string) :
  Text.chars s = g :: gs -> Forall (fun ch => well_cut ch = true) gs.
Proof.
  intros E. pose proof (chars_shape s) as H. rewrite E in H. apply H.
Qed.

Lemma join_begins (l : list string) :
  Forall (fun ch => well_cut ch = true) l ->
  Text.begins_with_continuation (Text.join l) = false.
Proof.
  intros H. destruct H as [|ch l Hch _]; [reflexivity|].
  destruct ch as [|a t]; [discriminate|]. simpl in *.
  apply andb_true_iff in Hch. destruct Hch as [Ha _].
  now apply negb_true_iff in Ha.
Qed.

Lemma chars_join (l : list string) :
  Forall (fun ch => well_cut ch = true) l -> Text.chars (Text.join l) = l.
Proof.
  induction 1 as [|ch l Hch Hl IH]; [reflexivity|].
  simpl Text.join. rewrite chars_cons; [now rewrite IH|exact Hch|].
  now apply join_begins.
Qed.

Lemma join_app (a b : list string) :
  Text.join (a ++ b) = (Text.join a ++ Text.join b)%string.
Proof.
  induction a as [|x a IH]; [reflexivity|]. simpl. rewrite IH.
  induction x as [|c x IHx]; [reflexivity|]. simpl. now rewrite IHx.
Qed.

Lemma continuation_spec (c : ascii) :
  Text.continuation c = true <-> 128 <= Text.byte c < 192.
Proof.
  unfold Text.continuation. rewrite andb_true_iff, Z.leb_le, Z.ltb_lt. tauto.
Qed.

Lemma not_continuation (c : ascii) :
  Text.byte c < 128 \/ 192 <= Text.byte c -> Text.continuation c = false.
Proof.
  intros H. destruct (Text.continuation c) eqn:E; [|reflexivity].
  apply continuation_spec in E. lia.
Qed.

(** The bytes that encode a character are one character. *)
Lemma code_point_well_cut (ch : string) :
  0 <= Text.code_point ch -> well_cut ch = true.
Proof.
  unfold Text.code_point, well_cut.
  destruct ch as [|a [|b [|c [|d [|e r]]]]]; try lia.
  - destruct (Z.ltb_spec (Text.byte a) 128) as [Hlt|Hge]; [|lia]. intros _.
    rewrite not_continuation by lia. reflexivity.
  - match goal with |- context [if ?x then _ else _] => destruct x eqn:E end;
      [|lia].
    intros _. rewrite !andb_true_iff, Z.leb_le in E.
    destruct E as [[[Ha _] Hb] _].
    rewrite not_continuation by lia. simpl. now rewrite Hb.
  - match goal with |- context [if ?x then _ else _] => destruct x eqn:E end;
      [|lia].
    intros _. rewrite !andb_true_iff, Z.leb_le in E.
    destruct E as [[[[Ha _] Hb] Hc] _].
    rewrite not_continuation by lia. simpl. now rewrite Hb, Hc.
  - match goal with |- context [if ?x then _ else _] => destruct x eqn:E end;
      [|lia].
    intros _. rewrite !andb_true_iff, Z.leb_le in E.
    destruct E as [[[[[[Ha _] Hb] Hc] Hd] _] _].
    rewrite not_continuation by lia. simpl. now rewrite Hb, Hc, Hd.
Qed.

Lemma is_digit_code (ch : string) :
  Text.is_digit ch = true -> 0 <= Text.code_point ch.
Proof.
  unfold Text.is_digit.
  destruct (Z.ltb_spec (Text.code_point ch) 128) as [Hlt|Hge]; intros H; [|lia].
  apply andb_true_iff in H. rewrite !Z.leb_le in H. lia.
Qed.

Lemma is_word_code (ch : string) :
  Text.is_word ch = true -> 0 <= Text.code_point ch.
Proof.
  unfold Text.is_word.
  destruct (Z.ltb_spec (Text.code_point ch) 128) as [Hlt|Hge]; intros H; [|lia].
  rewrite !orb_true_iff, !andb_true_iff, !Z.leb_le, Z.eqb_eq in H. lia.
Qed.

Lemma class_well_cut (p : string -> bool) (l : list string) :
  (forall ch, p ch = true -> 0 <= Text.code_point ch) ->
  forallb p l = true -> Forall (fun ch => well_cut ch = true) l.
Proof.
  intros Hp H. apply Forall_forall. intros ch Hin.
  apply code_point_well_cut, Hp.
  rewrite forallb_forall in H. now apply H.
Qed.

(** ** The recurrence grammar *)

Lemma span_spec (p : string -> bool) (l a b : list string) :
  Text.span p l = (a, b) ->
  l = a ++ b /\ forallb p a = true /\
  match b with [] => True | ch :: _ => p ch = false end.
Proof.
  revert a b. induction l as [|c l IH]; simpl; intros a b H.
  - inversion H. subst. auto.
  - destruct (p c) eqn:E.
    + destruct (Text.span p l) as [a' b'] eqn:Es. inversion H. subst.
      destruct (IH a' b eq_refl) as [H1 [H2 H3]].
      simpl. rewrite E, H2. subst l. auto.
    + inversion H. subst. simpl. auto.
Qed.

Lemma span_greedy (p : string -> bool) (a b : list string) :
  forallb p a = true ->
  match b with [] => True | ch :: _ => p ch = false end ->
  Text.span p (a ++ b) = (a, b).
Proof.
  intros Ha Hb. induction a as [|c a IH]; simpl in *.
  - destruct b as [|c b]; [reflexivity|]. simpl. now rewrite Hb.
  - apply andb_true_iff in Ha. destruct Ha as [Hc Ha].
    rewrite Hc, (IH Ha). reflexivity.
Qed.

Lemma digit_val_range (ch : string) : 0 <= Text.digit_val ch <= 9.
Proof.
  unfold Text.digit_val. destruct (Text.is_digit ch) eqn:E; [|lia].
  unfold Text.is_digit in E.
  destruct (Z.ltb_spec (Text.code_point ch) 128) as [Hlt|Hge].
  - apply andb_true_iff in E. rewrite !Z.leb_le in E. lia.
  - pose proof (todecimal_range (Text.code_point ch)).
    apply Z.leb_le in E. lia.
Qed.

Lemma int_digits_nonneg (l : list string) : 0 <= Text.int_digits l.
Proof.
  unfold Text.int_digits.
  assert (H : forall acc, 0 <= acc ->
                0 <= fold_left (fun acc ch => acc * 10 + Text.digit_val ch)
                               l acc).
  { induction l as [|c l IH]; simpl; intros acc Hacc; [exact Hacc|].
    apply IH. pose proof (digit_val_range c). lia. }
  apply H. lia.
Qed.

(** [int] on a run of digits gives a number that is not negative, and
    raises nothing but [ValueError]. *)
Lemma to_int_spec (s : string) :
  match Text.to_int s with
  | Ok n => 0 <= n
  | Raise e => e = ValueError
  end.
Proof.
  unfold Text.to_int.
  destruct ((640 <? _) && (0 <? int_max_str_digits)
            && (int_max_str_digits <? _)); [reflexivity|].
  apply int_digits_nonneg.
Qed.

Lemma is_word_space : Text.is_word " " = false.
Proof. reflexivity. Qed.

Lemma is_digit_space : Text.is_digit " " = false.
Proof. reflexivity. Qed.

Lemma join_nonempty (l : list string) :
  l <> [] -> Forall (fun ch => well_cut ch = true) l -> Text.join l <> "".
Proof.
  intros Hne H. destruct H as [|ch l Hch _]; [congruence|].
  destruct ch as [|a t]; [discriminate|]. discriminate.
Qed.

Lemma stops_begins (p : string -> bool) (s : string) :
  stops p s = true -> Text.begins_with_continuation s = false.
Proof.
  unfold stops. destruct (Text.chars s) as [|g gs] eqn:E.
  - apply chars_nil in E. now subst.
  - intros H. apply andb_true_iff in H. destruct H as [H _].
    apply negb_true_iff in H. now rewrite <- (chars_begins _ _ _ E).
Qed.

Lemma every_char_begins (p : string -> bool) (s : string) :
  (forall ch, p ch = true -> 0 <= Text.code_point ch) ->
  every_char p s = true -> Text.begins_with_continuation s = false.
Proof.
  unfold every_char. intros Hp H.
  rewrite <- (join_chars s). apply join_begins.
  now apply (class_well_cut p).
Qed.

Lemma match_period_inv (desc digits word : string) :
  Text.match_period desc = Some (digits, word) ->
  exists rest,
    desc = (digits ++ " " ++ word ++ rest)%string /\
    digits <> "" /\ every_char Text.is_digit digits = true /\
    word <> "" /\ every_char Text.is_word word = true /\
    stops Text.is_word rest = true.
Proof.
  unfold Text.match_period.
  destruct (Text.span Text.is_digit (Text.chars desc)) as [ds r1] eqn:E1.
  destruct ds as [|d ds]; [discriminate|].
  destruct r1 as [|sp r1]; [discriminate|].
  destruct (Text.is_space sp) eqn:Esp; [|discriminate].
  apply String.eqb_eq in Esp. subst sp.
  destruct (Text.span Text.is_word r1) as [wd r2] eqn:E2.
  destruct wd as [|x wd]; [discriminate|].
  intros H. injection H as <- <-.
  apply span_spec in E1, E2. destruct E1 as [Hdesc [Hd _]].
  destruct E2 as [-> [Hw Hstop]].
  pose proof (class_well_cut _ _ is_digit_code Hd) as Wd.
  pose proof (class_well_cut _ _ is_word_code Hw) as Ww.
  assert (Wrest : Forall (fun ch => well_cut ch = true) r2).
  { assert (Htail : Forall (fun ch => well_cut ch = true)
                           (ds ++ " " :: (x :: wd) ++ r2)).
    { apply (chars_tail_well_cut desc d). now rewrite Hdesc. }
    apply Forall_app in Htail. destruct Htail as [_ Htail].
    inversion Htail as [|? ? _ Htail']; subst.
    change (x :: wd ++ r2) with ((x :: wd) ++ r2) in Htail'.
    apply Forall_app in Htail'. apply Htail'. }
  exists (Text.join r2). split.
  { rewrite <- (join_chars desc), Hdesc.
    rewrite join_app. f_equal. change (" " :: (x :: wd) ++ r2)
      with ([" "] ++ (x :: wd) ++ r2).
    now rewrite !join_app. }
  split; [apply (join_nonempty (d :: ds)); [discriminate|exact Wd]|].
  split.
  { unfold every_char.
    match goal with
    | |- forallb _ (Text.chars ?t) = true => change t with (Text.join (d :: ds))
    end.
    now rewrite chars_join. }
  split; [apply (join_nonempty (x :: wd)); [discriminate|exact Ww]|].
  split.
  { unfold every_char.
    match goal with
    | |- forallb _ (Text.chars ?t) = true => change t with (Text.join (x :: wd))
    end.
    now rewrite chars_join. }
  unfold stops. rewrite chars_join by exact Wrest.
  destruct r2 as [|ch r2]; [reflexivity|].
  inversion Wrest as [|? ? Hch _]; subst. rewrite Hstop.
  destruct ch as [|a t]; [discriminate|]. simpl in *.
  apply andb_true_iff in Hch. destruct Hch as [Ha _]. now rewrite Ha.
Qed.

Lemma match_period_complete (digits word rest : string) :
  digits <> "" -> every_char Text.is_digit digits = true ->
  word <> "" -> every_char Text.is_word word = true ->
  stops Text.is_word rest = true ->
  Text.match_period (digits ++ " " ++ word ++ rest)%string
  = Some (digits, word).
Proof.
  intros Hd1 Hd2 Hw1 Hw2 Hstop. unfold Text.match_period.
  pose proof (stops_begins _ _ Hstop) as Brest.
  pose proof (every_char_begins _ _ is_word_code Hw2) as Bword.
  assert (Bwr : Text.begins_with_continuation (word ++ rest) = false).
  { destruct word as [|c wd]; [congruence|]. exact Bword. }
  rewrite chars_app by reflexivity.
  change (" " ++ word ++ rest)%string with (" " ++ (word ++ rest))%string.
  rewrite (chars_cons " " (word ++ rest) eq_refl Bwr).
  rewrite (chars_app word rest Brest).
  unfold every_char in Hd2, Hw2.
  rewrite (span_greedy Text.is_digit (Text.chars digits)) by (auto; reflexivity).
  destruct (Text.chars digits) as [|d ds] eqn:Ed.
  { apply chars_nil in Ed. congruence. }
  change (Text.is_space " ") with true. cbv iota.
  rewrite (span_greedy Text.is_word (Text.chars word)).
  - destruct (Text.chars word) as [|x wd] eqn:Ew.
    { apply chars_nil in Ew. congruence. }
    rewrite <- Ed, <- Ew, !join_chars. reflexivity.
  - exact Hw2.
  - unfold stops in Hstop. destruct (Text.chars rest) as [|ch r]; [exact I|].
    apply andb_true_iff in Hstop. destruct Hstop as [_ H].
    now apply negb_true_iff in H.
Qed.

(** X7: the recurrence pattern reads the longest run of decimal digits at
    the very start of the notes, one space, and the longest run of word
    characters after it, in the characters of any script.
    [match_period] succeeds exactly on the notes of that shape, with
    exactly these two groups; and when [int] converts the digits the
    count is never negative. *)
Theorem match_period_reads_the_leading_rule :
  (forall (desc digits word : string),
      Text.match_period desc = Some (digits, word) ->
      exists rest,
        desc = (digits ++ " " ++ word ++ rest)%string /\
        digits <> "" /\ every_char Text.is_digit digits = true /\
        word <> "" /\ every_char Text.is_word word = true /\
        stops Text.is_word rest = true)
  /\
  (forall (digits word rest : string),
      digits <> "" -> every_char Text.is_digit digits = true ->
      word <> "" -> every_char Text.is_word word = true ->
      stops Text.is_word rest = true ->
      Text.match_period (digits ++ " " ++ word ++ rest)%string
      = Some (digits, word))
  /\
  (forall (digits : string) (n : Z), Text.to_int digits = Ok n -> 0 <= n).
Proof.
  split; [exact match_period_inv|]. split; [exact match_period_complete|].
  intros digits n H. pose proof (to_int_spec digits) as Hs.
  now rewrite H in Hs.
Qed.

(** ** What the filter hands to [process_card] *)

Lemma directive_range (two : string -> string -> bool) (one : string -> bool)
  (l r : list string) (v : Z) :
  Text.directive two one l = Some (v, r) -> 0 <= v <= 99.
Proof.
  unfold Text.directive. destruct l as [|a [|b l]]; [discriminate| |].
  - pose proof (digit_val_range a) as Ra.
    destruct (one a); [|discriminate]. intros H. inversion H. subst. lia.
  - pose proof (digit_val_range a) as Ra. pose proof (digit_val_range b) as Rb.
    destruct (two a b); [intros H; inversion H; subst; lia|].
    destruct (one a); [|discriminate]. intros H. inversion H. subst. lia.
Qed.

Lemma dir_Y_range (l r : list string) (v : Z) :
  Text.dir_Y l = Some (v, r) -> 0 <= v <= 9999.
Proof.
  unfold Text.dir_Y. destruct l as [|a [|b [|c [|d l]]]]; try discriminate.
  destruct (_ && _); [|discriminate]. intros H. inversion H. subst.
  unfold Text.int_digits. simpl.
  pose proof (digit_val_range a) as Ra. pose proof (digit_val_range b) as Rb.
  pose proof (digit_val_range c) as Rc. pose proof (digit_val_range d) as Rd. lia.
Qed.

(** The fields that the pattern of [dateformat] reads are small. *)
Lemma scan_dateformat_range (s : string) (y mo d h mi sec : Z) :
  Text.scan_dateformat s = Some (y, mo, d, h, mi, sec) ->
  0 <= y <= 9999 /\ 0 <= mo <= 99 /\ 0 <= d <= 99 /\ 0 <= h <= 99 /\
  0 <= mi <= 99 /\ 0 <= sec <= 99.
Proof.
  unfold Text.scan_dateformat, Text.bind_opt.
  destruct (Text.dir_Y _) as [[y' l1]|] eqn:EY; [|discriminate].
  destruct (Text.lit "-" l1) as [l2|]; [|discriminate].
  destruct (Text.dir_m l2) as [[mo' l3]|] eqn:Em; [|discriminate].
  destruct (Text.lit "-" l3) as [l4|]; [|discriminate].
  destruct (Text.dir_d l4) as [[d' l5]|] eqn:Ed; [|discriminate].
  destruct (Text.lit "T" l5) as [l6|]; [|discriminate].
  destruct (Text.dir_H l6) as [[h' l7]|] eqn:EH; [|discriminate].
  destruct (Text.lit ":" l7) as [l8|]; [|discriminate].
  destruct (Text.dir_M l8) as [[mi' l9]|] eqn:EM; [|discriminate].
  destruct (Text.lit ":" l9) as [l10|]; [|discriminate].
  destruct (Text.dir_S l10) as [[sec' l11]|] eqn:ES; [|discriminate].
  destruct (Text.lit "." l11) as [l12|]; [|discriminate].
  destruct (Text.lit "0" l12) as [l13|]; [|discriminate].
  destruct (Text.lit "0" l13) as [l14|]; [|discriminate].
  destruct (Text.lit "0" l14) as [l15|]; [|discriminate].
  destruct (Text.lit "Z" l15) as [l16|]; [|discriminate].
  destruct l16; [|discriminate]. intros H. inversion H. subst.
  apply dir_Y_range in EY.
  apply directive_range in Em, Ed, EH, EM, ES. tauto.
Qed.

Lemma strptime_ok (s : option string) (d : datetime) :
  Text.strptime s = Ok d -> valid d /\ microsecond d = 0.
Proof.
  unfold Text.strptime. destruct s as [s|]; [|discriminate].
  destruct (Text.scan_dateformat s) as [[[[[[y mo] dd] h] mi] sec]|];
    [|discriminate].
  intros H. apply make_ok_valid in H. destruct H as [Hv ->]. auto.
Qed.

(** [strptime] raises [TypeError] on a due date that is no string and
    [ValueError] on a string it cannot read; the fields it reads always
    fit the constructor of [datetime]. *)
Lemma strptime_raises (s : option string) (e : exn) :
  Text.strptime s = Raise e -> e = TypeError \/ e = ValueError.
Proof.
  unfold Text.strptime. destruct s as [s|].
  - destruct (Text.scan_dateformat s) as [[[[[[y mo] dd] h] mi] sec]|] eqn:E.
    + apply scan_dateformat_range in E.
      unfold Datetime.make.
      replace (forallb fits_int [y; mo; dd; h; mi; sec; 0]) with true.
      * destruct (validb _); [discriminate|]. intros H. inversion H. auto.
      * symmetry. simpl. unfold fits_int.
        rewrite !andb_true_iff, !Z.leb_le. lia.
    + intros H. inversion H. auto.
  - intros H. inversion H. auto.
Qed.

Lemma period_of_well_formed (desc len type : string) :
  Text.match_period desc = Some (len, type) ->
  well_formed_count (fst (period_of len type)) /\
  snd (period_of len type) <> "" /\
  every_char Text.is_word (snd (period_of len type)) = true.
Proof.
  intros E.
  destruct (match_period_inv _ _ _ E)
    as [rest (_ & Hd1 & Hd2 & Hw1 & Hw2 & _)].
  unfold period_of. simpl. split; [|auto].
  pose proof (to_int_spec len) as Hs.
  destruct (Text.to_int len) as [n|e] eqn:Ei; simpl; [exact Hs|].
  subst e. auto.
Qed.

Lemma parsed_period_well_formed (now : datetime) (card : raw_card)
  (p : period_value * string) :
  parsed_period now card = Some p ->
  well_formed_count (fst p) /\ snd p <> "" /\
  every_char Text.is_word (snd p) = true.
Proof.
  unfold parsed_period. destruct (reaches_parse now card); [|discriminate].
  destruct (Text.match_period (rc_desc card)) as [[len type]|] eqn:E;
    [|discriminate].
  intros H. inversion H. subst. exact (period_of_well_formed _ _ _ E).
Qed.

(** The filter's loop keeps its rule and its cards well formed. *)
Lemma filter_loop_well_formed (now : datetime) (cards : list raw_card) :
  forall (period : option (period_value * string)) (acc : list Card)
         (w : world) (period' : option (period_value * string))
         (out : list Card) (w' : world),
    (forall p, period = Some p ->
               well_formed_count (fst p) /\ snd p <> "" /\
               every_char Text.is_word (snd p) = true) ->
    Forall (well_formed_card now) acc ->
    for_state cards (filter_body now) (period, acc) w
    = (Val (period', out), w') ->
    Forall (well_formed_card now) out.
Proof.
  induction cards as [|card cards IH];
    intros period acc w period' out w' Hp Hacc H.
  - simpl in H. unfold ret in H. inversion H. subst. exact Hacc.
  - rewrite for_state_cons in H.
    destruct (reaches_parse now card) as [d|] eqn:Hr.
    + pose proof (reaches_parse_inv now card d Hr) as [_ [Hstr Hlt]].
      apply strptime_ok in Hstr. destruct Hstr as [Hv Hus].
      assert (Hcard : forall p,
                 well_formed_count (fst p) /\ snd p <> "" /\
                 every_char Text.is_word (snd p) = true ->
                 Forall (well_formed_card now) (acc ++ [make_card card d p])).
      { intros p Hgood. apply Forall_app. split; [exact Hacc|].
        constructor; [|constructor]. unfold well_formed_card, make_card.
        simpl. tauto. }
      destruct (parsed_period_cases now card d Hr) as [[p Hpp]|[Hpp Hm]].
      * destruct (filter_body_parsed now card d p period acc w Hr Hpp)
          as [w1 [E1 _]].
        rewrite E1 in H.
        pose proof (parsed_period_well_formed now card p Hpp) as Hgood.
        eapply IH; [|apply Hcard; exact Hgood|exact H].
        intros q Hq. inversion Hq. subst. exact Hgood.
      * destruct period as [p|].
        -- destruct (filter_body_stale now card d p acc w Hr Hm)
             as [w1 [E1 _]].
           rewrite E1 in H.
           eapply IH; [|apply Hcard; apply Hp; reflexivity|exact H].
           exact Hp.
        -- destruct (filter_body_unbound now card d acc w Hr Hm)
             as [w1 [E1 _]].
           rewrite E1 in H. discriminate.
    + destruct (filter_body_skip now card (period, acc) w Hr) as [w1 [E1 _]].
      rewrite E1 in H. eapply IH; eauto.
Qed.

(** X8: every card the filter returns carries a due date that is a real
    timestamp with a zero microsecond field and lies before
    [current_time], and a unit that is a non-empty word, in the characters
    of any script.  Its count is the [int] of the digits of its rule,
    which is never negative, or, when [int] refused the digits for their
    number, the digits themselves as a [str].  This holds for the cards
    that reuse the rule of an earlier card as well. *)
Theorem filter_returns_well_formed_cards :
  forall (current_time : datetime) (cards : list raw_card) (w w' : world)
         (out : list Card),
    filter_out_cards current_time cards w = (Val out, w') ->
    Forall (well_formed_card current_time) out.
Proof.
  intros now cards w w' out H. unfold filter_out_cards, bind, ret in H.
  destruct (for_state cards (filter_body now) (None, []) w)
    as [[[period out1]|e|] w1] eqn:E; try discriminate.
  inversion H. subst. simpl.
  eapply filter_loop_well_formed; [| |exact E].
  - intros p Hp. discriminate.
  - constructor.
Qed.

(** ** Writing a due date and reading it back *)

Lemma digit_cases (k : Z) :
  0 <= k <= 9 ->
  k = 0 \/ k = 1 \/ k = 2 \/ k = 3 \/ k = 4 \/ k = 5 \/ k = 6 \/ k = 7 \/
  k = 8 \/ k = 9.
Proof. lia. Qed.

Ltac each_digit k H :=
  destruct (digit_cases k H) as [?|[?|[?|[?|[?|[?|[?|[?|[?|?]]]]]]]]]; subst k.

Lemma digit_char_spec (k : Z) :
  0 <= k <= 9 ->
  Text.is_digit (String (Text.digit_char k) EmptyString) = true /\
  Text.digit_val (String (Text.digit_char k) EmptyString) = k /\
  Text.is_space (String (Text.digit_char k) EmptyString) = false /\
  Text.code_point (String (Text.digit_char k) EmptyString) = 48 + k /\
  (Text.byte (Text.digit_char k) <? 128) = true.
Proof. intros H. each_digit k H; repeat split; reflexivity. Qed.

Lemma between_digit_char (lo hi k : Z) :
  0 <= k <= 9 ->
  Text.between lo hi (String (Text.digit_char k) EmptyString)
  = (lo <=? k) && (k <=? hi).
Proof.
  intros H. unfold Text.between.
  destruct (digit_char_spec k H) as [_ [_ [_ [-> _]]]].
  f_equal.
  - destruct (Z.leb_spec (48 + lo) (48 + k)), (Z.leb_spec lo k);
      try reflexivity; lia.
  - destruct (Z.leb_spec (48 + k) (48 + hi)), (Z.leb_spec k hi);
      try reflexivity; lia.
Qed.

(** A text of ASCII characters has one character for each byte. *)
Lemma chars_ascii (s : string) :
  all_chars (fun c => Text.byte c <? 128) s = true ->
  Text.chars s
  = map (fun c => String c EmptyString) (list_ascii_of_string s).
Proof.
  induction s as [|c r IH]; [reflexivity|]. cbn [all_chars]. intros H.
  apply andb_true_iff in H. destruct H as [Hc Hr].
  rewrite chars_step, (IH Hr).
  replace (Text.begins_with_continuation r) with false; [reflexivity|].
  destruct r as [|x r]; [reflexivity|]. cbn [all_chars] in Hr.
  apply andb_true_iff in Hr. destruct Hr as [Hx _].
  apply Z.ltb_lt in Hx. symmetry. apply not_continuation. lia.
Qed.

(** A two-digit field is read back by a directive that admits it. *)
Lemma directive_pad2 (two : string -> string -> bool) (one : string -> bool)
  (n : Z) (rest : list string) :
  0 <= n <= 99 ->
  two (String (Text.digit_char (n / 10)) EmptyString)
      (String (Text.digit_char (n mod 10)) EmptyString) = true ->
  Text.directive two one
    (String (Text.digit_char (n / 10)) EmptyString
     :: String (Text.digit_char (n mod 10)) EmptyString :: rest)
  = Some (n, rest).
Proof.
  intros Hn Htwo. unfold Text.directive. rewrite Htwo.
  destruct (digit_char_spec (n / 10) ltac:(lia)) as [_ [H2 _]].
  destruct (digit_char_spec (n mod 10) ltac:(lia)) as [_ [H3 _]].
  rewrite H2, H3. f_equal. f_equal. lia.
Qed.

Ltac admits :=
  rewrite ?between_digit_char by lia;
  repeat match goal with
         | |- context [Text.is_digit (String (Text.digit_char ?k) _)] =>
             rewrite (proj1 (digit_char_spec k ltac:(lia)))
         | |- context [Text.is_space (String (Text.digit_char ?k) _)] =>
             rewrite (proj1 (proj2 (proj2 (digit_char_spec k ltac:(lia)))))
         end;
  rewrite ?andb_true_r, ?andb_false_l, ?orb_false_r;
  rewrite ?orb_true_iff, ?andb_true_iff, ?Z.leb_le; lia.

Lemma dir_m_pad2 (n : Z) (rest : list string) :
  1 <= n <= 12 ->
  Text.dir_m (String (Text.digit_char (n / 10)) EmptyString
              :: String (Text.digit_char (n mod 10)) EmptyString :: rest)
  = Some (n, rest).
Proof. intros H. apply directive_pad2; [lia|]. admits. Qed.

Lemma dir_d_pad2 (n : Z) (rest : list string) :
  1 <= n <= 31 ->
  Text.dir_d (String (Text.digit_char (n / 10)) EmptyString
              :: String (Text.digit_char (n mod 10)) EmptyString :: rest)
  = Some (n, rest).
Proof. intros H. apply directive_pad2; [lia|]. admits. Qed.

Lemma dir_H_pad2 (n : Z) (rest : list string) :
  0 <= n <= 23 ->
  Text.dir_H (String (Text.digit_char (n / 10)) EmptyString
              :: String (Text.digit_char (n mod 10)) EmptyString :: rest)
  = Some (n, rest).
Proof. intros H. apply directive_pad2; [lia|]. admits. Qed.

Lemma dir_M_pad2 (n : Z) (rest : list string) :
  0 <= n <= 59 ->
  Text.dir_M (String (Text.digit_char (n / 10)) EmptyString
              :: String (Text.digit_char (n mod 10)) EmptyString :: rest)
  = Some (n, rest).
Proof. intros H. apply directive_pad2; [lia|]. admits. Qed.

Lemma dir_S_pad2 (n : Z) (rest : list string) :
  0 <= n <= 59 ->
  Text.dir_S (String (Text.digit_char (n / 10)) EmptyString
              :: String (Text.digit_char (n mod 10)) EmptyString :: rest)
  = Some (n, rest).
Proof. intros H. apply directive_pad2; [lia|]. admits. Qed.

Lemma dir_Y_pad4 (n : Z) (rest : list string) :
  1000 <= n <= 9999 ->
  Text.dir_Y (String (Text.digit_char (n / 1000)) EmptyString
              :: String (Text.digit_char (n / 100 mod 10)) EmptyString
              :: String (Text.digit_char (n / 10 mod 10)) EmptyString
              :: String (Text.digit_char (n mod 10)) EmptyString :: rest)
  = Some (n, rest).
Proof.
  intros H. unfold Text.dir_Y.
  destruct (digit_char_spec (n / 1000) ltac:(lia)) as [A1 [A2 _]].
  destruct (digit_char_spec (n / 100 mod 10) ltac:(lia)) as [B1 [B2 _]].
  destruct (digit_char_spec (n / 10 mod 10) ltac:(lia)) as [C1 [C2 _]].
  destruct (digit_char_spec (n mod 10) ltac:(lia)) as [D1 [D2 _]].
  rewrite A1, B1, C1, D1. cbn [andb]. unfold Text.int_digits.
  cbn [fold_left]. rewrite A2, B2, C2, D2. f_equal. f_equal. lia.
Qed.

Lemma lit_head (c : ascii) (rest : list string) :
  Text.lit c (String c EmptyString :: rest) = Some rest.
Proof. unfold Text.lit. now rewrite Ascii.eqb_refl. Qed.

Lemma whole_second_valid (d : datetime) : valid d -> valid (whole_second d).
Proof.
  intros Hv. apply valid_inv in Hv. destruct Hv as [Hd [Hh [Hm [Hs _]]]].
  apply valid_intro; cbn [whole_second year month day hour minute second
                          microsecond]; auto. lia.
Qed.

Lemma scan_strftime (d : datetime) :
  valid d -> 1000 <= year d ->
  Text.scan_dateformat (Text.strftime d)
  = Some (year d, month d, day d, hour d, minute d, second d).
Proof.
  intros Hv Hy.
  pose proof (valid_inv d Hv) as [[Hyr [Hm Hd]] [Hh [Hmi [Hs _]]]].
  pose proof (days_in_month_bounds (year d) (month d) Hm) as Hdim.
  unfold MAXYEAR in Hyr.
  unfold Text.strftime, Text.format_year, Text.scan_dateformat.
  rewrite (proj2 (Z.leb_le 1000 (year d)) Hy). cbn [orb].
  unfold Text.pad4, Text.pad2. cbn [append].
  rewrite chars_ascii.
  2: { cbn [all_chars].
       repeat match goal with
              | |- context [Text.byte (Text.digit_char ?k) <? 128] =>
                  rewrite (proj2 (proj2 (proj2 (proj2
                             (digit_char_spec k ltac:(lia))))))
              end.
       reflexivity. }
  cbn [list_ascii_of_string map].
  rewrite dir_Y_pad4 by lia. cbn [Text.bind_opt].
  rewrite lit_head. cbn [Text.bind_opt].
  rewrite dir_m_pad2 by lia. cbn [Text.bind_opt].
  rewrite lit_head. cbn [Text.bind_opt].
  rewrite dir_d_pad2 by lia. cbn [Text.bind_opt].
  rewrite lit_head. cbn [Text.bind_opt].
  rewrite dir_H_pad2 by lia. cbn [Text.bind_opt].
  rewrite lit_head. cbn [Text.bind_opt].
  rewrite dir_M_pad2 by lia. cbn [Text.bind_opt].
  rewrite lit_head. cbn [Text.bind_opt].
  rewrite dir_S_pad2 by lia. cbn [Text.bind_opt].
  rewrite !lit_head. cbn [Text.bind_opt]. rewrite ?lit_head.
  reflexivity.
Qed.

Lemma strptime_strftime (d : datetime) :
  valid d -> 1000 <= year d ->
  Text.strptime (Some (Text.strftime d)) = Ok (whole_second d).
Proof.
  intros Hv Hy. unfold Text.strptime. rewrite scan_strftime by assumption.
  apply (make_valid (whole_second d)). now apply whole_second_valid.
Qed.

(** X9: a due date written with [strftime(dateformat)] is read back by
    [strptime(..., dateformat)] as the same timestamp without its
    microseconds, for every timestamp from the year 1000 on; a timestamp
    with a zero microsecond field is read back unchanged. *)
Theorem written_due_date_reads_back :
  forall d : datetime,
    valid d -> 1000 <= year d ->
    Text.strptime (Some (Text.strftime d)) = Ok (whole_second d) /\
    (microsecond d = 0 -> Text.strptime (Some (Text.strftime d)) = Ok d).
Proof.
  intros d Hv Hy. split; [now apply strptime_strftime|].
  intros Hus. rewrite strptime_strftime by assumption.
  unfold whole_second. rewrite <- Hus. destruct d. reflexivity.
Qed.

(** X10: a task that [process_card] has just relocated is not picked up
    again by the filter under the same [current_time]: the due date it
    wrote reads back as a timestamp that is not before [current_time], so
    the task does not reach the recurrence parse, whatever its labels and
    notes. *)
Theorem relocated_task_is_not_eligible_again :
  forall (current_time d : datetime) (card : raw_card),
    valid d -> 1000 <= year d -> microsecond d = 0 ->
    geb d current_time = true ->
    rc_due card = Some (Text.strftime d) ->
    reaches_parse current_time card = None /\
    forall w, exists w',
      filter_out_cards current_time [card] w = (Val [], w') /\
      puts w' = puts w.
Proof.
  intros now d card Hv Hy Hus Hge Hdue.
  assert (Hr : reaches_parse now card = None).
  { unfold reaches_parse. rewrite Hdue.
    rewrite (strptime_strftime d Hv Hy).
    unfold whole_second. rewrite <- Hus.
    replace (mk (year d) (month d) (day d) (hour d) (minute d) (second d)
                (microsecond d)) with d by (destruct d; reflexivity).
    unfold geb in Hge. apply negb_true_iff in Hge. rewrite Hge.
    destruct (is_regular card); reflexivity. }
  split; [exact Hr|]. intros w.
  unfold filter_out_cards, bind. rewrite for_state_cons.
  destruct (filter_body_skip now card (None, []) w Hr) as [w1 [E1 P1]].
  rewrite E1. simpl. unfold ret. eexists. split; [reflexivity|exact P1].
Qed.

(** ** Weekly rules and the router *)

Lemma toordinal_to_us (d : datetime) :
  valid d -> toordinal d = to_us d / US_PER_DAY.
Proof.
  intros Hv. apply valid_inv in Hv. destruct Hv as [_ [Hh [Hm [Hs Hu]]]].
  unfold to_us, US_PER_DAY. lia.
Qed.

Lemma add_whole_days (d d' : datetime) (k : Z) :
  valid d -> add_us d (k * US_PER_DAY) = Ok d' ->
  valid d' /\ toordinal d' = toordinal d + k.
Proof.
  intros Hv H. apply add_us_ok in H; [|exact Hv].
  destruct H as [Hv' [Ht _]]. split; [exact Hv'|].
  rewrite (toordinal_to_us d' Hv'), (toordinal_to_us d Hv), Ht.
  unfold US_PER_DAY. lia.
Qed.

Lemma advance_weeks_loop (now : datetime) (card : Card) :
  period_type card = "weeks" ->
  forall (fuel : nat) (d r : datetime),
    valid d -> advance fuel now card d = Val r ->
    valid r /\ weekday r = weekday d.
Proof.
  intros Hu.
  assert (Hus : unit_us (period_type card) = Some 604800000000)
    by (rewrite Hu; reflexivity).
  induction fuel as [|fuel IH]; intros d r Hv H; simpl in H;
    destruct (ltb d now) eqn:E; try discriminate.
  - inversion H. subst. auto.
  - destruct (period_len card) as [n|s] eqn:Hlen.
    + destruct (kw_fixed _ _ n Hus) as [rd [Hkw [Hrel [Hm [Hy Hd]]]]].
      rewrite (add_period_int card n rd d Hlen Hkw) in H.
      rewrite (radd_fixed d rd Hv Hrel Hm Hy), Hd in H.
      replace (n * 604800000000) with (7 * n * US_PER_DAY) in H
        by (unfold US_PER_DAY; lia).
      destruct (add_us d (7 * n * US_PER_DAY)) as [d'|] eqn:Ea;
        [|discriminate].
      apply add_whole_days in Ea; [|exact Hv]. destruct Ea as [Hv' Ho].
      destruct (IH d' r Hv' H) as [Hvr Hw]. split; [exact Hvr|].
      rewrite Hw. unfold weekday. rewrite Ho.
      pose proof (Z.mod_pos_bound (toordinal d + 6) 7 ltac:(lia)).
      pose proof (Z.mod_pos_bound (toordinal d + 7 * n + 6) 7 ltac:(lia)).
      lia.
    + unfold add_period in H. rewrite Hlen, Hu in H. discriminate.
  - inversion H. subst. auto.
Qed.

(** X11: a rule in weeks never changes the weekday: whatever the count
    and however many periods the loop adds, the new due date falls on the
    weekday of the old one, so the router sends the task to the list the
    old due date names. *)
Theorem weekly_rule_keeps_the_weekday :
  forall (fuel : nat) (current_time : datetime) (card : Card) (r : datetime),
    valid (due card) -> period_type card = "weeks" ->
    advance fuel current_time card (due card) = Val r ->
    weekday r = weekday (due card) /\
    weekday_name r = weekday_name (due card) /\
    forall lists, target_list r lists = target_list (due card) lists.
Proof.
  intros fuel now card r Hv Hu H.
  destruct (advance_weeks_loop now card Hu fuel (due card) r Hv H) as [_ Hw].
  split; [exact Hw|].
  assert (Hn : weekday_name r = weekday_name (due card))
    by (unfold weekday_name; now rewrite Hw).
  split; [exact Hn|]. intros lists. now rewrite !target_list_find, Hn.
Qed.

(** ** The requests of a whole run *)

(** A loop whose body only appends requests of one kind, and stops in one
    of a set of ways, does the same as a whole. *)
Lemma for_each_appends {A : Type} (P : put -> Prop) (stop : res unit -> Prop)
  (body : A -> M unit) (l : list A) :
  (forall x w, exists r w' ps,
      body x w = (r, w') /\ (r = Val tt \/ stop r) /\
      puts w' = puts w ++ ps /\ Forall P ps) ->
  forall w, exists r w' ps,
    for_each l body w = (r, w') /\ (r = Val tt \/ stop r) /\
    puts w' = puts w ++ ps /\ Forall P ps.
Proof.
  intros Hbody. unfold for_each.
  induction l as [|x l IH]; intros w.
  - exists (Val tt), w, []. simpl. unfold ret. rewrite app_nil_r. auto.
  - rewrite for_state_cons.
    destruct (Hbody x w) as [r [w1 [ps [E [Hr [Hp HP]]]]]]. rewrite E.
    destruct r as [[]|e|].
    + destruct (IH w1) as [r2 [w2 [ps2 [E2 [Hr2 [Hp2 HP2]]]]]].
      exists r2, w2, (ps ++ ps2). split; [exact E2|]. split; [exact Hr2|].
      split.
      * rewrite Hp2, Hp. now rewrite app_assoc.
      * apply Forall_app. auto.
    + exists (Exc e), w1, ps. auto.
    + exists Hang, w1, ps. auto.
Qed.

Lemma construct_cards_to_order_raise_kind (cards : list raw_card) (e : exn) :
  construct_cards_to_order cards = Raise e -> e = TypeError \/ e = ValueError.
Proof.
  induction cards as [|card cards IH]; simpl; [discriminate|].
  destruct (Text.strptime (rc_due card)) as [d|e1] eqn:E.
  - destruct (construct_cards_to_order cards) as [tail|e2]; [discriminate|].
    intros H. inversion H. subst. now apply IH.
  - intros H. inversion H. subst. eapply strptime_raises; eauto.
Qed.

Lemma get_cards_outcome (req : Requester) (l : List) (w : world) :
  exists cards w',
    get_cards req l w = (Val cards, w') /\ puts w' = puts w /\
    (cards = [] \/
     cards_response req (puts w) (list_identifier l) = Some cards).
Proof.
  unfold get_cards.
  destruct (cards_response req (puts w) (list_identifier l)); run;
    eexists _, _; (split; [reflexivity|]); simpl; auto.
Qed.

Lemma filter_out_cards_outcome (now : datetime) (cards : list raw_card)
  (w : world) :
  exists r w',
    filter_out_cards now cards w = (r, w') /\ puts w' = puts w /\
    ((exists out, r = Val out) \/ r = Exc NameError).
Proof.
  unfold filter_out_cards, bind.
  destruct (filter_loop_spec now cards None [] w) as [r [w' [E [P S]]]].
  rewrite E. destruct r as [[period out]|e|].
  - eexists _, _. split; [reflexivity|]. split; [exact P|]. left. eauto.
  - destruct S as [-> _]. eexists _, _. split; [reflexivity|]. auto.
  - contradiction.
Qed.

Lemma update_due_dates_outcome (fuel : nat) (req : Requester)
  (now : datetime) (lists : list List) (l : List) (w : world) :
  exists r w' ps,
    update_due_dates fuel req now lists l w = (r, w') /\
    (r = Val tt \/ stops_in_phase_one r) /\
    puts w' = puts w ++ ps /\ Forall (due_request now lists) ps.
Proof.
  unfold update_due_dates. unfold bind at 1. unfold logger at 1.
  unfold bind at 1.
  match goal with |- context [get_cards req l ?w0] =>
    destruct (get_cards_outcome req l w0) as [raw [w1 [E1 [P1 Hraw]]]] end.
  rewrite E1. unfold bind at 1.
  destruct (filter_out_cards_outcome now raw w1) as [r [w2 [E2 [P2 Hr]]]].
  rewrite E2. destruct Hr as [[cards ->] | ->].
  - assert (Hbody : forall (card : Card) (w : world), exists r w' ps,
               (logger INFO "Start to process card" ;;
                process_card fuel req now card lists) w = (r, w') /\
               (r = Val tt \/ stops_in_phase_one r) /\
               puts w' = puts w ++ ps /\ Forall (due_request now lists) ps).
    { intros card w0. unfold bind, logger.
      match goal with |- context [process_card fuel req now card lists ?w3] =>
        destruct (process_card_outcome fuel req now card lists w3)
          as [r [w4 [E [Hr Hp]]]] end.
      rewrite E. simpl in Hp.
      assert (Hr' : r = Val tt \/ stops_in_phase_one r).
      { destruct Hr as [-> | [-> _]]; [auto|]. right. left. reflexivity. }
      destruct Hp as [Hp|[p [Hp Hrel]]].
      - exists r, w4, []. rewrite app_nil_r. auto.
      - exists r, w4, [p]. repeat split; auto.
        constructor; [|constructor]. exists card. exact Hrel. }
    destruct (for_each_appends _ _ _ cards Hbody w2)
      as [r [w3 [ps [E3 [Hr3 [P3 HP3]]]]]].
    exists r, w3, ps. split; [exact E3|]. split; [exact Hr3|].
    split; [|exact HP3]. rewrite P3, P2, P1. reflexivity.
  - exists (Exc NameError), w2, []. split; [reflexivity|].
    split; [right; right; reflexivity|]. split; [|constructor].
    rewrite app_nil_r, P2, P1. reflexivity.
Qed.

Lemma order_cards_outcome_strong (req : Requester) (l : List) (w : world) :
  exists r w' ps,
    order_cards req l w = (r, w') /\
    (r = Val tt \/
     stops_in_phase_two r /\
     exists raw e,
       cards_response req (puts w) (list_identifier l) = Some raw /\
       construct_cards_to_order raw = Raise e) /\
    puts w' = puts w ++ ps /\ Forall bottom_request ps.
Proof.
  unfold order_cards. unfold bind at 1. unfold logger at 1.
  unfold bind at 1.
  match goal with |- context [get_cards req l ?w0] =>
    destruct (get_cards_outcome req l w0) as [raw [w1 [E1 [P1 Hraw]]]] end.
  rewrite E1. unfold bind at 1. simpl in P1, Hraw.
  destruct (construct_cards_to_order raw) as [cards|e] eqn:Ec.
  - unfold of_result, ret at 1. unfold bind at 1. unfold logger at 1.
    unfold bind at 1. unfold logger at 1. unfold bind at 1.
    match goal with |- context [for_each _ _ ?w2] =>
      destruct (set_card_order_all req (sort_cards cards) w2)
        as [w3 [E3 P3]] end.
    rewrite E3. unfold logger.
    eexists _, _, _. split; [reflexivity|]. split; [left; reflexivity|].
    simpl. split.
    + rewrite P3. simpl. rewrite P1. reflexivity.
    + apply Forall_forall. intros p Hp. apply in_map_iff in Hp.
      destruct Hp as [c [<- _]]. eexists. reflexivity.
  - unfold of_result, raise.
    exists (Exc e), w1, []. split; [reflexivity|]. split.
    + right. split.
      * destruct (construct_cards_to_order_raise_kind raw e Ec) as [-> | ->];
          [left|right]; reflexivity.
      * destruct Hraw as [-> | Hraw]; [discriminate|]. eauto.
    + split; [|constructor]. rewrite app_nil_r, P1. reflexivity.
Qed.

Lemma order_cards_outcome (req : Requester) (l : List) (w : world) :
  exists r w' ps,
    order_cards req l w = (r, w') /\
    (r = Val tt \/ stops_in_phase_two r) /\
    puts w' = puts w ++ ps /\ Forall bottom_request ps.
Proof.
  destruct (order_cards_outcome_strong req l w)
    as [r [w' [ps [E [Hr HP]]]]].
  exists r, w', ps. split; [exact E|]. split; [|exact HP]. tauto.
Qed.

Lemma get_lists_outcome (req : Requester) (w : world) :
  exists lists w', get_lists req w = (Val lists, w') /\ puts w' = puts w.
Proof.
  unfold get_lists. destruct (lists_response req) as [resp|]; run.
  - destruct (negb _); run; eauto.
  - eauto.
Qed.

Lemma main_outcome (fuel : nat) (req : Requester) (now : datetime)
  (w : world) :
  exists r w' lists dues bottoms,
    fst (get_lists req w) = Val lists /\
    main fuel req now w = (r, w') /\
    puts w' = puts w ++ dues ++ bottoms /\
    Forall (due_request now lists) dues /\
    Forall bottom_request bottoms /\
    (r = Val tt \/ stops_in_phase_one r \/ stops_in_phase_two r) /\
    (stops_in_phase_one r -> bottoms = []).
Proof.
  destruct (get_lists_outcome req w) as [lists [w1 [E1 P1]]].
  unfold main. unfold bind at 1. rewrite E1.
  unfold bind at 1. unfold logger at 1. unfold bind at 1.
  match goal with |- context [for_each lists _ ?w2] =>
    destruct (for_each_appends _ _ _ lists
                (update_due_dates_outcome fuel req now lists) w2)
      as [r2 [w3 [dues [E2 [Hr2 [P2 HP2]]]]]] end.
  rewrite E2. simpl in P2. rewrite P1 in P2.
  destruct Hr2 as [-> | Hstop].
  - unfold bind at 1. unfold logger at 1.
    match goal with |- context [for_each lists _ ?w4] =>
      destruct (for_each_appends _ _ _ lists (order_cards_outcome req) w4)
        as [r3 [w5 [bottoms [E3 [Hr3 [P3 HP3]]]]]] end.
    rewrite E3. simpl in P3. rewrite P2 in P3.
    exists r3, w5, lists, dues, bottoms. split; [reflexivity|].
    split; [reflexivity|]. split; [now rewrite P3, app_assoc|].
    split; [exact HP2|]. split; [exact HP3|]. split; [tauto|].
    intros Hone. destruct Hr3 as [-> | [-> | ->]];
      destruct Hone as [H|H]; discriminate.
  - exists r2, w3, lists, dues, []. split; [reflexivity|].
    assert (E : (let (r, w') := (r2, w3) in
                 match r with
                 | Val a =>
                     (logger INFO "Start to sort cards" ;;
                      for_each lists (order_cards req)) w'
                 | Exc e => (Exc e, w')
                 | Hang => (Hang, w')
                 end) = (r2, w3)).
    { destruct Hstop as [-> | ->]; reflexivity. }
    split; [exact E|]. split; [now rewrite app_nil_r|].
    split; [exact HP2|]. split; [constructor|]. split; [tauto|]. auto.
Qed.

(** X12: in a whole run every due-date request comes before every
    move-to-bottom request; each due-date request relocates a task: it
    carries the text, written without microseconds, of a timestamp that
    the loop of [process_card] reached and that is not before
    [current_time], and the identifier of one of the lists [get_lists]
    returned, named for that timestamp's weekday; and a run that ends in
    the first phase has sent no move-to-bottom request. *)
Theorem main_relocates_then_reorders :
  forall (fuel : nat) (req : Requester) (current_time : datetime) (w : world),
  exists (r : res unit) (w' : world) (lists : list List)
         (dues bottoms : list put),
    fst (get_lists req w) = Val lists /\
    main fuel req current_time w = (r, w') /\
    puts w' = puts w ++ dues ++ bottoms /\
    Forall (due_request current_time lists) dues /\
    Forall bottom_request bottoms /\
    (stops_in_phase_one r -> bottoms = []).
Proof.
  intros fuel req now w.
  destruct (main_outcome fuel req now w)
    as (r & w' & lists & dues & bottoms & H1 & H2 & H3 & H4 & H5 & _ & H7).
  exists r, w', lists, dues, bottoms.
  exact (conj H1 (conj H2 (conj H3 (conj H4 (conj H5 H7))))).
Qed.

(** X13: once the requester is built, and with answers of the service
    that are records of the shape the program reads, a run ends in one of
    five ways: [main] returns; or it is still in the loop of
    [process_card]; or the filter raised [NameError]; or [strptime] raised
    [TypeError] or [ValueError] in the second phase.  Nothing else leaves
    [main]; a failing request never does. *)
Theorem main_ends_in_one_of_five_ways :
  forall (fuel : nat) (req : Requester) (current_time : datetime) (w : world),
    fst (main fuel req current_time w) = Val tt \/
    fst (main fuel req current_time w) = Hang \/
    fst (main fuel req current_time w) = Exc NameError \/
    fst (main fuel req current_time w) = Exc TypeError \/
    fst (main fuel req current_time w) = Exc ValueError.
Proof.
  intros fuel req now w.
  destruct (main_outcome fuel req now w)
    as (r & w' & lists & dues & bottoms & _ & H2 & _ & _ & _ & H6 & _).
  rewrite H2. simpl.
  destruct H6 as [-> | [[-> | ->] | [-> | ->]]]; auto.
Qed.

Lemma construct_cards_to_order_returns (cards : list raw_card) :
  Forall (fun card => exists d, Text.strptime (rc_due card) = Ok d) cards ->
  exists out, construct_cards_to_order cards = Ok out.
Proof.
  induction 1 as [|card cards [d Hd] _ [out IH]]; simpl.
  - eauto.
  - rewrite Hd, IH. eauto.
Qed.

(** X14: when no fetched task is tagged, dated and past due, and every
    fetched due date parses, a run relocates nothing and returns: all it
    sends are move-to-bottom requests, and it needs no fuel for that. *)
Theorem run_without_past_due_tasks_only_reorders :
  forall (fuel : nat) (req : Requester) (current_time : datetime) (w : world),
    (forall ps id raw,
        cards_response req ps id = Some raw ->
        Forall (fun card => reaches_parse current_time card = None) raw) ->
    (forall ps id raw,
        cards_response req ps id = Some raw ->
        Forall (fun card => exists d, Text.strptime (rc_due card) = Ok d) raw) ->
    exists (w' : world) (bottoms : list put),
      main fuel req current_time w = (Val tt, w') /\
      puts w' = puts w ++ bottoms /\ Forall bottom_request bottoms.
Proof.
  intros fuel req now w Hnone Hparse.
  destruct (get_lists_outcome req w) as [lists [w1 [E1 P1]]].
  assert (Hone : forall (l : List) (w0 : world), exists r w' ps,
             update_due_dates fuel req now lists l w0 = (r, w') /\
             (r = Val tt \/ False) /\
             puts w' = puts w0 ++ ps /\ Forall (fun _ => False) ps).
  { intros l w0. unfold update_due_dates, get_cards. run.
    destruct (cards_response req (puts w0) (list_identifier l)) as [raw|] eqn:Ec;
      run.
    - unfold filter_out_cards, bind.
      match goal with |- context [for_state raw _ _ ?w2] =>
        destruct (filter_loop_skips now raw (None, []) w2
                    (Hnone _ _ _ Ec)) as [w3 [E3 P3]] end.
      rewrite E3. simpl. unfold ret.
      exists (Val tt), w3, []. rewrite app_nil_r. simpl in P3.
      split; [reflexivity|]. split; [left; reflexivity|].
      split; [exact P3|constructor].
    - eexists _, _, []. split; [reflexivity|]. simpl. rewrite app_nil_r.
      split; [left; reflexivity|]. split; [reflexivity|constructor]. }
  assert (Htwo : forall (l : List) (w0 : world), exists r w' ps,
             order_cards req l w0 = (r, w') /\
             (r = Val tt \/ False) /\
             puts w' = puts w0 ++ ps /\ Forall bottom_request ps).
  { intros l w0.
    destruct (order_cards_outcome_strong req l w0)
      as [r [w2 [ps [E [Hr HP]]]]].
    exists r, w2, ps. split; [exact E|]. split; [|exact HP].
    left. destruct Hr as [Hr|[_ [raw [e [Hc He]]]]]; [exact Hr|exfalso].
    destruct (construct_cards_to_order_returns raw (Hparse _ _ _ Hc))
      as [out Eo].
    congruence. }
  unfold main. unfold bind at 1. rewrite E1.
  unfold bind at 1. unfold logger at 1. unfold bind at 1.
  match goal with |- context [for_each lists _ ?w2] =>
    destruct (for_each_appends _ _ _ lists Hone w2)
      as [r2 [w3 [dues [E2 [Hr2 [P2 HP2]]]]]] end.
  rewrite E2. destruct Hr2 as [-> | []].
  assert (dues = []) by (destruct dues as [|p dues]; [reflexivity|];
                         inversion HP2; contradiction).
  subst dues. rewrite app_nil_r in P2. simpl in P2.
  unfold bind at 1. unfold logger at 1.
  match goal with |- context [for_each lists _ ?w4] =>
    destruct (for_each_appends _ _ _ lists Htwo w4)
      as [r3 [w5 [bottoms [E3 [Hr3 [P3 HP3]]]]]] end.
  rewrite E3. destruct Hr3 as [-> | []].
  exists w5, bottoms. split; [reflexivity|]. split; [|exact HP3].
  rewrite P3. simpl. rewrite P2, P1. reflexivity.
Qed.

(** ** The configuration file *)

Lemma readlines_line (a rest : string) :
  all_chars not_newline a = true ->
  readlines (line a ++ rest)%string = line a :: readlines rest.
Proof.
  unfold line. induction a as [|c a IH]; simpl; intros H.
  - reflexivity.
  - apply andb_true_iff in H. destruct H as [Hc Ha].
    unfold not_newline in Hc. apply negb_true_iff in Hc. rewrite Hc.
    rewrite (IH Ha). reflexivity.
Qed.

Lemma readlines_one_line (a : string) :
  all_chars not_newline a = true -> readlines (line a) = [line a].
Proof.
  unfold line. induction a as [|c a IH]; simpl; intros H.
  - reflexivity.
  - apply andb_true_iff in H. destruct H as [Hc Ha].
    unfold not_newline in Hc. apply negb_true_iff in Hc. rewrite Hc.
    rewrite (IH Ha). reflexivity.
Qed.

Lemma readlines_last (a : string) :
  all_chars not_newline a = true -> a <> EmptyString ->
  readlines a = [a].
Proof.
  induction a as [|c a IH]; simpl; intros H Hne; [congruence|].
  apply andb_true_iff in H. destruct H as [Hc Ha].
  unfold not_newline in Hc. apply negb_true_iff in Hc. rewrite Hc.
  destruct a as [|c' a']; [reflexivity|].
  rewrite (IH Ha) by discriminate. reflexivity.
Qed.

Lemma lstrip_plain (a : string) :
  all_chars not_newline a = true -> lstrip a = a.
Proof.
  destruct a as [|c a]; simpl; intros H; [reflexivity|].
  apply andb_true_iff in H. destruct H as [Hc _].
  unfold not_newline in Hc. apply negb_true_iff in Hc. now rewrite Hc.
Qed.

Lemma rstrip_plain (a : string) :
  all_chars not_newline a = true -> rstrip a = a.
Proof.
  induction a as [|c a IH]; simpl; intros H; [reflexivity|].
  apply andb_true_iff in H. destruct H as [Hc Ha].
  unfold not_newline in Hc. apply negb_true_iff in Hc.
  rewrite (IH Ha), Hc. destruct a; reflexivity.
Qed.

Lemma rstrip_line (a : string) :
  all_chars not_newline a = true -> rstrip (line a) = a.
Proof.
  unfold line. induction a as [|c a IH]; simpl; intros H.
  - reflexivity.
  - apply andb_true_iff in H. destruct H as [Hc Ha].
    unfold not_newline in Hc. apply negb_true_iff in Hc.
    rewrite (IH Ha), Hc. destruct a; reflexivity.
Qed.

Lemma strip_line (a : string) :
  all_chars not_newline a = true -> strip (line a) = a.
Proof.
  intros H. unfold strip. destruct a as [|c a].
  - reflexivity.
  - assert (E : lstrip (line (String c a)) = line (String c a)).
    { simpl in *. apply andb_true_iff in H. destruct H as [Hc _].
      unfold not_newline in Hc. apply negb_true_iff in Hc. now rewrite Hc. }
    rewrite E. now apply rstrip_line.
Qed.

Lemma strip_plain (a : string) :
  all_chars not_newline a = true -> strip a = a.
Proof.
  intros H. unfold strip. rewrite lstrip_plain by exact H.
  now apply rstrip_plain.
Qed.

Lemma line_not_empty (a : string) : String.eqb (line a) EmptyString = false.
Proof. destruct a; reflexivity. Qed.

(** X15: the configuration is read back from a file of three lines,
    whether or not the last line ends in a newline, and the values kept
    carry no newline; a file with one more line, were it blank, and a
    file of two lines are refused with [ValueError]. *)
Theorem read_config_wants_three_lines :
  forall a b c : string,
    all_chars not_newline a = true -> all_chars not_newline b = true ->
    all_chars not_newline c = true ->
    read_config (line a ++ line b ++ line c)%string
    = Ok {| board_id := a; trello_api_key := b; trello_api_token := c |} /\
    (c <> EmptyString ->
     read_config (line a ++ line b ++ c)%string
     = Ok {| board_id := a; trello_api_key := b; trello_api_token := c |}) /\
    (forall d, all_chars not_newline d = true ->
               read_config (line a ++ line b ++ line c ++ line d)%string
               = Raise ValueError) /\
    read_config (line a ++ line b)%string = Raise ValueError.
Proof.
  intros a b c Ha Hb Hc. unfold read_config.
  split; [|split; [|split]].
  - rewrite (readlines_line a) by exact Ha.
    rewrite (readlines_line b) by exact Hb.
    rewrite (readlines_one_line c) by exact Hc.
    cbn [filter]. rewrite !line_not_empty. cbn [negb map].
    rewrite !strip_line by assumption. reflexivity.
  - intros Hne.
    rewrite (readlines_line a) by exact Ha.
    rewrite (readlines_line b) by exact Hb.
    rewrite (readlines_last c Hc Hne).
    cbn [filter]. rewrite !line_not_empty.
    destruct c as [|x c]; [congruence|]. cbn [String.eqb negb map].
    rewrite !strip_line by assumption. rewrite strip_plain by exact Hc.
    reflexivity.
  - intros d Hd.
    rewrite (readlines_line a) by exact Ha.
    rewrite (readlines_line b) by exact Hb.
    rewrite (readlines_line c) by exact Hc.
    rewrite (readlines_one_line d) by exact Hd.
    cbn [filter]. rewrite !line_not_empty. reflexivity.
  - rewrite (readlines_line a) by exact Ha.
    rewrite (readlines_one_line b) by exact Hb.
    cbn [filter]. rewrite !line_not_empty. reflexivity.
Qed.

Lemma read_config_wants_three_lines_witness :
  all_chars not_newline "board" = true /\
  read_config (line "board" ++ line "first" ++ line "second")%string
  = Ok {| board_id := "board"; trello_api_key := "first";
          trello_api_token := "second" |} /\
  read_config (line "board" ++ line "first" ++ line "second" ++ line "")%string
  = Raise ValueError.
Proof.
  split; [reflexivity|].
  destruct (read_config_wants_three_lines "board" "first" "second"
              eq_refl eq_refl eq_refl) as [H1 [_ [H3 _]]].
  split; [exact H1 | exact (H3 EmptyString eq_refl)].
Defined.
End Program.

(** * The theorems at work

    The instances below run the program on the sample runtime: the limit
    of 4300 digits of [int], and notes in Latin, Cyrillic and Arabic-Indic
    characters. *)

#[local] Existing Instance sample_runtime.
Import Calendar.
Import Relativedelta.

Lemma lists_fetch_failure_degrades_to_empty_witness :
  lists_response unreachable_board = None /\
  main 5 unreachable_board scenario_now empty_world
  = (Val tt,
     {| puts := [];
        log := [(CRITICAL, "Can't get lists");
                (INFO, "Started to update due dates");
                (INFO, "Start to sort cards")] |}).
Proof.
  split; [reflexivity|].
  apply (lists_fetch_failure_degrades_to_empty
           5 unreachable_board scenario_now empty_world).
  reflexivity.
Defined.

Lemma router_selects_weekday_list_witness :
  (Permutation (map list_name week_lists) list_names /\
   exists l,
     In l week_lists /\ list_name l = weekday_name scenario_new_due /\
     nth_error list_names (Z.to_nat (weekday scenario_new_due))
     = Some (list_name l) /\
     (forall l', In l' week_lists ->
                 list_name l' = weekday_name scenario_new_due -> l' = l) /\
     target_list scenario_new_due week_lists = Ok (Some (list_identifier l)))
  /\
  (in_names (weekday_name scenario_new_due) (map list_name []) = false /\
   advance 3 scenario_now scenario_card (due scenario_card)
   = Val scenario_new_due /\
   target_list scenario_new_due [] = Ok None /\
   process_card 3 (monday_board []) scenario_now scenario_card [] empty_world
   = (Val tt,
      {| puts := [];
         log := [(ERROR, "Can't find a target list for card")] |})).
Proof.
  split.
  - split; [apply Permutation_refl|].
    apply (proj1 router_selects_weekday_list scenario_new_due week_lists).
    apply Permutation_refl.
  - split; [vm_compute; reflexivity|]. split; [vm_compute; reflexivity|].
    apply (proj2 router_selects_weekday_list scenario_new_due []
                 3%nat (monday_board []) scenario_now scenario_card empty_world);
      vm_compute; reflexivity.
Defined.


Lemma orderer_sorts_stably_and_repositions_in_order_witness :
  (cards_to_order (monday_board two_dated_raw) (puts empty_world)
                  {| list_name := "Понедельник"; list_identifier := "L1" |}
   = Ok [ {| sort_name := "tenth"; sort_identifier := "t10";
             sort_due := mk 2023 2 10 0 0 0 0 |};
          {| sort_name := "fifth"; sort_identifier := "t05";
             sort_due := mk 2023 2 5 0 0 0 0 |} ] /\
   sort_cards [ {| sort_name := "tenth"; sort_identifier := "t10";
                   sort_due := mk 2023 2 10 0 0 0 0 |};
                {| sort_name := "fifth"; sort_identifier := "t05";
                   sort_due := mk 2023 2 5 0 0 0 0 |} ]
   = [ {| sort_name := "fifth"; sort_identifier := "t05";
          sort_due := mk 2023 2 5 0 0 0 0 |};
       {| sort_name := "tenth"; sort_identifier := "t10";
          sort_due := mk 2023 2 10 0 0 0 0 |} ] /\
   exists w',
     order_cards (monday_board two_dated_raw)
                 {| list_name := "Понедельник"; list_identifier := "L1" |}
                 empty_world = (Val tt, w') /\
     puts w'
     = puts empty_world
       ++ map (fun c => PutBottom (sort_identifier c))
              (sort_cards [ {| sort_name := "tenth"; sort_identifier := "t10";
                               sort_due := mk 2023 2 10 0 0 0 0 |};
                            {| sort_name := "fifth"; sort_identifier := "t05";
                               sort_due := mk 2023 2 5 0 0 0 0 |} ]))
  /\
  (reorder_requests (monday_board two_dated_raw) []
     [ {| list_name := "Понедельник"; list_identifier := "L1" |} ]
   = Some [PutBottom "t05"; PutBottom "t10"] /\
   exists w',
     main 0 (monday_board two_dated_raw) scenario_now empty_world
     = (Val tt, w') /\
     puts w' = [] ++ [PutBottom "t05"; PutBottom "t10"]).
Proof.
  split.
  - split; [vm_compute; reflexivity|]. split; [vm_compute; reflexivity|].
    apply (proj1 (proj2 (proj2 (proj2
             (orderer_sorts_stably_and_repositions_in_order
                (monday_board two_dated_raw)
                [ {| sort_name := "tenth"; sort_identifier := "t10";
                     sort_due := mk 2023 2 10 0 0 0 0 |};
                  {| sort_name := "fifth"; sort_identifier := "t05";
                     sort_due := mk 2023 2 5 0 0 0 0 |} ]))))
             {| list_name := "Понедельник"; list_identifier := "L1" |}
             empty_world).
    vm_compute. reflexivity.
  - split; [vm_compute; reflexivity|].
    apply (proj2 (proj2 (proj2 (proj2
             (orderer_sorts_stably_and_repositions_in_order
                (monday_board two_dated_raw) []))))
             0%nat scenario_now
             [ {| list_name := "Понедельник"; list_identifier := "L1" |} ]
             empty_world
             {| puts := [];
                log := [(INFO, "Received lists");
                        (ERROR, "Not all necessary lists were received")] |}
             {| puts := [];
                log := [(INFO, "Received lists");
                        (ERROR, "Not all necessary lists were received");
                        (INFO, "Started to update due dates");
                        (INFO, "Start to process list"); (INFO, "cards found");
                        (INFO, "Check card");
                        (INFO, "Filtered out, because is not regular");
                        (INFO, "Check card");
                        (INFO, "Filtered out, because is not regular")] |}
             [PutBottom "t05"; PutBottom "t10"]);
      vm_compute; reflexivity.
Defined.


Lemma unparsable_notes_reuse_previous_rule_witness :
  filter_out_cards scenario_now [scenario_raw] empty_world
  = (Val [scenario_card],
     {| puts := []; log := [(INFO, "Check card")] |}) /\
  last_parsed scenario_now [scenario_raw] = Some (PInt 1, "weeks") /\
  reaches_parse scenario_now no_rule_raw = Some (mk 2023 1 2 9 30 0 0) /\
  Text.match_period (rc_desc no_rule_raw) = None /\
  exists tail w',
    filter_out_cards scenario_now ([scenario_raw] ++ no_rule_raw :: []) empty_world
    = (Val ([scenario_card]
            ++ make_card no_rule_raw (mk 2023 1 2 9 30 0 0) (PInt 1, "weeks") :: tail),
       w') /\
    period_len (make_card no_rule_raw (mk 2023 1 2 9 30 0 0) (PInt 1, "weeks"))
    = fst (PInt 1, "weeks") /\
    period_type (make_card no_rule_raw (mk 2023 1 2 9 30 0 0) (PInt 1, "weeks"))
    = snd (PInt 1, "weeks").
Proof.
  split; [vm_compute; reflexivity|].
  split; [vm_compute; reflexivity|].
  split; [vm_compute; reflexivity|].
  split; [vm_compute; reflexivity|].
  apply (unparsable_notes_reuse_previous_rule
           scenario_now [scenario_raw] [] no_rule_raw empty_world
           {| puts := []; log := [(INFO, "Check card")] |}
           [scenario_card] (mk 2023 1 2 9 30 0 0) (PInt 1, "weeks"));
    vm_compute; reflexivity.
Defined.

(** C6 as stated fails on a batch whose first task has no rule in its
    notes: the task passes the tag and due-date checks, and the filter
    raises instead of returning an output that holds it. *)
Lemma unparsable_first_task_is_not_appended :
  reaches_parse scenario_now no_rule_raw = Some (mk 2023 1 2 9 30 0 0) /\
  Text.match_period (rc_desc no_rule_raw) = None /\
  filter_out_cards scenario_now [no_rule_raw] empty_world
  = (Exc NameError,
     {| puts := [];
        log := [(INFO, "Check card");
                (ERROR, "Can't parse period from description")] |}).
Proof. repeat split; vm_compute; reflexivity. Qed.

Lemma first_unparsable_task_aborts_run_witness :
  (Forall (fun x => reaches_parse scenario_now x = None) [no_due_raw] /\
   reaches_parse scenario_now no_rule_raw = Some (mk 2023 1 2 9 30 0 0) /\
   Text.match_period (rc_desc no_rule_raw) = None /\
   exists w',
     filter_out_cards scenario_now ([no_due_raw] ++ no_rule_raw :: [scenario_raw])
                      empty_world
     = (Exc NameError, w') /\ puts w' = puts empty_world)
  /\
  (get_lists (monday_board ([no_due_raw] ++ no_rule_raw :: [scenario_raw]))
             empty_world
   = (Val ([] ++ {| list_name := "Понедельник"; list_identifier := "L1" |} :: []),
      {| puts := [];
         log := [(INFO, "Received lists");
                 (ERROR, "Not all necessary lists were received")] |}) /\
   exists w',
     main 5 (monday_board ([no_due_raw] ++ no_rule_raw :: [scenario_raw]))
          scenario_now empty_world
     = (Exc NameError, w') /\
     puts w' = [])
  /\
  (filter_out_cards scenario_now ([scenario_raw] ++ no_rule_raw :: []) empty_world
   = (Val [scenario_card;
           make_card no_rule_raw (mk 2023 1 2 9 30 0 0) (PInt 1, "weeks")],
      {| puts := [];
         log := [(INFO, "Check card"); (INFO, "Check card");
                 (ERROR, "Can't parse period from description")] |}) /\
   exists earlier,
     In earlier [scenario_raw] /\ parsed_period scenario_now earlier <> None)
  /\
  (Text.match_period (rc_desc long_count_raw) = Some (long_count, "weeks") /\
   Text.to_int long_count = Raise ValueError /\
   exists tail w',
     filter_out_cards scenario_now ([no_due_raw] ++ long_count_raw :: [no_rule_raw])
                      empty_world
     = (Val (make_card long_count_raw (mk 2023 1 3 8 0 0 0)
                       (PStr long_count, "weeks") :: tail), w') /\
     puts w' = puts empty_world).
Proof.
  assert (Hskip : Forall (fun x => reaches_parse scenario_now x = None)
                         [no_due_raw]).
  { constructor; [vm_compute; reflexivity|constructor]. }
  split; [|split; [|split]].
  - split; [exact Hskip|].
    split; [vm_compute; reflexivity|]. split; [vm_compute; reflexivity|].
    apply (proj1 first_unparsable_task_aborts_run scenario_now
             [no_due_raw] [scenario_raw] no_rule_raw (mk 2023 1 2 9 30 0 0)
             empty_world Hskip); vm_compute; reflexivity.
  - split; [vm_compute; reflexivity|].
    apply (proj1 (proj2 first_unparsable_task_aborts_run) 5%nat
             (monday_board ([no_due_raw] ++ no_rule_raw :: [scenario_raw]))
             scenario_now [] []
             {| list_name := "Понедельник"; list_identifier := "L1" |}
             [no_due_raw] [scenario_raw] no_rule_raw (mk 2023 1 2 9 30 0 0)
             empty_world
             {| puts := [];
                log := [(INFO, "Received lists");
                        (ERROR, "Not all necessary lists were received")] |}
             {| puts := [];
                log := [(INFO, "Received lists");
                        (ERROR, "Not all necessary lists were received");
                        (INFO, "Started to update due dates")] |});
      try exact Hskip; vm_compute; reflexivity.
  - split; [vm_compute; reflexivity|].
    apply (proj1 (proj2 (proj2 first_unparsable_task_aborts_run)) scenario_now
             [scenario_raw] [] no_rule_raw (mk 2023 1 2 9 30 0 0) empty_world
             {| puts := [];
                log := [(INFO, "Check card"); (INFO, "Check card");
                        (ERROR, "Can't parse period from description")] |}
             [scenario_card;
              make_card no_rule_raw (mk 2023 1 2 9 30 0 0) (PInt 1, "weeks")]);
      vm_compute; reflexivity.
  - split; [vm_compute; reflexivity|]. split; [vm_compute; reflexivity|].
    apply (proj2 (proj2 (proj2 first_unparsable_task_aborts_run)) scenario_now
             [no_due_raw] [no_rule_raw] long_count_raw (mk 2023 1 3 8 0 0 0)
             long_count "weeks" ValueError empty_world Hskip);
      vm_compute; reflexivity.
Defined.

(** C10 as stated fails on a batch whose first task to reach the
    recurrence parse has a count of 4301 digits, where [int] converts no
    more than 4300: the parse fails and is logged, yet both names are
    bound by then, so the filter raises nothing and returns the task; and
    it returns the task without a rule after it, with the stale values,
    though no task of the batch parsed. *)
Lemma refused_count_first_task_is_appended :
  reaches_parse scenario_now long_count_raw = Some (mk 2023 1 3 8 0 0 0) /\
  Text.match_period (rc_desc long_count_raw) = Some (long_count, "weeks") /\
  Text.to_int long_count = Raise ValueError /\
  reaches_parse scenario_now no_rule_raw = Some (mk 2023 1 2 9 30 0 0) /\
  Text.match_period (rc_desc no_rule_raw) = None /\
  filter_out_cards scenario_now [long_count_raw; no_rule_raw] empty_world
  = (Val [ make_card long_count_raw (mk 2023 1 3 8 0 0 0)
                     (PStr long_count, "weeks");
           make_card no_rule_raw (mk 2023 1 2 9 30 0 0)
                     (PStr long_count, "weeks") ],
     {| puts := [];
        log := [ (INFO, "Check card");
                 (ERROR, "Can't parse period from description");
                 (INFO, "Check card");
                 (ERROR, "Can't parse period from description") ] |}).
Proof. repeat split; vm_compute; reflexivity. Qed.


Lemma process_card_keeps_a_due_date_not_in_the_past_witness :
  ltb (due scenario_card) scenario_due = false /\
  find (fun x => String.eqb (list_name x)
                            (weekday_name (due scenario_card))) week_lists
  = Some {| list_name := "Воскресенье"; list_identifier := "id-Воскресенье" |} /\
  exists w',
    process_card 0 (monday_board []) scenario_due scenario_card week_lists
                 empty_world = (Val tt, w') /\
    puts w' = puts empty_world
              ++ [PutDue (identifier scenario_card)
                    (Text.strftime (due scenario_card))
                    (list_identifier
                       {| list_name := "Воскресенье";
                          list_identifier := "id-Воскресенье" |})].
Proof.
  split; [vm_compute; reflexivity|]. split; [vm_compute; reflexivity|].
  apply (process_card_keeps_a_due_date_not_in_the_past
           0%nat (monday_board []) scenario_due scenario_card week_lists
           {| list_name := "Воскресенье"; list_identifier := "id-Воскресенье" |}
           empty_world); vm_compute; reflexivity.
Defined.

Lemma construct_cards_to_order_all_or_nothing_witness :
  (construct_cards_to_order two_dated_raw
   = Ok [ {| sort_name := "tenth"; sort_identifier := "t10";
             sort_due := mk 2023 2 10 0 0 0 0 |};
          {| sort_name := "fifth"; sort_identifier := "t05";
             sort_due := mk 2023 2 5 0 0 0 0 |} ] /\
   Forall2 constructed two_dated_raw
     [ {| sort_name := "tenth"; sort_identifier := "t10";
          sort_due := mk 2023 2 10 0 0 0 0 |};
       {| sort_name := "fifth"; sort_identifier := "t05";
          sort_due := mk 2023 2 5 0 0 0 0 |} ])
  /\
  (Forall (fun card => exists d, Text.strptime (rc_due card) = Ok d)
          two_dated_raw /\
   exists out, construct_cards_to_order two_dated_raw = Ok out)
  /\
  (Forall (fun card => exists d, Text.strptime (rc_due card) = Ok d)
          two_dated_raw /\
   Text.strptime (rc_due no_due_raw) = Raise TypeError /\
   construct_cards_to_order (two_dated_raw ++ no_due_raw :: [scenario_raw])
   = Raise TypeError).
Proof.
  assert (H : Forall (fun card => exists d, Text.strptime (rc_due card) = Ok d)
                     two_dated_raw).
  { repeat constructor; eexists; vm_compute; reflexivity. }
  split; [|split].
  - split; [vm_compute; reflexivity|].
    apply (proj1 construct_cards_to_order_all_or_nothing).
    vm_compute. reflexivity.
  - split; [exact H|].
    apply (proj1 (proj2 construct_cards_to_order_all_or_nothing)). exact H.
  - split; [exact H|]. split; [vm_compute; reflexivity|].
    apply (proj2 (proj2 construct_cards_to_order_all_or_nothing)
             two_dated_raw [scenario_raw] no_due_raw TypeError H).
    vm_compute. reflexivity.
Defined.

Lemma failed_card_fetch_counts_as_empty_witness :
  cards_response unreachable_board (puts empty_world)
                 (list_identifier
                    {| list_name := "Среда"; list_identifier := "L3" |})
  = None /\
  get_cards unreachable_board
            {| list_name := "Среда"; list_identifier := "L3" |} empty_world
  = (Val [],
     {| puts := puts empty_world;
        log := log empty_world
               ++ [(CRITICAL, "Failed to receive cards for list")] |})
  /\
  (exists w',
      update_due_dates 1 unreachable_board scenario_now week_lists
        {| list_name := "Среда"; list_identifier := "L3" |} empty_world
      = (Val tt, w') /\
      puts w' = puts empty_world) /\
  (exists w',
      order_cards unreachable_board
        {| list_name := "Среда"; list_identifier := "L3" |} empty_world
      = (Val tt, w') /\ puts w' = puts empty_world).
Proof.
  split; [reflexivity|].
  apply (failed_card_fetch_counts_as_empty 1%nat unreachable_board scenario_now
           week_lists {| list_name := "Среда"; list_identifier := "L3" |}
           empty_world).
  reflexivity.
Defined.

Lemma match_period_reads_the_leading_rule_witness :
  (Text.match_period "2 раза в неделю" = Some ("2", "раза") /\
   exists rest,
     "2 раза в неделю" = ("2" ++ " " ++ "раза" ++ rest)%string /\
     "2" <> "" /\ every_char Text.is_digit "2" = true /\
     "раза" <> "" /\ every_char Text.is_word "раза" = true /\
     stops Text.is_word rest = true)
  /\
  ("٣" <> "" /\ every_char Text.is_digit "٣" = true /\
   "weeksé" <> "" /\ every_char Text.is_word "weeksé" = true /\
   stops Text.is_word ", по средам" = true /\
   Text.match_period ("٣" ++ " " ++ "weeksé" ++ ", по средам")%string
   = Some ("٣", "weeksé"))
  /\
  (Text.to_int "٣" = Ok 3 /\ 0 <= 3).
Proof.
  split; [|split].
  - split; [vm_compute; reflexivity|].
    apply (proj1 match_period_reads_the_leading_rule
             "2 раза в неделю" "2" "раза").
    vm_compute. reflexivity.
  - split; [discriminate|]. split; [vm_compute; reflexivity|].
    split; [discriminate|]. split; [vm_compute; reflexivity|].
    split; [vm_compute; reflexivity|].
    apply (proj1 (proj2 match_period_reads_the_leading_rule)
             "٣" "weeksé" ", по средам");
      try discriminate; vm_compute; reflexivity.
  - split; [vm_compute; reflexivity|].
    apply (proj2 (proj2 match_period_reads_the_leading_rule) "٣" 3).
    vm_compute. reflexivity.
Defined.


Lemma filter_returns_well_formed_cards_witness :
  filter_out_cards scenario_now
    [no_due_raw; scenario_raw; no_rule_raw; russian_rule_raw; long_count_raw]
    empty_world
  = (Val [ scenario_card;
           make_card no_rule_raw (mk 2023 1 2 9 30 0 0) (PInt 1, "weeks");
           make_card russian_rule_raw (mk 2023 1 4 7 0 0 0) (PInt 2, "раза");
           make_card long_count_raw (mk 2023 1 3 8 0 0 0)
                     (PStr long_count, "weeks") ],
     {| puts := [];
        log := [ (INFO, "Check card");
                 (INFO, "Filtered out, because is not regular");
                 (INFO, "Check card"); (INFO, "Check card");
                 (ERROR, "Can't parse period from description");
                 (INFO, "Check card"); (INFO, "Check card");
                 (ERROR, "Can't parse period from description") ] |}) /\
  Forall (well_formed_card scenario_now)
         [ scenario_card;
           make_card no_rule_raw (mk 2023 1 2 9 30 0 0) (PInt 1, "weeks");
           make_card russian_rule_raw (mk 2023 1 4 7 0 0 0) (PInt 2, "раза");
           make_card long_count_raw (mk 2023 1 3 8 0 0 0)
                     (PStr long_count, "weeks") ].
Proof.
  split; [vm_compute; reflexivity|].
  apply (filter_returns_well_formed_cards scenario_now
           [no_due_raw; scenario_raw; no_rule_raw; russian_rule_raw;
            long_count_raw]
           empty_world
           {| puts := [];
              log := [ (INFO, "Check card");
                       (INFO, "Filtered out, because is not regular");
                       (INFO, "Check card"); (INFO, "Check card");
                       (ERROR, "Can't parse period from description");
                       (INFO, "Check card"); (INFO, "Check card");
                       (ERROR, "Can't parse period from description") ] |}).
  vm_compute. reflexivity.
Defined.


Lemma written_due_date_reads_back_witness :
  valid scenario_new_due /\ 1000 <= year scenario_new_due /\
  Text.strftime scenario_new_due = "2023-01-22T00:00:00.000Z" /\
  Text.strptime (Some (Text.strftime scenario_new_due))
  = Ok (whole_second scenario_new_due) /\
  (microsecond scenario_new_due = 0 ->
   Text.strptime (Some (Text.strftime scenario_new_due)) = Ok scenario_new_due).
Proof.
  split; [vm_compute; reflexivity|]. split; [vm_compute; discriminate|].
  split; [vm_compute; reflexivity|].
  apply (written_due_date_reads_back scenario_new_due);
    [vm_compute; reflexivity|vm_compute; discriminate].
Defined.

Lemma relocated_task_is_not_eligible_again_witness :
  valid scenario_new_due /\ 1000 <= year scenario_new_due /\
  microsecond scenario_new_due = 0 /\
  geb scenario_new_due scenario_now = true /\
  rc_due {| rc_name := "water the plants"; rc_id := "c9";
            rc_due := Some "2023-01-22T00:00:00.000Z"; rc_desc := "1 weeks";
            rc_labels := [ {| label_name := Some "Regular" |} ] |}
  = Some (Text.strftime scenario_new_due) /\
  reaches_parse scenario_now
    {| rc_name := "water the plants"; rc_id := "c9";
       rc_due := Some "2023-01-22T00:00:00.000Z"; rc_desc := "1 weeks";
       rc_labels := [ {| label_name := Some "Regular" |} ] |} = None /\
  forall w, exists w',
    filter_out_cards scenario_now
      [ {| rc_name := "water the plants"; rc_id := "c9";
           rc_due := Some "2023-01-22T00:00:00.000Z"; rc_desc := "1 weeks";
           rc_labels := [ {| label_name := Some "Regular" |} ] |} ] w
    = (Val [], w') /\ puts w' = puts w.
Proof.
  split; [vm_compute; reflexivity|]. split; [vm_compute; discriminate|].
  split; [reflexivity|]. split; [vm_compute; reflexivity|].
  split; [vm_compute; reflexivity|].
  apply (relocated_task_is_not_eligible_again scenario_now scenario_new_due);
    try (vm_compute; reflexivity). vm_compute; discriminate.
Defined.


Lemma weekly_rule_keeps_the_weekday_witness :
  valid (due scenario_card) /\ period_type scenario_card = "weeks" /\
  advance 3 scenario_now scenario_card (due scenario_card)
  = Val scenario_new_due /\
  weekday scenario_new_due = weekday (due scenario_card) /\
  weekday_name scenario_new_due = weekday_name (due scenario_card) /\
  forall lists,
    target_list scenario_new_due lists = target_list (due scenario_card) lists.
Proof.
  split; [vm_compute; reflexivity|]. split; [reflexivity|].
  split; [vm_compute; reflexivity|].
  apply (weekly_rule_keeps_the_weekday 3%nat scenario_now scenario_card
           scenario_new_due); vm_compute; reflexivity.
Defined.


Lemma run_without_past_due_tasks_only_reorders_witness :
  (forall ps id raw,
      cards_response (monday_board two_dated_raw) ps id = Some raw ->
      Forall (fun card => reaches_parse scenario_now card = None) raw) /\
  (forall ps id raw,
      cards_response (monday_board two_dated_raw) ps id = Some raw ->
      Forall (fun card => exists d, Text.strptime (rc_due card) = Ok d) raw) /\
  exists (w' : world) (bottoms : list put),
    main 0 (monday_board two_dated_raw) scenario_now empty_world
    = (Val tt, w') /\
    puts w' = puts empty_world ++ bottoms /\ Forall bottom_request bottoms.
Proof.
  assert (H1 : forall ps id raw,
             cards_response (monday_board two_dated_raw) ps id = Some raw ->
             Forall (fun card => reaches_parse scenario_now card = None) raw).
  { intros ps id raw H. simpl in H. inversion H. subst.
    repeat constructor. }
  assert (H2 : forall ps id raw,
             cards_response (monday_board two_dated_raw) ps id = Some raw ->
             Forall (fun card => exists d, Text.strptime (rc_due card) = Ok d)
                    raw).
  { intros ps id raw H. simpl in H. inversion H. subst.
    repeat constructor; eexists; vm_compute; reflexivity. }
  split; [exact H1|]. split; [exact H2|].
  apply (run_without_past_due_tasks_only_reorders
           0%nat (monday_board two_dated_raw) scenario_now empty_world H1 H2).
Defined.


